(** * srtgo: the reservation acquisition engine and its encrypted store

    A shallow embedding of [srtgo/srtgo.py] (seat predicate, passenger gate,
    polling loop, error handling) and of [srtgo/secure_storage.py] (the
    password-derived encrypted configuration store), with the properties the
    specification states about them.

    Python objects are records, dictionaries are [gmap]s, exceptions are the
    left summand of a result, and every call that leaves the process (rail
    client, notification channel, prompts, file system, random source) is an
    explicit part of the state that is threaded through. *)

From stdpp Require Import gmap strings list pretty.
From Stdlib Require Import ZArith Ascii.

Open Scope string_scope.
Open Scope list_scope.

(** ** A state-and-exception monad

    [M S E A] is a Python computation over a mutable world [S] that either
    returns an [A] or raises an [E]; side effects done before a raise stay
    done. *)
Module Eff.

Definition M (S E A : Type) : Type := S → (E + A) * S.

Definition ret {S E A} (a : A) : M S E A := λ s, (inr a, s).

Definition bind {S E A B} (m : M S E A) (k : A → M S E B) : M S E B :=
  λ s, match m s with
       | (inr a, s') => k a s'
       | (inl e, s') => (inl e, s')
       end.

Definition raise {S E A} (e : E) : M S E A := λ s, (inl e, s).

(** [try: m except e: h e] *)
Definition try_except {S E A} (m : M S E A) (h : E → M S E A) : M S E A :=
  λ s, match m s with
       | (inr a, s') => (inr a, s')
       | (inl e, s') => h e s'
       end.

Definition gets {S E A} (f : S → A) : M S E A := λ s, (inr (f s), s).

Definition modify {S E} (f : S → S) : M S E unit := λ s, (inr tt, f s).

End Eff.

Notation "'let*' x ':=' m 'in' k" := (Eff.bind m (λ x, k))
  (at level 10, x name, m at level 100, k at level 200,
   format "'[v' 'let*'  x  :=  m  'in' '/' k ']'").

(** [needle in hay] on Python strings: substring test.  UTF-8 is
    self-synchronising, so the test on the encoded bytes agrees with the test
    on code points. *)
Fixpoint str_in (needle hay : string) : bool :=
  String.prefix needle hay ||
  match hay with
  | EmptyString => false
  | String _ rest => str_in needle rest
  end.

(** [any(p in text for p in patterns)] *)
Definition any_in (patterns : list string) (text : string) : bool :=
  existsb (λ p, str_in p text) patterns.

(** ** srtgo.py *)
Module Srtgo.

(** [SeatType] of srt.py and [ReserveOption] of ktx.py carry the same four
    members; [reserve] picks the class that belongs to the rail type
    (srtgo.py:628), so one enumeration stands for both. *)
Inductive SeatType := GENERAL_FIRST | GENERAL_ONLY | SPECIAL_FIRST | SPECIAL_ONLY.

#[global] Instance SeatType_eq_dec : EqDecision SeatType.
Proof. solve_decision. Defined.

(** The candidate classes ([SRTTrain] in srt.py, [Train] in ktx.py) are not
    part of the sources at hand; [_is_seat_available] only calls these query
    methods on them. *)
Class SRTTrain (T : Type) : Type := {
  seat_available : T → bool;
  general_seat_available : T → bool;
  special_seat_available : T → bool;
  reserve_standby_available : T → bool;
}.

Class KorailTrain (T : Type) : Type := {
  has_seat : T → bool;
  has_general_seat : T → bool;
  has_special_seat : T → bool;
  has_waiting_list : T → bool;
}.

(** Modelled from the spec: the bodies of [seat_available] (srt.py) and
    [has_seat] (ktx.py) are missing.  Section 4.2 reads them as "any class
    (general or special) has a seat". *)
Class SeatLaws (T : Type) `{SRTTrain T, KorailTrain T} : Prop := {
  seat_available_any (t : T) :
    seat_available t = general_seat_available t || special_seat_available t;
  has_seat_any (t : T) :
    has_seat t = has_general_seat t || has_special_seat t;
}.

(** Modelled from the spec: a candidate reduced to its availability-by-class
    fields (section 3, and the scenario of section 8: [general], [special],
    [waitingList]). *)
Record Candidate := {
  general : bool;
  special : bool;
  waitingList : bool;
}.

#[global] Instance Candidate_SRTTrain : SRTTrain Candidate := {|
  seat_available c := general c || special c;
  general_seat_available := general;
  special_seat_available := special;
  reserve_standby_available := waitingList;
|}.

#[global] Instance Candidate_KorailTrain : KorailTrain Candidate := {|
  has_seat c := general c || special c;
  has_general_seat := general;
  has_special_seat := special;
  has_waiting_list := waitingList;
|}.

Section SeatPredicate.
Context {Train : Type} `{SRTTrain Train, KorailTrain Train}.

(** srtgo.py:738-754 *)
Definition _is_seat_available (train : Train) (seat_type : SeatType)
    (rail_type : string) : bool :=
  if String.eqb rail_type "SRT" then
    if negb (seat_available train) then reserve_standby_available train
    else if bool_decide (seat_type ∈ [GENERAL_FIRST; SPECIAL_FIRST])
    then seat_available train
    else if bool_decide (seat_type = GENERAL_ONLY)
    then general_seat_available train
    else special_seat_available train
  else
    if negb (has_seat train) then has_waiting_list train
    else if bool_decide (seat_type ∈ [GENERAL_FIRST; SPECIAL_FIRST])
    then has_seat train
    else if bool_decide (seat_type = GENERAL_ONLY)
    then has_general_seat train
    else has_special_seat train.

(** What a candidate offers, per class, as the rail type's client reports
    it. *)
Definition offer (rail_type : string) (train : Train) : Candidate :=
  if String.eqb rail_type "SRT" then
    {| general := general_seat_available train;
       special := special_seat_available train;
       waitingList := reserve_standby_available train |}
  else
    {| general := has_general_seat train;
       special := has_special_seat train;
       waitingList := has_waiting_list train |}.
End SeatPredicate.

(** *** The acquisition engine: [reserve] and its helpers *)

(** The exception classes the polling loop tells apart (srtgo.py:684-726),
    each with [str(ex)]; for [SRTError] that is also [ex.msg]. *)
Inductive Exn :=
| SRTError (msg : string)
| KorailError (text : string)
| JSONDecodeError (text : string)
| ConnectionError (text : string)
| OtherError (text : string).

Inductive PassengerClass :=
  Adult | Child | Senior | Disability1To3 | Disability4To6.

(** A passenger object: its class and its count. *)
Definition Passenger : Type := PassengerClass * Z.

(** The answers of the first prompt (srtgo.py:503-541).  A passenger class
    that the options do not enable is not asked: its key is absent. *)
Record Info := {
  departure : string;
  arrival : string;
  date : string;
  time : Z;                       (* [int(info["time"])], HHMMSS *)
  adult : Z;
  child : option Z;
  senior : option Z;
  disability1to3 : option Z;
  disability4to6 : option Z;
}.

Record SearchParams := {
  dep : string;
  arr : string;
  search_date : string;
  search_time : Z;
  search_passengers : list Passenger;
  available_only : option bool;     (* SRT *)
  include_no_seats : option bool;   (* KTX *)
  ktx_only : bool;                  (* [train_type = TrainType.KTX] *)
}.

(** What [rail.reserve] returns: its printed form, and [is_waiting] when the
    object has that attribute. *)
Record Reservation := {
  reservation_text : string;
  is_waiting : option bool;
}.

(** The answers of the last prompt (srtgo.py:629-640). *)
Record OptionsAns := {
  type : SeatType;
  pay : bool;
}.

Inductive Flow := Continue | Return.

(** How a call of [reserve] is left, when it is: a normal return, or still
    inside [while True] when the observation ends. *)
Inductive Outcome := Returned | StillPolling.

Definition nl : string := String "010"%char EmptyString.

(** [str(ex)] *)
Definition exn_str (ex : Exn) : string :=
  match ex with
  | SRTError s | KorailError s | JSONDecodeError s
  | ConnectionError s | OtherError s => s
  end.

(** srtgo.py:560-576: the passenger objects and [total_count]. *)
Definition add_passengers (cls : PassengerClass) (count : Z)
    (acc : list Passenger * Z) : list Passenger * Z :=
  if (0 <? count)%Z then (acc.1 ++ [(cls, count)], (acc.2 + count)%Z) else acc.

Definition add_optional (cls : PassengerClass) (count : option Z)
    (acc : list Passenger * Z) : list Passenger * Z :=
  match count with
  | Some c => add_passengers cls c acc      (* [k in info and info[k] > 0] *)
  | None => acc
  end.

Definition build_passengers (info : Info) : list Passenger * Z :=
  add_optional Disability4To6 (disability4to6 info)
    (add_optional Disability1To3 (disability1to3 info)
      (add_optional Senior (senior info)
        (add_optional Child (child info)
          (add_passengers Adult (adult info) ([], 0%Z))))).

Section Engine.
Context {Train : Type} `{SRTTrain Train, KorailTrain Train}.

(** Everything [reserve] hears from outside the process: the answers of
    the prompts, the clock, the stored options, and what the n-th call of
    each collaborator does; and how Python prints what an f-string takes
    from an exception besides [str(ex)], which the class of the exception
    fixes and not this module. *)
Record Env := {
  today : string;                              (* [now.strftime("%Y%m%d")] *)
  this_time : Z;                               (* [int(this_time)] *)
  options : list string;                       (* [get_options()] *)
  card_ok : bool;                              (* [keyring.get_password("card", "ok")] *)
  prompt_info : option Info;
  prompt_trains : option (list nat);           (* [choice["trains"]] *)
  prompt_options : option OptionsAns;
  confirm_answer : nat → bool;                 (* [inquirer.confirm] *)
  login_result : nat → Exn + bool;             (* [rail.is_login] of the new client *)
  search_result : nat → Exn + list Train;      (* [rail.search_train] *)
  reserve_result : nat → Exn + Reservation;    (* [rail.reserve] *)
  pay_result : nat → Exn + bool;               (* [rail.pay_with_card] *)
  send_result : nat → option Exn;              (* [asyncio.run(tgprintf(msg))] *)
  type_repr : Exn → string;                    (* [f"{type(ex)}"] *)
  args_repr : Exn → string;                    (* [f"{ex.args}"] *)
  msg_attr : Exn → string;                     (* [ex.msg] of a [JSONDecodeError] *)
}.

(** What the engine does to the outside, in order. *)
Inductive Event :=
| EvLogin (r : Exn + bool)
| EvSavePrefs (info : Info)
| EvPrint (text : string)
| EvProgress (i_try : nat)
| EvSearch (params : SearchParams) (r : Exn + list Train)
| EvReserve (train : Train) (passengers : list Passenger)
    (option : SeatType) (r : Exn + Reservation)
| EvPay (r : Exn + bool)
| EvSend (text : string) (r : option Exn)
| EvConfirm (answer : bool)
| EvClear
| EvSleep.

Definition is_login (e : Event) : bool :=
  match e with EvLogin _ => true | _ => false end.
Definition is_search (e : Event) : bool :=
  match e with EvSearch _ _ => true | _ => false end.
Definition is_reserve (e : Event) : bool :=
  match e with EvReserve _ _ _ _ => true | _ => false end.
Definition is_pay (e : Event) : bool :=
  match e with EvPay _ => true | _ => false end.
Definition is_send (e : Event) : bool :=
  match e with EvSend _ _ => true | _ => false end.
Definition is_confirm (e : Event) : bool :=
  match e with EvConfirm _ => true | _ => false end.
Definition is_progress (e : Event) : bool :=
  match e with EvProgress _ => true | _ => false end.
(** A reservation the backend committed. *)
Definition is_reserved (e : Event) : bool :=
  match e with EvReserve _ _ _ (inr _) => true | _ => false end.

Definition calls (p : Event → bool) (trace : list Event) : nat :=
  length (List.filter p trace).

(** The state of the engine is the trace so far. *)
Abbreviation Run := (Eff.M (list Event) Exn).

Definition emit (e : Event) : Run unit := Eff.modify (λ trace, trace ++ [e]).

Definition result {A} (r : Exn + A) : Run A :=
  match r with inl ex => Eff.raise ex | inr a => Eff.ret a end.

Variable env : Env.
Variable rail_type : string.
Variable debug : bool.

(** [login(rail_type, debug)]: a new client; answers its [is_login]. *)
Definition login : Run bool :=
  let* n := Eff.gets (calls is_login) in
  let r := login_result env n in
  let* _ := emit (EvLogin r) in
  result r.

Definition search_train (params : SearchParams) : Run (list Train) :=
  let* n := Eff.gets (calls is_search) in
  let r := search_result env n in
  let* _ := emit (EvSearch params r) in
  result r.

Definition rail_reserve (train : Train) (passengers : list Passenger)
    (option : SeatType) : Run Reservation :=
  let* n := Eff.gets (calls is_reserve) in
  let r := reserve_result env n in
  let* _ := emit (EvReserve train passengers option r) in
  result r.

(** srtgo.py:374-402 *)
Definition pay_card : Run bool :=
  if card_ok env then
    let* n := Eff.gets (calls is_pay) in
    let r := pay_result env n in
    let* _ := emit (EvPay r) in
    result r
  else Eff.ret false.

(** [asyncio.run(get_telegram()(msg))] *)
Definition tgprintf (msg : string) : Run unit :=
  let* n := Eff.gets (calls is_send) in
  let r := send_result env n in
  let* _ := emit (EvSend msg r) in
  match r with Some ex => Eff.raise ex | None => Eff.ret tt end.

Definition confirm : Run bool :=
  let* n := Eff.gets (calls is_confirm) in
  let answer := confirm_answer env n in
  let* _ := emit (EvConfirm answer) in
  Eff.ret answer.

Definition print (text : string) : Run unit := emit (EvPrint text).

Definition debug_print (text : string) : Run unit :=
  if debug then print text else Eff.ret tt.

(** srtgo.py:728-729 *)
Definition _sleep : Run unit := emit EvSleep.

(** [f"\nException: {ex}, Type: {type(ex)}, Message: {ex.args}"] *)
Definition report (ex : Exn) : string :=
  nl +:+ "Exception: " +:+ exn_str ex +:+ ", Type: " +:+ type_repr env ex
     +:+ ", Message: " +:+ args_repr env ex.

(** [f"\nException: {ex}\nType: {type(ex)}\nArgs: {ex.args}\nMessage: {msg}"] *)
Definition debug_report (ex : Exn) (msg : string) : string :=
  nl +:+ "Exception: " +:+ exn_str ex +:+ nl +:+ "Type: " +:+ type_repr env ex
     +:+ nl +:+ "Args: " +:+ args_repr env ex +:+ nl +:+ "Message: " +:+ msg.

(** srtgo.py:731-736 *)
Definition _handle_error (ex : Exn) (msg : option string) : Run bool :=
  let msg := match msg with
             | Some (String _ _ as m) => m
             | _ => report ex
             end in
  let* _ := print msg in
  let* _ := tgprintf msg in
  confirm.

Section Polling.
Variable passengers : list Passenger.
Variable params : SearchParams.
Variable choice : list nat.
Variable options_ans : OptionsAns.

(** srtgo.py:645-662 *)
Definition _reserve (train : Train) : Run unit :=
  let* reserve_ret := rail_reserve train passengers (type options_ans) in
  let msg := reservation_text reserve_ret in
  let* _ := print (nl +:+ nl +:+ "🎫 🎉 예매 성공!!! 🎉 🎫" +:+ nl +:+ msg +:+ nl) in
  let* msg :=
    (if pay options_ans && bool_decide (is_waiting reserve_ret = Some false)
     then
       let* paid := pay_card in
       if paid then
         let* _ := print (nl +:+ nl +:+ "💳 ✨ 결제 성공!!! ✨ 💳" +:+ nl +:+ nl) in
         Eff.ret (msg +:+ nl +:+ "결제 완료")
       else Eff.ret msg
     else Eff.ret msg) in
  tgprintf msg.

(** srtgo.py:678-681: [for i in choice["trains"]] *)
Fixpoint try_candidates (trains : list Train) (selected : list nat)
    : Run Flow :=
  match selected with
  | [] => Eff.ret Continue
  | i :: rest =>
    match trains !! i with
    | None => Eff.raise (OtherError "list index out of range")
    | Some train =>
      if _is_seat_available train (type options_ans) rail_type then
        let* _ := _reserve train in
        Eff.ret Return
      else try_candidates trains rest
    end
  end.

(** The [except] clauses of the loop, srtgo.py:684-726. *)
Definition on_error (ex : Exn) : Run Flow :=
  match ex with
  | SRTError msg =>
    let* go :=
      (if str_in "정상적인 경로로 접근 부탁드립니다" msg then
         let* _ := debug_print (debug_report ex msg) in
         let* _ := emit EvClear in
         Eff.ret true
       else if str_in "로그인 후 사용하십시오" msg then
         let* _ := debug_print (debug_report ex msg) in
         let* logged_in := login in
         if negb logged_in then _handle_error ex None else Eff.ret true
       else if negb (any_in ["잔여석없음"; "사용자가 많아 접속이 원활하지 않습니다";
                             "예약대기 접수가 마감되었습니다"; "예약대기자한도수초과"] msg)
       then _handle_error ex None
       else Eff.ret true) in
    if go then let* _ := _sleep in Eff.ret Continue else Eff.ret Return
  | KorailError text =>
    let* go :=
      (if negb (any_in ["Sold out"; "잔여석없음"; "예약대기자한도수초과"] text)
       then _handle_error ex None
       else Eff.ret true) in
    if go then let* _ := _sleep in Eff.ret Continue else Eff.ret Return
  | JSONDecodeError _ =>
    let* _ := debug_print (debug_report ex (msg_attr env ex)) in
    let* _ := _sleep in
    let* _ := login in
    Eff.ret Continue
  | ConnectionError _ =>
    let* go := _handle_error ex (Some "연결이 끊겼습니다") in
    if go then let* _ := login in Eff.ret Continue else Eff.ret Return
  | OtherError _ =>
    let* _ := debug_print (nl +:+ "Undefined exception") in
    let* go := _handle_error ex None in
    if go then let* _ := login in Eff.ret Continue else Eff.ret Return
  end.

(** One turn of [while True], srtgo.py:666-726. *)
Definition cycle (i_try : nat) : Run Flow :=
  Eff.try_except
    (let* _ := emit (EvProgress i_try) in
     let* trains := search_train params in
     let* flow := try_candidates trains choice in
     match flow with
     | Return => Eff.ret Return
     | Continue => let* _ := _sleep in Eff.ret Continue
     end)
    on_error.

(** [while True], observed for [fuel] turns; [i_try] is the counter
    before the turn. *)
Fixpoint poll (fuel : nat) (i_try : nat) : Run Outcome :=
  match fuel with
  | O => Eff.ret StillPolling
  | S fuel' =>
    let* flow := cycle (S i_try) in
    match flow with
    | Return => Eff.ret Returned
    | Continue => poll fuel' (S i_try)
    end
  end.
End Polling.

(** srtgo.py:445-726.  The defaults read from the keyring only preselect
    prompt entries and are left out; the prompts answer from [env]. *)
Definition reserve (fuel : nat) : Run Outcome :=
  let* _ := login in
  let is_srt := String.eqb rail_type "SRT" in
  match prompt_info env with
  | None =>
    let* _ := print ("예매 정보 입력 중 취소되었습니다" +:+ nl) in
    Eff.ret Returned
  | Some info =>
    if String.eqb (departure info) (arrival info) then
      let* _ := print ("출발역과 도착역이 같습니다" +:+ nl) in
      Eff.ret Returned
    else
      let* _ := emit (EvSavePrefs info) in
      let time :=
        if String.eqb (date info) (today env) && (time info <? this_time env)%Z
        then this_time env else time info in
      let '(passengers, total_count) := build_passengers info in
      if (total_count =? 0)%Z then
        let* _ := print ("승객수는 0이 될 수 없습니다" +:+ nl) in
        Eff.ret Returned
      else if (10 <=? total_count)%Z then
        let* _ := print ("승객수는 10명을 초과할 수 없습니다" +:+ nl) in
        Eff.ret Returned
      else
        let params := {|
          dep := departure info;
          arr := arrival info;
          search_date := date info;
          search_time := time;
          search_passengers :=
            if is_srt then passengers else [(Adult, total_count)];
          available_only := if is_srt then Some false else None;
          include_no_seats := if is_srt then None else Some true;
          ktx_only := negb is_srt && bool_decide ("ktx" ∈ options env);
        |} in
        let* trains := search_train params in
        match trains with
        | [] =>
          let* _ := print ("예약 가능한 열차가 없습니다" +:+ nl) in
          Eff.ret Returned
        | _ :: _ =>
          match prompt_trains env with
          | None | Some [] =>
            let* _ := print ("선택한 열차가 없습니다!" +:+ nl) in
            Eff.ret Returned
          | Some choice =>
            match prompt_options env with
            | None =>
              let* _ := print ("예매 정보 입력 중 취소되었습니다" +:+ nl) in
              Eff.ret Returned
            | Some options_ans =>
              poll passengers params choice options_ans fuel 0
            end
          end
        end
  end.
End Engine.

Arguments Env : clear implicits.
Arguments Event : clear implicits.


(** *** The specification's vocabulary for the engine *)

(** The sum of the entered passenger counts; a class that was not asked
    counts for nothing. *)
Definition entered_total (info : Info) : Z :=
  (adult info + default 0 (child info) + default 0 (senior info)
   + default 0 (disability1to3 info) + default 0 (disability4to6 info))%Z.

(** The prompts offer [range(10)]: no entered count is negative. *)
Definition counts_entered (info : Info) : Prop :=
  (0 ≤ adult info)%Z ∧
  Forall (λ count, 0 ≤ default 0 count)%Z
    [child info; senior info; disability1to3 info; disability4to6 info].





(** What happened from the first committed reservation on, that event
    excluded. *)
Fixpoint since_reserved {Train : Type} (trace : list (Event Train))
    : list (Event Train) :=
  match trace with
  | [] => []
  | e :: rest => if is_reserved e then rest else since_reserved rest
  end.

(** The decision table of section 4.2, in the spec's words and read top
    down: the two "no seats in any class" rows apply to any preference and
    come first. *)
Definition decision_table (c : Candidate) (preference : SeatType) : bool :=
  if negb (general c) && negb (special c) then
    (* no seats in ANY class: true iff waiting-list capacity exists *)
    waitingList c
  else
    match preference with
    | GENERAL_FIRST | SPECIAL_FIRST => general c || special c
    | GENERAL_ONLY => general c
    | SPECIAL_ONLY => special c
    end.

(** The sum of the counts of passenger objects. *)
Definition head_count (passengers : list Passenger) : Z :=
  foldr (λ p total, (p.2 + total)%Z) 0%Z passengers.

(** The order in which [reserve] goes through the passenger classes
    (srtgo.py:565-576), and the place of a class in it. *)
Definition class_order : list PassengerClass :=
  [Adult; Child; Senior; Disability1To3; Disability4To6].

Definition class_rank (cls : PassengerClass) : nat :=
  match cls with
  | Adult => 0 | Child => 1 | Senior => 2
  | Disability1To3 => 3 | Disability4To6 => 4
  end.

Definition is_sleep {Train : Type} (e : Event Train) : bool :=
  match e with EvSleep => true | _ => false end.

(** The engine holds still: it sleeps, or it waits for the user's answer
    to "계속할까요". *)
Definition is_pause {Train : Type} (e : Event Train) : bool :=
  match e with EvSleep | EvConfirm _ => true | _ => false end.

(** No search follows another without a pause in between; [rested] says
    whether a search may come next. *)
Fixpoint paced {Train : Type} (rested : bool) (trace : list (Event Train))
    : bool :=
  match trace with
  | [] => true
  | e :: rest =>
    if is_search e then rested && paced false rest
    else paced (rested || is_pause e) rest
  end.

(** A failure the loop knows as passing: sold out, waiting list closed or
    full, backend busy. *)
Definition transient (ex : Exn) : bool :=
  match ex with
  | SRTError msg =>
    negb (str_in "정상적인 경로로 접근 부탁드립니다" msg)
    && negb (str_in "로그인 후 사용하십시오" msg)
    && any_in ["잔여석없음"; "사용자가 많아 접속이 원활하지 않습니다";
               "예약대기 접수가 마감되었습니다"; "예약대기자한도수초과"] msg
  | KorailError text =>
    any_in ["Sold out"; "잔여석없음"; "예약대기자한도수초과"] text
  | _ => false
  end.

(** None of the selected candidates of [trains] satisfies the seat
    predicate. *)
Definition empty_handed {Train : Type} `{SRTTrain Train, KorailTrain Train}
    (rail_type : string) (seat_type : SeatType) (trains : list Train)
    (selected : list nat) : Prop :=
  Forall (λ i, ∃ train, trains !! i = Some train
               ∧ _is_seat_available train seat_type rail_type = false)
         selected.

(** *** The stored options: [get_options] and [set_options] *)

(** [text.split(",")] on the UTF-8 text: the byte of the comma is never
    part of another character. *)
Fixpoint split_comma (text : string) : list string :=
  match text with
  | EmptyString => [EmptyString]
  | String c rest =>
    if Ascii.eqb c "," then EmptyString :: split_comma rest
    else match split_comma rest with
         | item :: items => String c item :: items
         | [] => [String c EmptyString]
         end
  end.

(** [",".join(items)] *)
Fixpoint join_comma (items : list string) : string :=
  match items with
  | [] => ""
  | item :: rest =>
    match rest with
    | [] => item
    | _ :: _ => item +:+ "," +:+ join_comma rest
    end
  end.

(** srtgo.py:268-270; [stored] is what
    [keyring.get_password("SRT", "options")] answers. *)
Definition get_options (stored : option string) : list string :=
  let options := default "" stored in            (* [... or ""] *)
  match options with
  | EmptyString => []
  | String _ _ => split_comma options
  end.

(** srtgo.py:272-293, by the call of [keyring.set_password] it makes, if
    any: [choices] is what the checkbox prompt answers, [None] when it was
    cancelled. *)
Definition set_options (choices : option (list string))
    : option (string * string * string) :=
  match choices with
  | None => None
  | Some options => Some ("SRT", "options", join_comma options)
  end.

(** *** Looking at and cancelling what was booked: [check_reservation] *)

(** A reservation or a ticket as the rail client returns it: [str(r)],
    the attribute [paid] if the object has it, and the printed forms of
    [r.tickets]. *)
Record Booking := {
  booking_text : string;
  paid : option bool;
  tickets : list string;
}.

(** What [check_reservation] hears from outside, by the turn of its loop:
    the lists the client returns, the entry picked at the prompt ([None]
    when the prompt was cancelled), and the answer to "정말 취소하시겠습니까". *)
Record Desk := {
  desk_login : option Exn;                          (* [login(...)] raising *)
  fetch_reservations : nat → Exn + list Booking;
  fetch_tickets : nat → Exn + list Booking;         (* KTX only *)
  picked : nat → option Z;                          (* [inquirer.list_input] *)
  sure : nat → bool;                                (* [inquirer.confirm] *)
  refund_result : option Exn;                       (* [rail.refund] *)
  cancel_result : option Exn;                       (* [rail.cancel] *)
  desk_send_result : option Exn;           (* [asyncio.run(tgprintf(...))] *)
}.

(** What it does to the outside, in order.  [DeskPick] records the entries
    on offer, each with its [is_ticket], next to the answer. *)
Inductive DeskEvent :=
| DeskLogin
| DeskFetch (reservations : Exn + list Booking)
| DeskFetchTickets (tickets : Exn + list Booking)
| DeskPrint (text : string)
| DeskPick (offered : list (Booking * bool)) (answer : option Z)
| DeskConfirm (answer : bool)
| DeskRefund (booking : Booking) (r : option Exn)
| DeskCancel (booking : Booking) (r : option Exn)
| DeskSend (text : string) (r : option Exn).

Abbreviation DeskRun := (Eff.M (list DeskEvent) Exn).

Definition note (e : DeskEvent) : DeskRun unit :=
  Eff.modify (λ trace, trace ++ [e]).

Definition outcome (r : option Exn) : DeskRun unit :=
  match r with Some ex => Eff.raise ex | None => Eff.ret tt end.

(** A call of the client that raises or returns. *)
Definition replied {A} (r : Exn + A) : DeskRun A :=
  match r with inl ex => Eff.raise ex | inr a => Eff.ret a end.

(** [all_reservations[cancel]] for a Python int: a negative index counts
    from the end, and an index out of range raises. *)
Definition py_index {A} (l : list A) (i : Z) : Exn + A :=
  let n := Z.of_nat (length l) in
  let j := if (i <? 0)%Z then (n + i)%Z else i in
  if (0 <=? j)%Z && (j <? n)%Z then
    match l !! Z.to_nat j with
    | Some a => inr a
    | None => inl (OtherError "list index out of range")
    end
  else inl (OtherError "list index out of range").

(** ["\n".join(items)] *)
Fixpoint join_lines (items : list string) : string :=
  match items with
  | [] => ""
  | item :: rest =>
    match rest with
    | [] => item
    | _ :: _ => item +:+ nl +:+ join_lines rest
    end
  end.

(** srtgo.py:795-801: the lines of the message. *)
Definition listing (rail_type : string)
    (all_reservations : list (Booking * bool)) : list string :=
  match all_reservations with
  | [] => []
  | _ :: _ =>
    "[ 예매 내역 ]" ::
    mjoin ((λ entry : Booking * bool,
              ("🚅" +:+ booking_text entry.1) ::
              (if String.eqb rail_type "SRT" then tickets entry.1 else []))
           <$> all_reservations)
  end.

(** srtgo.py:767-776: the tickets first, then the reservations, each with
    the [is_ticket] it is given. *)
Definition gather (tickets reservations : list Booking)
    : list (Booking * bool) :=
  ((λ t, (t, true)) <$> tickets)
  ++ ((λ r, (r, bool_decide (paid r = Some true))) <$> reservations).

(** [not l] for a list. *)
Definition no_items {A} (l : list A) : bool :=
  match l with [] => true | _ :: _ => false end.

Definition is_pick (e : DeskEvent) : bool :=
  match e with DeskPick _ _ => true | _ => false end.

Definition is_undo (e : DeskEvent) : bool :=
  match e with DeskRefund _ _ | DeskCancel _ _ => true | _ => false end.

Section Desk.
Variable desk : Desk.
Variable rail_type : string.

(** One turn of [while True], srtgo.py:760-816; [turn] counts the turns
    before it. *)
Definition desk_turn (turn : nat) : DeskRun Flow :=
  let* reservations :=
    (let r := fetch_reservations desk turn in
     let* _ := note (DeskFetch r) in
     replied r) in
  let* tickets :=
    (if String.eqb rail_type "SRT" then Eff.ret []
     else
       let r := fetch_tickets desk turn in
       let* _ := note (DeskFetchTickets r) in
       replied r) in
  let all_reservations := gather tickets reservations in
  if no_items reservations && no_items tickets then
    let* _ := note (DeskPrint ("예약 내역이 없습니다" +:+ nl)) in
    Eff.ret Return
  else
    let cancel := picked desk turn in
    let* _ := note (DeskPick all_reservations cancel) in
    match cancel with
    | None => Eff.ret Return
    | Some i =>
      if (i =? -1)%Z then Eff.ret Return
      else if (i =? -2)%Z then
        let out := listing rail_type all_reservations in
        if no_items out then Eff.ret Return
        else
          let* _ := note (DeskSend (join_lines out) (desk_send_result desk)) in
          let* _ := outcome (desk_send_result desk) in
          Eff.ret Return
      else
        let answer := sure desk turn in
        let* _ := note (DeskConfirm answer) in
        if answer then
          match py_index all_reservations i with
          | inl ex => Eff.raise ex
          | inr (booking, is_ticket) =>
            if is_ticket then
              let* _ := note (DeskRefund booking (refund_result desk)) in
              let* _ := outcome (refund_result desk) in
              Eff.ret Return
            else
              let* _ := note (DeskCancel booking (cancel_result desk)) in
              let* _ := outcome (cancel_result desk) in
              Eff.ret Return
          end
        else Eff.ret Continue
    end.

(** [while True], observed for [fuel] turns. *)
Fixpoint desk_loop (fuel turn : nat) : DeskRun Outcome :=
  match fuel with
  | O => Eff.ret StillPolling
  | S fuel' =>
    let* flow := desk_turn turn in
    match flow with
    | Return => Eff.ret Returned
    | Continue => desk_loop fuel' (S turn)
    end
  end.

(** srtgo.py:756-816 *)
Definition check_reservation (fuel : nat) : DeskRun Outcome :=
  let* _ := note DeskLogin in
  let* _ := outcome (desk_login desk) in
  desk_loop fuel 0.
End Desk.

(** *** The menu: [srtgo] *)

(** The values of [RAIL_CHOICES]: a rail type, or -1 for "취소". *)
Inductive RailAnswer := Rail (rail_type : string) | RailBack.

(** What the menu hears, by the turn of its loop: the two prompts ([None]
    when a prompt was cancelled) and how the action it calls ends. *)
Record Front := {
  menu_choice : nat → option Z;
  rail_choice : nat → option RailAnswer;
  action_result : nat → option Exn;
}.

Inductive FrontEvent :=
| FrontMenu (answer : option Z)
| FrontRail (answer : option RailAnswer)
| FrontAction (choice : Z) (rail_type : option string) (r : option Exn).

Abbreviation FrontRun := (Eff.M (list FrontEvent) Exn).

Definition front_note (e : FrontEvent) : FrontRun unit :=
  Eff.modify (λ trace, trace ++ [e]).

(** [choice in {1, 2, 3, 6, 7}] *)
Definition rail_bound (choice : option Z) : bool :=
  match choice with
  | Some n => bool_decide (n ∈ [1; 2; 3; 6; 7]%Z)
  | None => false
  end.

(** [ACTIONS.get(choice)], by the key found. *)
Definition ACTIONS (choice : option Z) : option Z :=
  match choice with
  | Some n =>
    if bool_decide (n ∈ [1; 2; 3; 4; 5; 6; 7; 8]%Z) then Some n else None
  | None => None
  end.

Inductive MenuFlow := MenuBreak | MenuNext.

Section Front.
Variable front : Front.

(** srtgo.py:130-132 *)
Definition run_action (choice : option Z) (rail_type : option string)
    (turn : nat) : FrontRun MenuFlow :=
  match ACTIONS choice with
  | Some action =>
    let r := action_result front turn in
    let* _ := front_note (FrontAction action rail_type r) in
    match r with
    | Some ex => Eff.raise ex
    | None => Eff.ret MenuNext
    end
  | None => Eff.ret MenuNext
  end.

(** One turn of [while True], srtgo.py:114-132. *)
Definition menu_turn (turn : nat) : FrontRun MenuFlow :=
  let choice := menu_choice front turn in
  let* _ := front_note (FrontMenu choice) in
  if bool_decide (choice = Some (-1)%Z) then Eff.ret MenuBreak
  else if rail_bound choice then
    let rail_type := rail_choice front turn in
    let* _ := front_note (FrontRail rail_type) in
    match rail_type with
    | None | Some RailBack => Eff.ret MenuNext                   (* [continue] *)
    | Some (Rail rail_type) => run_action choice (Some rail_type) turn
    end
  else run_action choice None turn.

(** srtgo.py:80-132, observed for [fuel] turns. *)
Fixpoint menu_loop (fuel turn : nat) : FrontRun Outcome :=
  match fuel with
  | O => Eff.ret StillPolling
  | S fuel' =>
    let* flow := menu_turn turn in
    match flow with
    | MenuBreak => Eff.ret Returned
    | MenuNext => menu_loop fuel' (S turn)
    end
  end.

Definition srtgo (fuel : nat) : FrontRun Outcome := menu_loop fuel 0.
End Front.

End Srtgo.

(** ** secure_storage.py *)
Module Storage.

(** Python [bytes]. *)
Abbreviation bytes := (list ascii).

(** [text.encode(ENCODING)]: a [string] already is its UTF-8 bytes. *)
Definition str_encode (text : string) : bytes :=
  String.list_ascii_of_string text.

(** The salt [b'srtgo-salt'] and the iteration count [100000] that
    [_derive_key] passes. *)
Definition KDF_SALT : bytes := str_encode "srtgo-salt".

Definition KDF_ITERATIONS : N := 100000.

(** Bitwise exclusive or of two bytes. *)
Definition byte_xor (a b : ascii) : ascii :=
  match a, b with
  | Ascii a0 a1 a2 a3 a4 a5 a6 a7, Ascii b0 b1 b2 b3 b4 b5 b6 b7 =>
    Ascii (xorb a0 b0) (xorb a1 b1) (xorb a2 b2) (xorb a3 b3)
          (xorb a4 b4) (xorb a5 b5) (xorb a6 b6) (xorb a7 b7)
  end.

(** The in-memory snapshot [{namespace: {key: value}}]. *)
Abbreviation Config := (gmap string (gmap string string)).

(** [DEFAULT_CONFIG]; [DEFAULT_CONFIG.copy()] is a fresh empty dictionary. *)
Definition DEFAULT_CONFIG : Config := ∅.

(** The libraries the module calls, by what it uses of them.

    - [hashlib]: [pbkdf2_hmac(name, password, salt, iterations)] and
      [sha256(key).hexdigest()].  A derived key is 32 bytes long, so it is
      never falsy: [not self.encryption_key] holds for [None] only.
    - [Crypto.Cipher.AES] in [MODE_GCM]: [encrypt] and [decrypt], called
      without [digest] or [verify], are the counter-mode exclusive or with a
      keystream that the key and the nonce fix; [gcm_keystream key nonce i]
      is its i-th byte.
    - the operating system's random source, as a tape of bytes. *)
Class Crypto : Type := {
  Key : Type;
  pbkdf2_hmac : string → bytes → bytes → N → Key;
  sha256_hexdigest : Key → string;
  gcm_keystream : Key → bytes → nat → ascii;
  urandom : nat → ascii;
}.

(** [json.dumps(config, ensure_ascii=False).encode(ENCODING)] and
    [json.loads(data.decode(ENCODING))], the latter with the text of the
    exception it raises.  [Config] has the documents that [save] writes.  A
    text that is JSON of another shape (a list, a number, a namespace that
    is no dictionary) counts as a failure here, whereas the code goes on
    with what [json.loads] returned; what is stated of a run that reads the
    file is therefore stated for files of the store ([own_file] below), or
    for the inputs named in the statement. *)
Class Json : Type := {
  json_dumps : Config → bytes;
  json_loads : bytes → string + Config;
}.

(** What [json] promises for the snapshots the store holds. *)
Class JsonLaws {json : Json} : Prop := {
  json_loads_dumps (c : Config) : json_loads (json_dumps c) = inr c;
}.

(** The exception that escapes the module on the runs this model covers:
    [getpass] at end of input. *)
Inductive IOExn := EOFError.

(** The world outside the object: the two files under [CONFIG_DIR] (which
    [ensure_config_dir] keeps in existence), the terminal, and the position
    on the random tape. *)
Record World := {
  config_file : option bytes;     (* CONFIG_FILE, [None] when absent *)
  key_file : option string;       (* KEY_FILE *)
  stdin : list string;            (* what [getpass] will read *)
  stdout : list string;           (* what [print] wrote *)
  tape : nat;
}.

Definition write_config_file (data : bytes) (w : World) : World :=
  {| config_file := Some data; key_file := key_file w; stdin := stdin w;
     stdout := stdout w; tape := tape w |}.

Definition write_key_file (text : string) (w : World) : World :=
  {| config_file := config_file w; key_file := Some text; stdin := stdin w;
     stdout := stdout w; tape := tape w |}.

Definition with_stdin (pending : list string) (w : World) : World :=
  {| config_file := config_file w; key_file := key_file w; stdin := pending;
     stdout := stdout w; tape := tape w |}.

Definition with_stdout (printed : list string) (w : World) : World :=
  {| config_file := config_file w; key_file := key_file w; stdin := stdin w;
     stdout := printed; tape := tape w |}.

Definition with_tape (position : nat) (w : World) : World :=
  {| config_file := config_file w; key_file := key_file w; stdin := stdin w;
     stdout := stdout w; tape := position |}.

Abbreviation IO := (Eff.M World IOExn).

Definition print (text : string) : IO unit :=
  Eff.modify (λ w, with_stdout (stdout w ++ [text]) w).

(** [getpass.getpass(prompt)] *)
Definition getpass (prompt : string) : IO string :=
  λ w, match stdin w with
       | [] => (inl EOFError, w)
       | answer :: pending => (inr answer, with_stdin pending w)
       end.

(** Python's truth value of a [str]. *)
Definition truthy (text : string) : bool :=
  match text with EmptyString => false | String _ _ => true end.

(** The white space of [str.strip()]: the characters U+0009 to U+000D,
    U+001C to U+0020, U+0085, U+00A0, U+1680, U+2000 to U+200A, U+2028,
    U+2029, U+202F, U+205F and U+3000, by the bytes of their UTF-8
    encoding.  A character of one byte: *)
Definition is_space (c : ascii) : bool :=
  let n := nat_of_ascii c in
  ((9 <=? n)%nat && (n <=? 13)%nat) || ((28 <=? n)%nat && (n <=? 32)%nat).

(** of two bytes, U+0085 and U+00A0: *)
Definition is_space2 (c1 c2 : ascii) : bool :=
  Ascii.eqb c1 "194" && (Ascii.eqb c2 "133" || Ascii.eqb c2 "160").

(** of three bytes: *)
Definition is_space3 (c1 c2 c3 : ascii) : bool :=
  let n := nat_of_ascii c3 in
  (Ascii.eqb c1 "225" && Ascii.eqb c2 "154" && Ascii.eqb c3 "128")
  || (Ascii.eqb c1 "226" && Ascii.eqb c2 "128"
      && (((128 <=? n)%nat && (n <=? 138)%nat)
          || Ascii.eqb c3 "168" || Ascii.eqb c3 "169" || Ascii.eqb c3 "175"))
  || (Ascii.eqb c1 "226" && Ascii.eqb c2 "129" && Ascii.eqb c3 "159")
  || (Ascii.eqb c1 "227" && Ascii.eqb c2 "128" && Ascii.eqb c3 "128").

(** Drops the white space at the head of [l]; [backwards] when [l] is a
    text from its end, so that the bytes of a character come last first. *)
Fixpoint lstrip (backwards : bool) (l : list ascii) : list ascii :=
  match l with
  | c1 :: l1 =>
    if is_space c1 then lstrip backwards l1
    else
      match l1 with
      | c2 :: l2 =>
        if (if backwards then is_space2 c2 c1 else is_space2 c1 c2)
        then lstrip backwards l2
        else
          match l2 with
          | c3 :: l3 =>
            if (if backwards then is_space3 c3 c2 c1 else is_space3 c1 c2 c3)
            then lstrip backwards l3
            else l
          | [] => l
          end
      | [] => l
      end
  | [] => []
  end.

(** [str.strip()] of a text read as UTF-8. *)
Definition strip (text : string) : string :=
  String.string_of_list_ascii
    (rev (lstrip true (rev (lstrip false (String.list_ascii_of_string text))))).

Section SecureStorage.
Context {crypto : Crypto} {json : Json}.

(** [class SecureStorage]: the instance attributes.  [_last_password] is
    [None] while the attribute does not exist or holds nothing. *)
Record SecureStorage := {
  master_password : option string;
  encryption_key : option Key;
  config : Config;
  _last_password : option string;
}.

Definition set_encryption_key (key : option Key) (self : SecureStorage) :=
  {| master_password := master_password self; encryption_key := key;
     config := config self; _last_password := _last_password self |}.

Definition set_config (c : Config) (self : SecureStorage) :=
  {| master_password := master_password self;
     encryption_key := encryption_key self;
     config := c; _last_password := _last_password self |}.

Definition set_last_password (p : option string) (self : SecureStorage) :=
  {| master_password := master_password self;
     encryption_key := encryption_key self;
     config := config self; _last_password := p |}.

(** secure_storage.py:44-46 *)
Definition _is_initialized : IO bool :=
  Eff.gets (λ w, match config_file w, key_file w with
                 | Some _, Some _ => true
                 | _, _ => false
                 end).

(** secure_storage.py:48-57 *)
Definition _derive_key (password : string) : option Key :=
  if negb (truthy password) then None
  else Some (pbkdf2_hmac "sha256" (str_encode password) KDF_SALT
               KDF_ITERATIONS).

(** secure_storage.py:59-61 *)
Definition _setup_encryption_key (self : SecureStorage) (password : string)
    : SecureStorage :=
  set_encryption_key (_derive_key password) self.

(** secure_storage.py:63-71 *)
Definition _save_key_hash (self : SecureStorage) : IO bool :=
  match encryption_key self with
  | None => Eff.ret false
  | Some key =>
    let key_hash := sha256_hexdigest key in
    let* _ := Eff.modify (write_key_file key_hash) in
    Eff.ret true
  end.

(** secure_storage.py:73-85; a missing key file raises inside [try], and
    so does one that is not UTF-8, which no [strip] turns into a digest. *)
Definition _verify_key (self : SecureStorage) : IO bool :=
  match encryption_key self with
  | None => Eff.ret false
  | Some key =>
    let* stored := Eff.gets key_file in
    match stored with
    | None => Eff.ret false
    | Some text =>
      let stored_hash := strip text in
      let current_hash := sha256_hexdigest key in
      Eff.ret (String.eqb stored_hash current_hash)
    end
  end.

(** secure_storage.py:99-114: [for _ in range(3)] and what follows it. *)
Fixpoint ask_password (attempts : nat) (self : SecureStorage)
    : IO (bool * SecureStorage) :=
  match attempts with
  | O =>
    let* _ := print "비밀번호 시도 횟수 초과. 기본 설정으로 시작합니다." in
    Eff.ret (false, set_config DEFAULT_CONFIG self)
  | S attempts' =>
    let* password := getpass "SRTgo 마스터 비밀번호를 입력하세요: " in
    if negb (truthy password) then ask_password attempts' self
    else
      let self := _setup_encryption_key self password in
      let* ok := _verify_key self in
      if ok then Eff.ret (true, set_last_password (Some password) self)
      else
        let* _ := print "비밀번호가 맞지 않습니다. 다시 시도하세요." in
        ask_password attempts' self
  end.

(** secure_storage.py:87-114 *)
Definition _try_load_key (self : SecureStorage) : IO (bool * SecureStorage) :=
  let* key_file_exists := Eff.gets (λ w, bool_decide (is_Some (key_file w))) in
  if negb key_file_exists then Eff.ret (false, self)
  else
    let* last :=
      (match _last_password self with
       | Some (String _ _ as last_password) =>
         let self := _setup_encryption_key self last_password in
         let* ok := _verify_key self in
         Eff.ret (ok, self)
       | _ => Eff.ret (false, self)
       end) in
    if last.1 then Eff.ret (true, last.2) else ask_password 3 last.2.

(** secure_storage.py:122-124: [while not password], on what is left to
    read. *)
Fixpoint while_not (password : string) (pending : list string) (w : World)
    : (IOExn + string) * World :=
  if truthy password then (inr password, w)
  else
    let w := with_stdout (stdout w ++ ["비밀번호는 비워둘 수 없습니다."]) w in
    match pending with
    | [] => (inl EOFError, w)
    | answer :: pending' => while_not answer pending' (with_stdin pending' w)
    end.

Definition while_not_password (password : string) : IO string :=
  λ w, while_not password (stdin w) w.

(** secure_storage.py:116-137 *)
Definition _initial_setup (self : SecureStorage)
    (provided_password : option string) : IO SecureStorage :=
  let* password :=
    (match provided_password with
     | Some (String _ _ as provided) => Eff.ret provided
     | _ => getpass "SRTgo 마스터 비밀번호 설정 (보안을 위해 입력 문자는 표시되지 않습니다): "
     end) in
  let* password := while_not_password password in
  let* confirm := getpass "비밀번호 확인: " in
  if negb (String.eqb password confirm) then
    let* _ := print "비밀번호가 일치하지 않습니다. 기본 설정으로 시작합니다." in
    Eff.ret (set_config DEFAULT_CONFIG self)
  else
    let self := _setup_encryption_key self password in
    let* _ := _save_key_hash self in
    let self := set_last_password (Some password) self in
    let* _ := print "비밀번호가 설정되었습니다. 이 비밀번호는 설정을 암호화하는 데 사용됩니다." in
    Eff.ret self.

(** secure_storage.py:20-37 *)
Definition __init__ (master_password : option string) : IO SecureStorage :=
  let self := {| master_password := master_password;
                 encryption_key := None;
                 config := DEFAULT_CONFIG;
                 _last_password := None |} in
  let* initialized := _is_initialized in
  if initialized then
    match master_password with
    | Some (String _ _ as password) =>
      Eff.ret (_setup_encryption_key self password)
    | _ =>
      let* loaded := _try_load_key self in
      Eff.ret loaded.2
    end
  else _initial_setup self master_password.

(** The [n] bytes of the random tape from [position] on. *)
Definition random_bytes (position n : nat) : bytes :=
  urandom <$> seq position n.

(** [get_random_bytes(n)] *)
Definition get_random_bytes (n : nat) : IO bytes :=
  λ w, (inr (random_bytes (tape w) n), with_tape (tape w + n) w).

(** [cipher.encrypt(data)] and [cipher.decrypt(data)] of
    [AES.new(key, AES.MODE_GCM, nonce=nonce)]. *)
Definition gcm_crypt (key : Key) (nonce : bytes) (data : bytes) : bytes :=
  imap (λ i b, byte_xor b (gcm_keystream key nonce i)) data.

(** The body of [try] in [load], secure_storage.py:145-159; [AES.new]
    refuses an empty nonce. *)
Definition decrypt_config (key : Key) (encrypted_data : bytes)
    : string + Config :=
  let nonce := take 16 encrypted_data in
  let ciphertext := drop 16 encrypted_data in
  match nonce with
  | [] => inl "Nonce cannot be empty"
  | _ :: _ =>
    let decrypted_data := gcm_crypt key nonce ciphertext in
    json_loads decrypted_data
  end.

(** secure_storage.py:139-162 *)
Definition load (self : SecureStorage) : IO (Config * SecureStorage) :=
  let* file := Eff.gets config_file in
  match encryption_key self, file with
  | Some key, Some encrypted_data =>
    match decrypt_config key encrypted_data with
    | inr loaded => Eff.ret (loaded, set_config loaded self)
    | inl e =>
      let* _ := print ("설정 로드 중 오류 발생: " +:+ e) in
      Eff.ret (DEFAULT_CONFIG, self)
    end
  | _, _ => Eff.ret (DEFAULT_CONFIG, self)
  end.

(** secure_storage.py:164-189 *)
Definition save (self : SecureStorage) : IO bool :=
  match encryption_key self with
  | None =>
    let* _ := print "암호화 키가 설정되지 않았습니다. 설정을 저장할 수 없습니다." in
    Eff.ret false
  | Some key =>
    let data := json_dumps (config self) in
    let* nonce := get_random_bytes 16 in
    let ciphertext := gcm_crypt key nonce data in
    let encrypted_data := nonce ++ ciphertext in
    let* _ := Eff.modify (write_config_file encrypted_data) in
    Eff.ret true
  end.

(** [if not self.config: self.load()] *)
Definition load_if_empty (self : SecureStorage) : IO SecureStorage :=
  if bool_decide (config self = ∅) then
    let* loaded := load self in
    Eff.ret loaded.2
  else Eff.ret self.

(** secure_storage.py:191-197 *)
Definition get (self : SecureStorage) (service key : string)
    (default : option string) : IO (option string * SecureStorage) :=
  let* self := load_if_empty self in
  let service_config := from_option id ∅ (config self !! service) in
  Eff.ret (from_option Some default (service_config !! key), self).

(** secure_storage.py:199-208 *)
Definition set (self : SecureStorage) (service key value : string)
    : IO (bool * SecureStorage) :=
  let* self := load_if_empty self in
  let service_config := from_option id ∅ (config self !! service) in
  let self :=
    set_config (<[service := <[key := value]> service_config]> (config self))
      self in
  let* saved := save self in
  Eff.ret (saved, self).

(** secure_storage.py:210-218 *)
Definition delete (self : SecureStorage) (service key : string)
    : IO (bool * SecureStorage) :=
  let* self := load_if_empty self in
  match config self !! service with
  | Some service_config =>
    if bool_decide (is_Some (service_config !! key)) then
      let self :=
        set_config (<[service := base.delete key service_config]> (config self))
          self in
      let* saved := save self in
      Eff.ret (saved, self)
    else Eff.ret (false, self)
  | None => Eff.ret (false, self)
  end.
(** *** The module-level interface *)

(** secure_storage.py:221-229.  The global [_storage] is passed in and
    handed back; the instance it names is the one the methods change. *)
Definition get_storage (_storage : option SecureStorage)
    : IO (SecureStorage * option SecureStorage) :=
  match _storage with
  | None =>
    let* self := __init__ None in
    let* loaded := load self in
    Eff.ret (loaded.2, Some loaded.2)
  | Some self => Eff.ret (self, Some self)
  end.

(** secure_storage.py:232-234 *)
Definition get_password (_storage : option SecureStorage)
    (service key : string) : IO (option string * option SecureStorage) :=
  let* storage := get_storage _storage in
  let* r := get storage.1 service key None in
  Eff.ret (r.1, Some r.2).

(** secure_storage.py:236-238 *)
Definition set_password (_storage : option SecureStorage)
    (service key value : string) : IO (bool * option SecureStorage) :=
  let* storage := get_storage _storage in
  let* r := set storage.1 service key value in
  Eff.ret (r.1, Some r.2).

(** secure_storage.py:240-242 *)
Definition delete_password (_storage : option SecureStorage)
    (service key : string) : IO (bool * option SecureStorage) :=
  let* storage := get_storage _storage in
  let* r := delete storage.1 service key in
  Eff.ret (r.1, Some r.2).

End SecureStorage.

(** *** The specification's vocabulary for the store *)

Section StoreVocabulary.
Context {crypto : Crypto} {json : Json}.

(** The value the snapshot [c] holds for a pair, if any. *)
Definition stored (c : Config) (service key : string) : option string :=
  c !! service ≫= (.!! key).

(** One byte of [data] changed: the bits of [mask] flipped at offset [i]. *)
Definition flip_byte (i : nat) (mask : ascii) (data : bytes) : bytes :=
  alter (λ b, byte_xor b mask) i data.

(** The persisted file after such a change, if there is a file. *)
Definition tamper (i : nat) (mask : ascii) (w : World) : World :=
  {| config_file := flip_byte i mask <$> config_file w;
     key_file := key_file w; stdin := stdin w; stdout := stdout w;
     tape := tape w |}.

(** The mutations and reads a client issues. *)
Inductive Op :=
| OpSet (service key value : string)
| OpDelete (service key : string)
| OpGet (service key : string).

Definition run_op (op : Op) (self : SecureStorage) : IO SecureStorage :=
  match op with
  | OpSet service key value =>
    let* r := set self service key value in Eff.ret r.2
  | OpDelete service key =>
    let* r := delete self service key in Eff.ret r.2
  | OpGet service key =>
    let* r := get self service key None in Eff.ret r.2
  end.

Fixpoint run_ops (ops : list Op) (self : SecureStorage) : IO SecureStorage :=
  match ops with
  | [] => Eff.ret self
  | op :: rest => let* self := run_op op self in run_ops rest self
  end.

(** [op] writes or deletes the pair. *)
Definition targets (service key : string) (op : Op) : Prop :=
  match op with
  | OpSet s k _ | OpDelete s k => s = service ∧ k = key
  | OpGet _ _ => False
  end.

(** The file holds the snapshot of [self], encrypted under [key] behind a
    16-byte nonce. *)
Definition sealed (key : Key) (self : SecureStorage) (w : World) : Prop :=
  encryption_key self = Some key
  ∧ ∃ nonce, length nonce = 16
      ∧ config_file w
        = Some (nonce ++ gcm_crypt key nonce (json_dumps (config self))).

(** The configuration file is a file of the store: if the instance has a
    key and the file exists, it is a snapshot that [save] sealed under that
    key. *)
Definition own_file (self : SecureStorage) (w : World) : Prop :=
  ∀ key data,
    encryption_key self = Some key →
    config_file w = Some data →
    ∃ (c : Config) (nonce : bytes),
      length nonce = 16 ∧ data = nonce ++ gcm_crypt key nonce (json_dumps c).

(** The snapshot that [get], [set] and [delete] work on: the one in memory,
    or, when that one is empty, what [load] makes of the file. *)
Definition snapshot (self : SecureStorage) (w : World) : Config :=
  match load_if_empty self w with
  | (inr self', _) => config self'
  | (inl _, _) => config self
  end.
End StoreVocabulary.

End Storage.

(** ** Concrete runs

    Inputs on which the models above are run, as a test would set them up. *)
Module Scenario.
Import Srtgo.

Definition one_adult : Info := {|
  departure := "수서"; arrival := "부산"; date := "20260101"; time := 120000;
  adult := 1; child := None; senior := None;
  disability1to3 := None; disability4to6 := None;
|}.

Definition nobody : Info := {|
  departure := "수서"; arrival := "부산"; date := "20260101"; time := 120000;
  adult := 0; child := Some 0%Z; senior := None;
  disability1to3 := None; disability4to6 := None;
|}.

Definition general_seat : Candidate :=
  {| general := true; special := false; waitingList := false |}.

Definition ticket : Reservation :=
  {| reservation_text := "ticket"; is_waiting := Some false |}.

(** The class of an exception and its arguments as CPython prints them,
    for the classes that the imports of srtgo.py name and a message free of
    quotes and escapes. *)
Definition python_type (ex : Exn) : string :=
  "<class '" +:+
  match ex with
  | SRTError _ => "srtgo.srt.SRTError"
  | KorailError _ => "srtgo.ktx.KorailError"
  | JSONDecodeError _ => "json.decoder.JSONDecodeError"
  | ConnectionError _ => "requests.exceptions.ConnectionError"
  | OtherError _ => "Exception"
  end +:+ "'>".

Definition python_args (ex : Exn) : string :=
  "('" +:+ exn_str ex +:+ "',)".

(** A train with a free general seat at every poll, a backend that accepts
    every reservation and payment, a channel that delivers, and a user who
    answers yes. *)
Definition smooth : Env Candidate := {|
  today := "20251231"; this_time := 90000; options := []; card_ok := true;
  prompt_info := Some one_adult;
  prompt_trains := Some [0];
  prompt_options := Some {| type := GENERAL_FIRST; pay := false |};
  confirm_answer := λ _, true;
  login_result := λ _, inr true;
  search_result := λ _, inr [general_seat];
  reserve_result := λ _, inr ticket;
  pay_result := λ _, inr true;
  send_result := λ _, None;
  type_repr := python_type;
  args_repr := python_args;
  msg_attr := exn_str;
|}.

Definition with_info (info : option Info) (env : Env Candidate) := {|
  today := today env; this_time := this_time env; options := options env;
  card_ok := card_ok env; prompt_info := info;
  prompt_trains := prompt_trains env; prompt_options := prompt_options env;
  confirm_answer := confirm_answer env; login_result := login_result env;
  search_result := search_result env; reserve_result := reserve_result env;
  pay_result := pay_result env; send_result := send_result env;
  type_repr := type_repr env; args_repr := args_repr env;
  msg_attr := msg_attr env;
|}.

Definition with_options (ans : OptionsAns) (env : Env Candidate) := {|
  today := today env; this_time := this_time env; options := options env;
  card_ok := card_ok env; prompt_info := prompt_info env;
  prompt_trains := prompt_trains env; prompt_options := Some ans;
  confirm_answer := confirm_answer env; login_result := login_result env;
  search_result := search_result env; reserve_result := reserve_result env;
  pay_result := pay_result env; send_result := send_result env;
  type_repr := type_repr env; args_repr := args_repr env;
  msg_attr := msg_attr env;
|}.


Definition with_search (results : nat → Exn + list Candidate)
    (env : Env Candidate) := {|
  today := today env; this_time := this_time env; options := options env;
  card_ok := card_ok env; prompt_info := prompt_info env;
  prompt_trains := prompt_trains env; prompt_options := prompt_options env;
  confirm_answer := confirm_answer env; login_result := login_result env;
  search_result := results; reserve_result := reserve_result env;
  pay_result := pay_result env; send_result := send_result env;
  type_repr := type_repr env; args_repr := args_repr env;
  msg_attr := msg_attr env;
|}.

Definition with_pay (results : nat → Exn + bool) (env : Env Candidate) := {|
  today := today env; this_time := this_time env; options := options env;
  card_ok := card_ok env; prompt_info := prompt_info env;
  prompt_trains := prompt_trains env; prompt_options := prompt_options env;
  confirm_answer := confirm_answer env; login_result := login_result env;
  search_result := search_result env; reserve_result := reserve_result env;
  pay_result := results; send_result := send_result env;
  type_repr := type_repr env; args_repr := args_repr env;
  msg_attr := msg_attr env;
|}.

Definition with_send (results : nat → option Exn) (env : Env Candidate) := {|
  today := today env; this_time := this_time env; options := options env;
  card_ok := card_ok env; prompt_info := prompt_info env;
  prompt_trains := prompt_trains env; prompt_options := prompt_options env;
  confirm_answer := confirm_answer env; login_result := login_result env;
  search_result := search_result env; reserve_result := reserve_result env;
  pay_result := pay_result env; send_result := results;
  type_repr := type_repr env; args_repr := args_repr env;
  msg_attr := msg_attr env;
|}.

(** Only the first call fails, with [ex]. *)
Definition first_fails {A} (ex : Exn) (ok : A) (n : nat) : Exn + A :=
  match n with O => inl ex | S _ => inr ok end.

(** The card is declined once, by an [SRTError] of the rail client. *)
Definition card_declined : Env Candidate :=
  with_pay (first_fails (SRTError "결제에 실패하였습니다") true)
    (with_options {| type := GENERAL_FIRST; pay := true |} smooth).

(** The notification channel fails on its first send only. *)
Definition channel_hiccup : Env Candidate :=
  with_send (λ n, match n with O => Some (OtherError "NetworkError") | S _ => None end)
    smooth.

(** The notification channel is down. *)
Definition channel_down : Env Candidate :=
  with_send (λ _, Some (OtherError "NetworkError")) smooth.


(** A train without a seat and without waiting-list capacity. *)
Definition sold_out : Candidate :=
  {| general := false; special := false; waitingList := false |}.

(** The backend answers the first two searches with that train, and the
    later ones with a train that has a general seat. *)
Definition seat_at_third_poll : Env Candidate :=
  with_search (λ n, if (n <? 2)%nat then inr [sold_out] else inr [general_seat])
    smooth.

(** The backend is sold out at every search. *)
Definition always_sold_out : Env Candidate :=
  with_search (λ _, inl (SRTError "잔여석없음")) smooth.

(** What [reserve] searches for after [one_adult] was entered on SRT. *)
Definition one_adult_search : SearchParams := {|
  dep := "수서"; arr := "부산"; search_date := "20260101";
  search_time := 120000; search_passengers := [(Adult, 1%Z)];
  available_only := Some false; include_no_seats := None; ktx_only := false;
|}.

Definition general_first : OptionsAns :=
  {| type := GENERAL_FIRST; pay := false |}.

(** A KTX account with a ticket, an unpaid and a paid reservation; the
    first prompt picks the unpaid one and the confirmation is declined, the
    second picks the paid one and is confirmed. *)
Definition ticket_to_busan : Booking :=
  {| booking_text := "KTX 101 서울~부산"; paid := None; tickets := [] |}.
Definition unpaid_to_daegu : Booking :=
  {| booking_text := "KTX 103 서울~동대구"; paid := Some false; tickets := [] |}.
Definition paid_to_daejeon : Booking :=
  {| booking_text := "KTX 105 서울~대전"; paid := Some true; tickets := [] |}.

Definition second_thoughts : Desk :=
  {| desk_login := None;
     fetch_reservations := λ _, inr [unpaid_to_daegu; paid_to_daejeon];
     fetch_tickets := λ _, inr [ticket_to_busan];
     picked := λ turn, match turn with O => Some 1%Z | _ => Some 2%Z end;
     sure := λ turn, match turn with O => false | _ => true end;
     refund_result := None;
     cancel_result := None;
     desk_send_result := None |}.

(** Stand-ins for the libraries, to run the store on concrete inputs.  They
    have the types and, for [json], the round trip the store relies on;
    nothing here is meant to be secure. *)
Import Storage.

Definition checksum (data : bytes) : N :=
  foldr (λ b acc, (N_of_ascii b + 31 * acc) `mod` 65521)%N 7%N data.

Definition toy_crypto : Crypto := {|
  Key := N;
  pbkdf2_hmac _ password salt iterations :=
    ((checksum (password ++ salt) + iterations) `mod` 65521)%N;
  sha256_hexdigest key := pretty ((48271 * key + 11) `mod` 65521)%N;
  gcm_keystream key nonce i :=
    ascii_of_N ((key + checksum nonce + N.of_nat i) `mod` 256)%N;
  urandom n := ascii_of_N ((7 * N.of_nat n + 1) `mod` 256)%N;
|}.

(** A snapshot written as the binary digits of its code (stdpp's
    [encode]), least significant first. *)
Fixpoint digits (p : positive) : bytes :=
  match p with
  | xH => []
  | xO q => "0"%char :: digits q
  | xI q => "1"%char :: digits q
  end.

Fixpoint undigits (data : bytes) : option positive :=
  match data with
  | [] => Some xH
  | c :: rest =>
    q ← undigits rest;
    if Ascii.eqb c "0" then Some (xO q)
    else if Ascii.eqb c "1" then Some (xI q)
    else None
  end.

Definition toy_json : Json := {|
  json_dumps c := digits (encode c);
  json_loads data :=
    match undigits data ≫= decode with
    | Some c => inr c
    | None => inl "Expecting value"
    end;
|}.

#[local] Existing Instance toy_crypto.
#[local] Existing Instance toy_json.

(** A first start: no file yet, and the confirmation typed as the secret. *)
Definition no_files : World := {|
  config_file := None; key_file := None;
  stdin := ["abc123"]; stdout := []; tape := 0;
|}.

(** The store that the first start with ["abc123"] leaves, and its world. *)
Definition opened : SecureStorage := {|
  master_password := Some "abc123";
  encryption_key := _derive_key "abc123";
  config := DEFAULT_CONFIG;
  _last_password := Some "abc123";
|}.

Definition opened_world : World := {|
  config_file := None;
  key_file := Some (sha256_hexdigest (pbkdf2_hmac "sha256"
                (str_encode "abc123") KDF_SALT KDF_ITERATIONS));
  stdin := []; stdout := []; tape := 0;
|}.

(** The world after [set("rail", "id", "user1")] on it. *)
Definition written_world : World :=
  (set opened "rail" "id" "user1" opened_world).2.

(** A new instance on that world: the key derived from [secret], the
    snapshot not read yet. *)
Definition reopened (secret : string) : SecureStorage := {|
  master_password := Some secret;
  encryption_key := _derive_key secret;
  config := DEFAULT_CONFIG;
  _last_password := None;
|}.

(** Operations on pairs other than [("rail", "id")]. *)
Definition other_pairs : list Op :=
  [OpSet "card" "number" "1234"; OpDelete "rail" "pass"; OpGet "rail" "id";
   OpDelete "card" "number"].

(** An initialized store whose key file holds the fingerprint of
    ["abc123"], and three answers that are not that secret. *)
Definition three_wrong_answers : World := {|
  config_file := Some [];
  key_file := key_file opened_world;
  stdin := ["letmein"; "password"; "abc124"];
  stdout := []; tape := 0;
|}.

(** A first start where two empty answers come before the secret. *)
Definition hesitant_start : World := {|
  config_file := None; key_file := None;
  stdin := [""; ""; "abc123"; "abc123"]; stdout := []; tape := 0;
|}.

(** An instance that never got a key. *)
Definition keyless : SecureStorage := {|
  master_password := None; encryption_key := None;
  config := DEFAULT_CONFIG; _last_password := None;
|}.

End Scenario.

(** * Properties *)

Module SrtgoSpec.
Import Srtgo.

Example seat_general_first_only_special :
  _is_seat_available {| general := false; special := true; waitingList := false |}
    GENERAL_FIRST "SRT" = true.
Proof. reflexivity. Qed.

Example seat_general_only_waiting :
  _is_seat_available {| general := false; special := false; waitingList := true |}
    GENERAL_ONLY "KTX" = true.
Proof. reflexivity. Qed.

(** C1: for every candidate, every preference and either rail type, the seat
    predicate of srtgo.py agrees with the decision table of section 4.2:
    without a seat in any class it answers whether waiting-list capacity
    exists; otherwise the FIRST preferences accept either class, and
    the ONLY preferences answer for their own class. *)
Theorem is_seat_available_matches_table
    {Train : Type} `{SeatLaws Train}
    (train : Train) (seat_type : SeatType) (rail_type : string) :
  _is_seat_available train seat_type rail_type
  = decision_table (offer rail_type train) seat_type.
Proof.
  unfold _is_seat_available, offer, decision_table.
  destruct (String.eqb rail_type "SRT"); simpl.
  - rewrite seat_available_any.
    destruct (general_seat_available train), (special_seat_available train),
      seat_type; reflexivity.
  - rewrite has_seat_any.
    destruct (has_general_seat train), (has_special_seat train),
      seat_type; reflexivity.
Qed.

#[local] Instance Candidate_SeatLaws : SeatLaws Candidate.
Proof. split; reflexivity. Qed.

Lemma is_seat_available_matches_table_witness :
  _is_seat_available {| general := false; special := false; waitingList := true |}
    SPECIAL_ONLY "SRT"
  = decision_table
      (offer "SRT" {| general := false; special := false; waitingList := true |})
      SPECIAL_ONLY.
Proof.
  apply (is_seat_available_matches_table (Train := Candidate)).
Defined.

(** ** The passenger gate *)

Lemma add_passengers_total cls count acc :
  (0 ≤ count)%Z → (add_passengers cls count acc).2 = (acc.2 + count)%Z.
Proof.
  intros Hc. unfold add_passengers.
  destruct (Z.ltb_spec 0 count); simpl; lia.
Qed.

Lemma add_optional_total cls count acc :
  (0 ≤ default 0 count)%Z →
  (add_optional cls count acc).2 = (acc.2 + default 0 count)%Z.
Proof.
  destruct count as [c|]; simpl; intros Hc.
  - by apply add_passengers_total.
  - lia.
Qed.

Ltac split_counts :=
  repeat match goal with
         | H : Forall _ (_ :: _) |- _ => apply Forall_cons in H as [? H]
         end.

(** [total_count] is the sum of what was entered. *)
Lemma total_count_entered info :
  counts_entered info → (build_passengers info).2 = entered_total info.
Proof.
  intros [Ha Hrest]. unfold build_passengers, entered_total. split_counts.
  rewrite !add_optional_total, add_passengers_total by assumption.
  simpl. lia.
Qed.

Lemma entered_total_nonneg info : counts_entered info → (0 ≤ entered_total info)%Z.
Proof. intros [Ha Hrest]. unfold entered_total. split_counts. lia. Qed.

(** C9: whatever passenger composition is entered, a total of 0 or of 10 and
    more ends [reserve] before any search or reservation call and before the
    polling loop; the loop is entered only with a total between 1 and 9. *)
Theorem passenger_gate {Train : Type} `{SRTTrain Train, KorailTrain Train}
    (env : Env Train) (rail_type : string) (debug : bool) (fuel : nat)
    (info : Info) :
  prompt_info env = Some info →
  counts_entered info →
  let total := entered_total info in
  let '(r, trace) := reserve env rail_type debug fuel [] in
  ((total = 0 ∨ 10 ≤ total)%Z →
     r ≠ inr StillPolling ∧ calls is_search trace = 0 ∧
     calls is_reserve trace = 0 ∧ calls is_progress trace = 0)
  ∧ (calls is_progress trace ≠ 0 → (1 ≤ total ≤ 9)%Z).
Proof.
  intros Hinfo Hcounts total.
  pose proof (total_count_entered info Hcounts) as Htotal.
  pose proof (entered_total_nonneg info Hcounts) as Hnonneg.
  fold total in Htotal, Hnonneg.
  unfold reserve, login, Eff.bind, Eff.gets, result. cbn.
  destruct (login_result env 0) as [ex|logged_in]; cbn.
  { split; [intros _; repeat split; congruence | done]. }
  rewrite Hinfo.
  destruct (String.eqb (departure info) (arrival info)); cbn.
  { split; [intros _; repeat split; congruence | done]. }
  destruct (build_passengers info) as [passengers total_count].
  simpl in Htotal. subst total_count.
  destruct (Z.eqb_spec total 0) as [Hz|Hz]; cbn.
  { split; [intros _; repeat split; congruence | done]. }
  destruct (Z.leb_spec 10 total) as [Hten|Hten]; cbn.
  { split; [intros _; repeat split; congruence | done]. }
  match goal with |- let '(_, _) := ?m in _ => destruct m as [r trace] end.
  split; [intros [?|?]; lia | intros _; lia].
Qed.

Lemma nobody_counts_entered : counts_entered Scenario.nobody.
Proof. split; [done | repeat constructor; done]. Qed.

Lemma passenger_gate_witness :
  prompt_info (Scenario.with_info (Some Scenario.nobody) Scenario.smooth)
  = Some Scenario.nobody
  ∧ counts_entered Scenario.nobody
  ∧ let total := entered_total Scenario.nobody in
    let '(r, trace) :=
      reserve (Scenario.with_info (Some Scenario.nobody) Scenario.smooth)
        "SRT" false 3 [] in
    ((total = 0 ∨ 10 ≤ total)%Z →
       r ≠ inr StillPolling ∧ calls is_search trace = 0 ∧
       calls is_reserve trace = 0 ∧ calls is_progress trace = 0)
    ∧ (calls is_progress trace ≠ 0 → (1 ≤ total ≤ 9)%Z).
Proof.
  split; [reflexivity |]. split; [exact nobody_counts_entered |].
  apply (passenger_gate
           (Scenario.with_info (Some Scenario.nobody) Scenario.smooth)
           "SRT" false 3 Scenario.nobody);
    [reflexivity | exact nobody_counts_entered].
Defined.

(** ** The [except] clauses *)

Section Handlers.
Context {Train : Type} `{SRTTrain Train, KorailTrain Train}.
Variable env : Env Train.
Variable debug : bool.

Lemma calls_app (p : Event Train → bool) (l1 l2 : list (Event Train)) :
  calls p (l1 ++ l2) = calls p l1 + calls p l2.
Proof. unfold calls. by rewrite List.filter_app, length_app. Qed.

Lemma calls_snoc (p : Event Train → bool) (l : list (Event Train))
    (e : Event Train) :
  calls p (l ++ [e]) = calls p l + (if p e then 1 else 0).
Proof. rewrite calls_app. unfold calls. simpl. by destruct (p e). Qed.







(** A failure anywhere in the body of [try] is handed to the [except]
    clauses, with the trace as the failure left it. *)
Lemma cycle_failure rail_type passengers params choice options_ans i_try
    (ex : Exn) (trace trace' : list (Event Train)) :
  (let* _ := emit (EvProgress i_try) in
   let* trains := search_train env params in
   let* flow :=
     try_candidates env rail_type passengers options_ans trains choice in
   match flow with
   | Return => Eff.ret Return
   | Continue => let* _ := _sleep in Eff.ret Continue
   end) trace = (inl ex, trace') →
  cycle env rail_type debug passengers params choice options_ans i_try trace
  = on_error env debug ex trace'.
Proof. intros Hbody. unfold cycle, Eff.try_except. by rewrite Hbody. Qed.



End Handlers.



(** ** After a committed reservation *)

(** The polling loop is meant to end at the first committed reservation.
    That holds as long as the steps that follow [rail.reserve] inside
    [_reserve] (payment, notification) return: the section below proves it
    by following how each piece of the engine extends the trace. *)

Section Committed.
Context {Train : Type} `{SRTTrain Train, KorailTrain Train}.
Variable env : Env Train.
Variable debug : bool.

(** [m] only appends to the trace, and only events that satisfy [P]. *)
Definition adds {A} (P : Event Train → Prop)
    (m : Eff.M (list (Event Train)) Exn A) : Prop :=
  ∀ trace, ∃ added, (m trace).2 = trace ++ added ∧ Forall P added.

Lemma adds_ret {A} P (a : A) : adds P (Eff.ret a).
Proof. intros trace. exists []. by rewrite app_nil_r. Qed.

Lemma adds_raise {A} P ex : adds P (Eff.raise (A := A) ex).
Proof. intros trace. exists []. by rewrite app_nil_r. Qed.

Lemma adds_gets {A} P (f : list (Event Train) → A) : adds P (Eff.gets f).
Proof. intros trace. exists []. by rewrite app_nil_r. Qed.

Lemma adds_emit (P : Event Train → Prop) e : P e → adds P (emit e).
Proof. intros He trace. exists [e]. split; [done|]. by constructor. Qed.

Lemma adds_bind {A B} P (m : Eff.M _ Exn A) (k : A → Eff.M _ Exn B) :
  adds P m → (∀ a, adds P (k a)) → adds P (let* a := m in k a).
Proof.
  intros Hm Hk trace. unfold Eff.bind.
  destruct (Hm trace) as (added1 & Htrace1 & Hadded1).
  destruct (m trace) as [[ex|a] trace1]; simpl in Htrace1; subst trace1.
  { by exists added1. }
  destruct (Hk a (trace ++ added1)) as (added2 & -> & Hadded2).
  exists (added1 ++ added2). split; [by rewrite app_assoc|]. by apply Forall_app.
Qed.

Lemma adds_try {A} P (m : Eff.M _ Exn A) (h : Exn → Eff.M _ Exn A) :
  adds P m → (∀ ex, adds P (h ex)) → adds P (Eff.try_except m h).
Proof.
  intros Hm Hh trace. unfold Eff.try_except.
  destruct (Hm trace) as (added1 & Htrace1 & Hadded1).
  destruct (m trace) as [[ex|a] trace1]; simpl in Htrace1; subst trace1.
  2:{ by exists added1. }
  destruct (Hh ex (trace ++ added1)) as (added2 & -> & Hadded2).
  exists (added1 ++ added2). split; [by rewrite app_assoc|]. by apply Forall_app.
Qed.

Lemma adds_result {A} P (r : Exn + A) : adds P (result r).
Proof. destruct r; [apply adds_raise | apply adds_ret]. Qed.

Definition not_reserved (e : Event Train) : Prop := is_reserved e = false.

Ltac adds :=
  repeat first
    [ apply adds_ret | apply adds_raise | apply adds_gets | apply adds_result
    | apply adds_emit; reflexivity
    | apply adds_bind; [|intros ?]
    | match goal with |- adds _ (if ?b then _ else _) => destruct b end
    | match goal with |- adds _ (match ?r with Some _ => _ | None => _ end) =>
        destruct r end ].

Lemma login_adds : adds not_reserved (login env).
Proof. unfold login. adds. Qed.

Lemma handle_error_adds ex msg : adds not_reserved (_handle_error env ex msg).
Proof. unfold _handle_error, print, tgprintf, confirm. adds. Qed.

Lemma on_error_adds ex : adds not_reserved (on_error env debug ex).
Proof.
  pose proof login_adds. pose proof handle_error_adds.
  destruct ex; unfold on_error, debug_print, print, _sleep;
    repeat first [ progress adds | done ].
Qed.

(** [m] returns, having appended only events that satisfy [P]. *)
Definition returns_adding {A} (P : Event Train → Prop)
    (m : Eff.M (list (Event Train)) Exn A) : Prop :=
  ∀ trace, ∃ a added, m trace = (inr a, trace ++ added) ∧ Forall P added.

Lemma returns_ret {A} P (a : A) : returns_adding P (Eff.ret a).
Proof. intros trace. exists a, []. by rewrite app_nil_r. Qed.

Lemma returns_gets {A} P (f : list (Event Train) → A) :
  returns_adding P (Eff.gets f).
Proof. intros trace. exists (f trace), []. by rewrite app_nil_r. Qed.

Lemma returns_emit (P : Event Train → Prop) e : P e → returns_adding P (emit e).
Proof. intros He trace. exists tt, [e]. split; [done|]. by constructor. Qed.

Lemma returns_bind {A B} P (m : Eff.M _ Exn A) (k : A → Eff.M _ Exn B) :
  returns_adding P m → (∀ a, returns_adding P (k a)) →
  returns_adding P (let* a := m in k a).
Proof.
  intros Hm Hk trace. unfold Eff.bind.
  destruct (Hm trace) as (a & added1 & -> & Hadded1).
  destruct (Hk a (trace ++ added1)) as (b & added2 & -> & Hadded2).
  exists b, (added1 ++ added2). split; [by rewrite app_assoc|].
  by apply Forall_app.
Qed.

(** Neither a call of [rail.reserve] nor a search. *)
Definition aftermath (e : Event Train) : Prop :=
  is_reserve e = false ∧ is_search e = false.

Lemma calls_none (p : Event Train → bool) (l : list (Event Train)) :
  Forall (λ e, p e = false) l → calls p l = 0.
Proof.
  unfold calls. induction 1 as [|e l He _ IH]; [done|].
  cbn. by rewrite He.
Qed.

Lemma since_reserved_app (l1 l2 : list (Event Train)) :
  calls is_reserved l1 = 0 →
  since_reserved (l1 ++ l2) = since_reserved l2.
Proof.
  unfold calls. induction l1 as [|e l1 IH]; [done|]. cbn.
  destruct (is_reserved e); [done|]. apply IH.
Qed.

Lemma reserved_is_reserve (e : Event Train) :
  is_reserve e = false → is_reserved e = false.
Proof. by destruct e. Qed.

Section Undisturbed.
Hypothesis send_delivers : ∀ n, send_result env n = None.
Hypothesis pay_returns : ∀ n, ∃ paid, pay_result env n = inr paid.
Variable rail_type : string.

Section Loop.
Variable passengers : list Passenger.
Variable params : SearchParams.
Variable choice : list nat.
Variable options_ans : OptionsAns.

Lemma pay_card_returns : returns_adding aftermath (pay_card env).
Proof.
  unfold pay_card. destruct (card_ok env); [|apply returns_ret].
  intros trace. unfold Eff.bind, Eff.gets, emit, Eff.modify.
  destruct (pay_returns (calls is_pay trace)) as [paid ->].
  exists paid, [EvPay (inr paid)]. split; [done|]. by repeat constructor.
Qed.

Lemma tgprintf_returns msg : returns_adding aftermath (tgprintf env msg).
Proof.
  intros trace. unfold tgprintf, Eff.bind, Eff.gets, emit, Eff.modify.
  rewrite send_delivers. exists tt, [EvSend msg None].
  split; [done|]. by repeat constructor.
Qed.

Lemma bind_run {A B} (m : Eff.M (list (Event Train)) Exn A)
    (k : A → Eff.M (list (Event Train)) Exn B) trace :
  (let* a := m in k a) trace
  = match m trace with
    | (inr a, trace') => k a trace'
    | (inl ex, trace') => (inl ex, trace')
    end.
Proof. reflexivity. Qed.

Lemma rail_reserve_run train option trace :
  rail_reserve env train passengers option trace
  = (let r := reserve_result env (calls is_reserve trace) in
     (r, trace ++ [EvReserve train passengers option r])).
Proof.
  unfold rail_reserve, Eff.bind, Eff.gets, emit, Eff.modify, result.
  by destruct (reserve_result env (calls is_reserve trace)).
Qed.

Ltac returns :=
  repeat first
    [ apply pay_card_returns | apply tgprintf_returns
    | apply returns_ret | apply returns_gets
    | apply returns_emit; by split
    | apply returns_bind; [|intros ?]
    | match goal with |- returns_adding _ (if ?b then _ else _) => destruct b end ].

(** [_reserve] either fails in [rail.reserve], with nothing committed, or
    commits one reservation and returns without another search. *)
Lemma reserve_commits_once train trace :
  calls is_reserved trace = 0 →
  let '(r, trace') := _reserve env passengers options_ans train trace in
  match r with
  | inr _ => calls is_reserved trace' = 1
             ∧ calls is_search (since_reserved trace') = 0
  | inl _ => calls is_reserved trace' = 0
  end.
Proof.
  intros Hnone. unfold _reserve. rewrite bind_run, rail_reserve_run.
  destruct (reserve_result env (calls is_reserve trace)) as [ex|ret];
    lazy beta iota zeta.
  { by rewrite calls_snoc, Hnone. }
  match goal with |- context [Eff.bind ?m ?k ?t] =>
    assert (returns_adding aftermath (Eff.bind m k)) as Hrest; [|
      destruct (Hrest t) as (a & added & -> & Hadded)] end.
  { unfold print. returns. }
  rewrite <- app_assoc. cbn [app]. split.
  - rewrite calls_app, Hnone. unfold calls at 1. cbn.
    fold (calls is_reserved added). rewrite calls_none; [done|].
    eapply Forall_impl; [done|]. intros e [? _]. by apply reserved_is_reserve.
  - rewrite since_reserved_app by done. cbn. apply calls_none.
    eapply Forall_impl; [done|]. by intros e [_ ?].
Qed.

(** From a trace without a committed reservation, [m] either commits none,
    or commits exactly one, issues no search after it and returns a value
    that satisfies [final]. *)
Definition once {A} (final : A → Prop)
    (m : Eff.M (list (Event Train)) Exn A) : Prop :=
  ∀ trace, calls is_reserved trace = 0 →
    let '(r, trace') := m trace in
    calls is_reserved trace' = 0
    ∨ (∃ a, r = inr a ∧ final a)
      ∧ calls is_reserved trace' = 1
      ∧ calls is_search (since_reserved trace') = 0.

Lemma once_adds {A} (final : A → Prop) m : adds not_reserved m → once final m.
Proof.
  intros Hm trace Hnone. destruct (Hm trace) as (added & Htrace & Hadded).
  destruct (m trace) as [r trace']. simpl in Htrace. subst trace'. left.
  by rewrite calls_app, Hnone, calls_none.
Qed.

Lemma once_bind {A B} (mid : A → Prop) (final : B → Prop)
    (m : Eff.M _ Exn A) (k : A → Eff.M _ Exn B) :
  once mid m →
  (∀ a, mid a → ∃ b, k a = Eff.ret b ∧ final b) →
  (∀ a, once final (k a)) →
  once final (let* a := m in k a).
Proof.
  intros Hm Hmid Hk trace Hnone. rewrite bind_run.
  specialize (Hm trace Hnone). destruct (m trace) as [r trace1].
  destruct Hm as [Hnone1|([a [-> Ha]] & Hone & Hsearch)].
  - destruct r as [ex|a]; [by left|]. by apply Hk.
  - destruct (Hmid a Ha) as (b & -> & Hb). right. eauto.
Qed.

Lemma once_try {A} (final : A → Prop) (m : Eff.M _ Exn A)
    (h : Exn → Eff.M _ Exn A) :
  once final m → (∀ ex, adds not_reserved (h ex)) →
  once final (Eff.try_except m h).
Proof.
  intros Hm Hh trace Hnone. unfold Eff.try_except.
  specialize (Hm trace Hnone). destruct (m trace) as [[ex|a] trace1]; [|done].
  destruct Hm as [Hnone1|([a [[=] _]] & _)].
  by apply (once_adds final (h ex)).
Qed.

Lemma _reserve_once train :
  once (λ _, True) (_reserve env passengers options_ans train).
Proof.
  intros trace Hnone. pose proof (reserve_commits_once train trace Hnone) as Hr.
  destruct (_reserve env passengers options_ans train trace) as [[ex|[]] trace'].
  - by left.
  - right. destruct Hr. eauto.
Qed.

Lemma try_candidates_once trains selected :
  once (λ flow, flow = Return)
    (try_candidates env rail_type passengers options_ans trains selected).
Proof.
  induction selected as [|i rest IH]; simpl.
  { apply once_adds, adds_ret. }
  destruct (trains !! i) as [train|]; [|apply once_adds, adds_raise].
  destruct (_is_seat_available _ _ _); [|done].
  apply (once_bind (λ _, True)); [apply _reserve_once|by eauto|].
  intros _. apply once_adds, adds_ret.
Qed.

(** The candidates are tried in the order chosen by the user: the first
    one that satisfies the seat predicate is the one reserved. *)
Lemma try_candidates_first trains before i after train :
  Forall (λ j, ∃ other, trains !! j = Some other
               ∧ _is_seat_available other (type options_ans) rail_type = false)
         before →
  trains !! i = Some train →
  _is_seat_available train (type options_ans) rail_type = true →
  try_candidates env rail_type passengers options_ans trains
    (before ++ i :: after)
  = (let* _ := _reserve env passengers options_ans train in Eff.ret Return).
Proof.
  intros Hbefore Hi Hseat.
  induction Hbefore as [|j before (other & Hj & Hother) _ IH]; simpl.
  - by rewrite Hi, Hseat.
  - by rewrite Hj, Hother.
Qed.

Lemma search_train_adds query : adds not_reserved (search_train env query).
Proof. unfold search_train. adds. Qed.

Lemma cycle_once i_try :
  once (λ flow, flow = Return)
    (cycle env rail_type debug passengers params choice options_ans i_try).
Proof.
  unfold cycle. apply once_try; [|apply on_error_adds].
  apply (once_bind (λ _, False)); [apply once_adds; adds|done|]. intros _.
  apply (once_bind (λ _, False));
    [apply once_adds, search_train_adds|done|]. intros trains.
  apply (once_bind (λ flow, flow = Return));
    [apply try_candidates_once|by intros ? ->; eauto|].
  intros []; apply once_adds; unfold _sleep; adds.
Qed.

Lemma poll_once fuel i_try :
  once (λ outcome, outcome = Returned)
    (poll env rail_type debug passengers params choice options_ans fuel i_try).
Proof.
  revert i_try. induction fuel as [|fuel IH]; intros i_try; simpl.
  { apply once_adds, adds_ret. }
  apply (once_bind (λ flow, flow = Return));
    [apply cycle_once|by intros ? ->; eauto|].
  intros []; first [apply IH | apply once_adds, adds_ret].
Qed.
End Loop.

Lemma run_once fuel :
  once (λ outcome, outcome = Returned) (reserve env rail_type debug fuel).
Proof.
  unfold reserve.
  apply (once_bind (λ _, False)); [apply once_adds, login_adds|done|].
  intros _. unfold print.
  repeat first
    [ apply poll_once
    | solve [apply once_adds; adds]
    | match goal with
      | |- once _ (match ?x with _ => _ end) => destruct x
      | |- once _ (if ?x then _ else _) => destruct x
      end
    | apply (once_bind (λ _, False));
        [apply once_adds; first [apply search_train_adds | adds]|done|];
        intros ?
    | progress lazy zeta ].
Qed.

(** X12: in a run whose notification and payment collaborators do not raise,
    the engine commits at most one reservation; having committed it, it
    returns without another search. *)
Lemma undisturbed_run_commits_once fuel :
  let '(r, trace) := reserve env rail_type debug fuel [] in
  (calls is_reserved trace ≤ 1)%nat
  ∧ (calls is_reserved trace = 1 →
     r = inr Returned ∧ calls is_search (since_reserved trace) = 0).
Proof.
  pose proof (run_once fuel [] eq_refl) as Hrun.
  destruct (reserve env rail_type debug fuel []) as [r trace].
  destruct Hrun as [->|([? [-> ->]] & -> & ->)]; [|done].
  split; [lia|done].
Qed.
End Undisturbed.
End Committed.

(** C5 at a failing input: the user asked for payment and the card is
    declined by an [SRTError] after the reservation is committed.  The
    exception reaches the [except] clauses of the loop, the user confirms,
    and the next poll reserves again: two reservations are committed, and a
    search is issued after the first.  When payment and notification
    return, the same loop ends at the first committed reservation
    ([undisturbed_run_commits_once]). *)
Theorem declined_card_reserves_twice :
  let run := reserve Scenario.card_declined "SRT" false 2 [] in
  run.1 = inr Returned
  ∧ calls is_reserved run.2 = 2
  ∧ calls is_search (since_reserved run.2) = 1.
Proof. vm_compute. repeat split. Qed.

(** C7 at failing inputs: a send that fails after a committed reservation is
    caught by the loop's [except Exception], which reports it through
    [_handle_error].  If that second send goes through and the user
    confirms, polling resumes and reserves again; if it fails too, the
    exception leaves [reserve]. *)
Theorem failed_send_reaches_the_loop :
  (let run := reserve Scenario.channel_hiccup "SRT" false 2 [] in
   run.1 = inr Returned
   ∧ calls is_reserved run.2 = 2
   ∧ calls is_search (since_reserved run.2) = 1)
  ∧ (let run := reserve Scenario.channel_down "SRT" false 2 [] in
     run.1 = inl (OtherError "NetworkError")
     ∧ calls is_reserved run.2 = 1
     ∧ calls is_confirm run.2 = 0).
Proof. vm_compute. repeat split. Qed.

(** With a channel that delivers and a card that is accepted, the same run
    stops at its first committed reservation. *)
Example smooth_run_reserves_once :
  let run := reserve Scenario.smooth "SRT" false 2 [] in
  run.1 = inr Returned
  ∧ calls is_reserved run.2 = 1
  ∧ calls is_search (since_reserved run.2) = 0.
Proof. vm_compute. repeat split. Qed.

(** ** More about the engine *)

Lemma head_count_app l1 l2 :
  head_count (l1 ++ l2) = (head_count l1 + head_count l2)%Z.
Proof.
  unfold head_count. induction l1 as [|p l1 IH]; cbn [app foldr]; [done|].
  rewrite IH. lia.
Qed.

Lemma class_order_take cls :
  take (S (class_rank cls)) class_order
  = take (class_rank cls) class_order ++ [cls].
Proof. by destruct cls. Qed.

(** What one step of the passenger loop keeps. *)
Definition well_counted (bound : nat) (acc : list Passenger * Z) : Prop :=
  Forall (λ p, (0 < p.2)%Z) acc.1
  ∧ sublist acc.1.*1 (take bound class_order)
  ∧ acc.2 = head_count acc.1.

Lemma add_passengers_counted cls count acc :
  well_counted (class_rank cls) acc →
  well_counted (S (class_rank cls)) (add_passengers cls count acc).
Proof.
  intros (Hpos & Hsub & Htotal). unfold add_passengers, well_counted.
  rewrite class_order_take.
  destruct (Z.ltb_spec 0 count) as [Hcount|Hcount]; cbn [fst snd].
  - split; [|split].
    + apply Forall_app. split; [done|]. by repeat constructor.
    + rewrite fmap_app. by apply sublist_app.
    + rewrite head_count_app, Htotal. cbn. lia.
  - split; [done|]. split; [|done]. by apply sublist_inserts_r.
Qed.

Lemma add_optional_counted cls count acc :
  well_counted (class_rank cls) acc →
  well_counted (S (class_rank cls)) (add_optional cls count acc).
Proof.
  destruct count as [c|]; [apply add_passengers_counted|].
  intros (Hpos & Hsub & ?). split; [done|]. split; [|done].
  rewrite class_order_take. by apply sublist_inserts_r.
Qed.

Lemma build_passengers_counted info :
  well_counted 5 (build_passengers info).
Proof.
  unfold build_passengers.
  apply (add_optional_counted Disability4To6),
    (add_optional_counted Disability1To3),
    (add_optional_counted Senior), (add_optional_counted Child),
    (add_passengers_counted Adult).
  split; [done|]. split; [constructor|done].
Qed.

Lemma head_count_positive passengers :
  Forall (λ p : Passenger, (0 < p.2)%Z) passengers →
  passengers ≠ [] → (0 < head_count passengers)%Z.
Proof.
  intros Hpos. induction Hpos as [|p l Hp Hl IH]; [done|]. intros _.
  unfold head_count in *. cbn [foldr].
  destruct l as [|q l]; [cbn; lia|]. specialize (IH ltac:(done)). lia.
Qed.

Lemma passengers_are_counted_aux info :
  Forall (λ p : Passenger, (0 < p.2)%Z) (build_passengers info).1
  ∧ (build_passengers info).2 = head_count (build_passengers info).1
  ∧ ((build_passengers info).1 = [] ↔ (build_passengers info).2 = 0%Z).
Proof.
  pose proof (build_passengers_counted info) as (Hpos & _ & Htotal).
  split; [done|]. split; [done|]. rewrite Htotal. split; [by intros ->|].
  intros Hzero. destruct (build_passengers info).1 as [|p rest]; [done|].
  pose proof (head_count_positive _ Hpos ltac:(done)). lia.
Qed.

(** X13: the passenger objects [reserve] builds.  Every object stands for at
    least one passenger; the classes are taken from the fixed order adult,
    child, senior, disability 1-3, disability 4-6, each at most once; and
    [total_count] is the sum of the counts, so it is 0 only when there is no
    object at all. *)
Theorem passengers_are_counted (info : Info) :
  let '(passengers, total_count) := build_passengers info in
  Forall (λ p, (0 < p.2)%Z) passengers
  ∧ sublist passengers.*1 class_order
  ∧ total_count = head_count passengers
  ∧ (passengers = [] ↔ total_count = 0%Z).
Proof.
  pose proof (build_passengers_counted info) as (Hpos & Hsub & Htotal).
  destruct (build_passengers info) as [passengers total_count].
  cbn [fst snd] in *. repeat (split; [done|]).
  subst total_count. split; [by intros ->|]. intros Hzero.
  destruct passengers as [|p rest]; [done|].
  pose proof (head_count_positive _ Hpos ltac:(done)). lia.
Qed.


Section Traces.
Context {Train : Type} `{SRTTrain Train, KorailTrain Train}.
Variable env : Env Train.
Variable rail_type : string.
Variable debug : bool.

(** An event that is neither a search nor a call of [rail.reserve]. *)
Definition aside (e : Event Train) : Prop :=
  is_search e = false ∧ is_reserve e = false.

Lemma adds_impl {A} (P Q : Event Train → Prop)
    (m : Eff.M (list (Event Train)) Exn A) :
  (∀ e, P e → Q e) → adds P m → adds Q m.
Proof.
  intros HPQ Hm trace. destruct (Hm trace) as (added & ? & ?).
  exists added. split; [done|]. by eapply Forall_impl.
Qed.

Ltac adds_by side :=
  repeat first
    [ apply adds_ret | apply adds_raise | apply adds_gets | apply adds_result
    | apply adds_emit; side
    | apply adds_bind; [|intros ?]
    | match goal with
      | |- adds _ (if ?b then _ else _) => destruct b
      | |- adds _ (match ?r with Some _ => _ | None => _ end) => destruct r
      end ].

Lemma login_aside : adds aside (login env).
Proof. unfold login. adds_by ltac:(by split). Qed.

Lemma handle_error_aside ex msg : adds aside (_handle_error env ex msg).
Proof.
  unfold _handle_error, print, tgprintf, confirm. adds_by ltac:(by split).
Qed.

Lemma on_error_aside ex : adds aside (on_error env debug ex).
Proof.
  pose proof login_aside. pose proof handle_error_aside.
  destruct ex; unfold on_error, debug_print, print, _sleep;
    repeat first [ progress adds_by ltac:(by split) | done ].
Qed.

Lemma transient_on_error ex trace :
  transient ex = true →
  on_error env debug ex trace = (inr Continue, trace ++ [EvSleep]).
Proof.
  destruct ex as [msg|text|msg|text|text]; cbn [transient]; try done.
  - intros Htransient.
    apply andb_prop in Htransient as [Htransient Hknown].
    apply andb_prop in Htransient as [Hflag Hlogin].
    apply negb_true_iff in Hflag, Hlogin.
    unfold on_error. rewrite Hflag, Hlogin, Hknown. reflexivity.
  - intros Hknown. unfold on_error. rewrite Hknown. reflexivity.
Qed.

Lemma search_train_run query trace :
  search_train env query trace
  = (let r := search_result env (calls is_search trace) in
     (r, trace ++ [EvSearch query r])).
Proof.
  unfold search_train, Eff.bind, Eff.gets, emit, Eff.modify, result.
  by destruct (search_result env (calls is_search trace)).
Qed.

Section Polling.
Variable passengers : list Passenger.
Variable params : SearchParams.
Variable choice : list nat.
Variable options_ans : OptionsAns.

(** [_reserve] calls [rail.reserve] once, for its train, with the
    passengers and the seat option of the run; the rest is aside. *)
Lemma reserve_adds (P : Event Train → Prop) train :
  (∀ r, P (EvReserve train passengers (type options_ans) r)) →
  (∀ e, aside e → P e) →
  adds P (_reserve env passengers options_ans train).
Proof.
  intros Hreserve Haside.
  unfold _reserve, rail_reserve, print, pay_card, tgprintf.
  adds_by ltac:(first [apply Hreserve | by apply Haside]).
Qed.

(** [try_candidates] reserves nothing but selected candidates that satisfy
    the seat predicate. *)
Lemma try_candidates_adds (P : Event Train → Prop) trains selected :
  (∀ i train r,
     i ∈ selected → trains !! i = Some train →
     _is_seat_available train (type options_ans) rail_type = true →
     P (EvReserve train passengers (type options_ans) r)) →
  (∀ e, aside e → P e) →
  adds P (try_candidates env rail_type passengers options_ans trains selected).
Proof.
  intros Hreserve Haside.
  induction selected as [|i rest IH]; cbn [try_candidates].
  { apply adds_ret. }
  destruct (trains !! i) as [train|] eqn:Htrain; [|apply adds_raise].
  destruct (_is_seat_available train _ _) eqn:Hseat.
  - apply adds_bind; [|intros _; apply adds_ret].
    apply reserve_adds; [|done]. intros r.
    by apply (Hreserve i); [apply list_elem_of_here|..].
  - apply IH. intros j t r Hj. apply Hreserve. by apply list_elem_of_further.
Qed.

(** One turn of the loop: a search with the parameters of the run, then
    at most reservations of candidates that satisfy the seat predicate. *)
Lemma cycle_adds (P : Event Train → Prop) i_try :
  (∀ r, P (EvSearch params r)) →
  (∀ train r,
     _is_seat_available train (type options_ans) rail_type = true →
     P (EvReserve train passengers (type options_ans) r)) →
  (∀ e, aside e → P e) →
  adds P (cycle env rail_type debug passengers params choice options_ans i_try).
Proof.
  intros Hsearch Hreserve Haside. unfold cycle.
  apply adds_try; [|intros ex; eapply adds_impl; [done|apply on_error_aside]].
  apply adds_bind; [by apply adds_emit, Haside|intros _].
  apply adds_bind.
  { unfold search_train. adds_by ltac:(first [apply Hsearch | by apply Haside]). }
  intros trains. apply adds_bind.
  { apply try_candidates_adds; [|done]. intros i train r _ _. apply Hreserve. }
  intros []; unfold _sleep; adds_by ltac:(by apply Haside).
Qed.

Lemma poll_adds (P : Event Train → Prop) fuel i_try :
  (∀ r, P (EvSearch params r)) →
  (∀ train r,
     _is_seat_available train (type options_ans) rail_type = true →
     P (EvReserve train passengers (type options_ans) r)) →
  (∀ e, aside e → P e) →
  adds P (poll env rail_type debug passengers params choice options_ans
            fuel i_try).
Proof.
  intros Hsearch Hreserve Haside. revert i_try.
  induction fuel as [|fuel IH]; intros i_try; cbn [poll].
  { apply adds_ret. }
  apply adds_bind; [by apply cycle_adds|].
  intros []; [apply IH|apply adds_ret].
Qed.
End Polling.

(** X14: what the engine asks the backend for.  Every search of a run, the
    one before the loop and those of the loop, carries the stations and the
    date that were entered, two different stations, a time that is not
    before the entered one and, for a departure today, not before the clock
    either, and between 1 and 9 passengers, as many as were entered:
    the passenger objects themselves for SRT, one adult object with the
    total for KTX. *)
Theorem searches_ask_what_was_entered (fuel : nat) :
  let '(_, trace) := reserve env rail_type debug fuel [] in
  ∀ params r,
    EvSearch params r ∈ trace →
    ∃ info,
      prompt_info env = Some info
      ∧ dep params = departure info ∧ arr params = arrival info
      ∧ departure info ≠ arrival info
      ∧ search_date params = date info
      ∧ (time info ≤ search_time params)%Z
      ∧ (date info = today env → (this_time env ≤ search_time params)%Z)
      ∧ (1 ≤ head_count (search_passengers params) ≤ 9)%Z
      ∧ head_count (search_passengers params) = (build_passengers info).2
      ∧ search_passengers params
        = (if String.eqb rail_type "SRT" then (build_passengers info).1
           else [(Adult, (build_passengers info).2)])
      ∧ available_only params
        = (if String.eqb rail_type "SRT" then Some false else None)
      ∧ include_no_seats params
        = (if String.eqb rail_type "SRT" then None else Some true).
Proof.
  set (P := λ e : Event Train,
    match e with
    | EvSearch params _ =>
      ∃ info,
        prompt_info env = Some info
        ∧ dep params = departure info ∧ arr params = arrival info
        ∧ departure info ≠ arrival info
        ∧ search_date params = date info
        ∧ (time info ≤ search_time params)%Z
        ∧ (date info = today env → (this_time env ≤ search_time params)%Z)
        ∧ (1 ≤ head_count (search_passengers params) ≤ 9)%Z
        ∧ head_count (search_passengers params) = (build_passengers info).2
        ∧ search_passengers params
          = (if String.eqb rail_type "SRT" then (build_passengers info).1
             else [(Adult, (build_passengers info).2)])
        ∧ available_only params
          = (if String.eqb rail_type "SRT" then Some false else None)
        ∧ include_no_seats params
          = (if String.eqb rail_type "SRT" then None else Some true)
    | _ => True
    end).
  assert (∀ e, aside e → P e) as Haside.
  { intros e [Hsearch _]. by destruct e. }
  assert (adds P (reserve env rail_type debug fuel)) as Hrun.
  { unfold reserve.
    apply adds_bind; [eapply adds_impl; [done|apply login_aside]|intros _].
    unfold print.
    destruct (prompt_info env) as [info|] eqn:Hinfo;
      [|adds_by ltac:(by apply Haside)].
    destruct (String.eqb (departure info) (arrival info)) eqn:Hsame;
      [adds_by ltac:(by apply Haside)|].
    apply String.eqb_neq in Hsame.
    apply adds_bind; [by apply adds_emit, Haside|intros _]. cbn zeta.
    pose proof (passengers_are_counted_aux info) as Hcounted.
    destruct (build_passengers info) as [passengers total_count] eqn:Hbuild.
    cbn [fst snd] in Hcounted. destruct Hcounted as (Hpos & Htotal & Hempty).
    destruct (Z.eqb_spec total_count 0) as [Hzero|Hzero];
      [adds_by ltac:(by apply Haside)|].
    destruct (Z.leb_spec 10 total_count) as [Hten|Hten];
      [adds_by ltac:(by apply Haside)|].
    match goal with |- context [search_train env ?p] => set (params := p) end.
    assert (∀ r, P (EvSearch params r)) as Hsearch.
    { intros r. exists info. cbn [P params dep arr search_date search_time
        search_passengers available_only include_no_seats fst snd].
      assert (0 < total_count)%Z as Hpositive.
      { destruct passengers as [|p rest]; [by destruct Hempty as [-> _]|].
        rewrite Htotal. by apply head_count_positive. }
      repeat (split; [done|]).
      split. { destruct (String.eqb (date info) (today env)),
                 (Z.ltb_spec (time info) (this_time env)); cbn; lia. }
      split. { intros Htoday. rewrite Htoday, String.eqb_refl. cbn.
               destruct (Z.ltb_spec (time info) (this_time env)); lia. }
      assert (head_count
                (if String.eqb rail_type "SRT" then passengers
                 else [(Adult, total_count)]) = total_count) as Hcount.
      { destruct (String.eqb rail_type "SRT"); [done|]. cbn. lia. }
      rewrite Hcount, Hbuild. split; [lia|]. done. }
    apply adds_bind.
    { unfold search_train. adds_by ltac:(first [apply Hsearch | by apply Haside]). }
    intros [|train trains]; [adds_by ltac:(by apply Haside)|].
    destruct (prompt_trains env) as [[|i selected]|];
      [adds_by ltac:(by apply Haside)| |adds_by ltac:(by apply Haside)].
    destruct (prompt_options env) as [options_ans|];
      [|adds_by ltac:(by apply Haside)].
    apply poll_adds; [|by intros t r _|done].
    clearbody params. intros r. apply Hsearch. }
  destruct (Hrun []) as (added & Htrace & Hadded).
  destruct (reserve env rail_type debug fuel []) as [r trace].
  cbn in Htrace. subst trace. intros params r' Hin.
  rewrite Forall_forall in Hadded. apply (Hadded _ Hin).
Qed.

(** [m] only appends to the trace, and what it appends satisfies [S]. *)
Definition grows {A} (S : list (Event Train) → Prop)
    (m : Eff.M (list (Event Train)) Exn A) : Prop :=
  ∀ trace, ∃ added, (m trace).2 = trace ++ added ∧ S added.

Section Grows.
Variable S : list (Event Train) → Prop.
Hypothesis S_app : ∀ l1 l2, S l1 → S l2 → S (l1 ++ l2).
Hypothesis S_aside : ∀ l, Forall (λ e, is_reserve e = false) l → S l.

Lemma grows_aside {A} (m : Eff.M _ Exn A) : adds aside m → grows S m.
Proof.
  intros Hm trace. destruct (Hm trace) as (added & ? & ?).
  exists added. split; [done|]. apply S_aside.
  eapply Forall_impl; [done|]. by intros e [_ ?].
Qed.

Lemma grows_bind {A B} (m : Eff.M _ Exn A) (k : A → Eff.M _ Exn B) :
  grows S m → (∀ a, grows S (k a)) → grows S (let* a := m in k a).
Proof.
  intros Hm Hk trace. rewrite bind_run.
  destruct (Hm trace) as (added1 & Htrace1 & Hadded1).
  destruct (m trace) as [[ex|a] trace1]; cbn in Htrace1; subst trace1.
  { by exists added1. }
  destruct (Hk a (trace ++ added1)) as (added2 & -> & Hadded2).
  exists (added1 ++ added2). split; [by rewrite app_assoc|]. by apply S_app.
Qed.

Lemma grows_try {A} (m : Eff.M _ Exn A) (h : Exn → Eff.M _ Exn A) :
  grows S m → (∀ ex, grows S (h ex)) → grows S (Eff.try_except m h).
Proof.
  intros Hm Hh trace. unfold Eff.try_except.
  destruct (Hm trace) as (added1 & Htrace1 & Hadded1).
  destruct (m trace) as [[ex|a] trace1]; cbn in Htrace1; subst trace1.
  2:{ by exists added1. }
  destruct (Hh ex (trace ++ added1)) as (added2 & -> & Hadded2).
  exists (added1 ++ added2). split; [by rewrite app_assoc|]. by apply S_app.
Qed.
End Grows.

(** Every call of [rail.reserve] in [added] is for a candidate that
    satisfies the seat predicate and that a search in [added] returned at an
    index the user selected; it passes the passengers built from the
    entered counts and the seat option that was chosen. *)
Definition kept_to_selection (added : list (Event Train)) : Prop :=
  ∀ train passengers option r,
    EvReserve train passengers option r ∈ added →
    _is_seat_available train option rail_type = true
    ∧ (∃ info, prompt_info env = Some info
               ∧ passengers = (build_passengers info).1)
    ∧ (∃ options_ans, prompt_options env = Some options_ans
                      ∧ option = type options_ans)
    ∧ ∃ selected params trains i,
        prompt_trains env = Some selected
        ∧ i ∈ selected
        ∧ EvSearch params (inr trains) ∈ added
        ∧ trains !! i = Some train.

Lemma kept_app l1 l2 :
  kept_to_selection l1 → kept_to_selection l2 →
  kept_to_selection (l1 ++ l2).
Proof.
  intros H1 H2 train ps opt r Hin.
  apply elem_of_app in Hin as [Hin|Hin].
  - destruct (H1 _ _ _ _ Hin)
      as (? & ? & ? & selected & params & trains & i & ? & ? & ? & ?).
    repeat (split; [done|]). exists selected, params, trains, i.
    repeat (split; [done|]). split; [|done]. apply elem_of_app. by left.
  - destruct (H2 _ _ _ _ Hin)
      as (? & ? & ? & selected & params & trains & i & ? & ? & ? & ?).
    repeat (split; [done|]). exists selected, params, trains, i.
    repeat (split; [done|]). split; [|done]. apply elem_of_app. by right.
Qed.

Lemma kept_aside l :
  Forall (λ e, is_reserve e = false) l → kept_to_selection l.
Proof.
  intros Haside train ps opt r Hin. rewrite Forall_forall in Haside.
  by specialize (Haside _ Hin).
Qed.

Lemma aside_no_reserve l :
  Forall aside l → Forall (λ e, is_reserve e = false) l.
Proof. intros Hl. eapply Forall_impl; [done|]. by intros e [_ ?]. Qed.

Section Selected.
Variable info : Info.
Variable selected : list nat.
Variable options_ans : OptionsAns.
Variable params : SearchParams.
Hypothesis entered : prompt_info env = Some info.
Hypothesis chosen : prompt_trains env = Some selected.
Hypothesis answered : prompt_options env = Some options_ans.

Lemma cycle_kept i_try :
  grows kept_to_selection
    (cycle env rail_type debug (build_passengers info).1 params selected
       options_ans i_try).
Proof.
  intros trace. unfold cycle, Eff.try_except.
  rewrite bind_run. unfold emit at 1, Eff.modify at 1.
  rewrite bind_run. unfold search_train at 1.
  rewrite bind_run. unfold Eff.gets at 1. rewrite bind_run.
  unfold emit at 1, Eff.modify at 1.
  set (r := search_result env _). set (trace1 := (trace ++ _) ++ _).
  destruct r as [ex|trains] eqn:Hr; cbn [result Eff.raise Eff.ret].
  { destruct (on_error_aside ex trace1) as (added & -> & Hadded).
    eexists. unfold trace1. rewrite <- !app_assoc. split; [reflexivity|].
    apply kept_aside. apply Forall_app. split; [by repeat constructor|].
    apply Forall_app. split; [by repeat constructor|].
    by apply aside_no_reserve. }
  set (P := λ e : Event Train,
    match e with
    | EvReserve train passengers option _ =>
      _is_seat_available train option rail_type = true
      ∧ passengers = (build_passengers info).1
      ∧ option = type options_ans
      ∧ ∃ i, i ∈ selected ∧ trains !! i = Some train
    | _ => aside e
    end).
  assert (∀ added, Forall P added →
            kept_to_selection
              ([EvProgress i_try] ++ [EvSearch params (inr trains)] ++ added))
    as Hkept.
  { intros added HP train ps opt r' Hin.
    apply elem_of_app in Hin as [Hin|Hin].
    { by apply list_elem_of_singleton in Hin. }
    apply elem_of_app in Hin as [Hin|Hin].
    { by apply list_elem_of_singleton in Hin. }
    rewrite Forall_forall in HP.
    destruct (HP _ Hin) as (? & -> & -> & i & ? & ?).
    split; [done|]. split; [by exists info|]. split; [by exists options_ans|].
    exists selected, params, trains, i. repeat (split; [done|]).
    split; [|done]. apply elem_of_app. right. apply elem_of_app. left.
    apply list_elem_of_here. }
  assert (adds P
    (let* flow := try_candidates env rail_type (build_passengers info).1
                    options_ans trains selected in
     match flow with
     | Return => Eff.ret Return
     | Continue => let* _ := _sleep in Eff.ret Continue
     end)) as Hrest.
  { apply adds_bind.
    - apply try_candidates_adds.
      + intros i train r' Hi Htrain Hseat. cbn. eauto 10.
      + intros e Haside. destruct e; try done. by destruct Haside.
    - intros []; unfold _sleep; adds_by ltac:(by split). }
  destruct (Hrest trace1) as (added & Htrace & Hadded).
  match goal with |- context [match ?m trace1 with _ => _ end] =>
    change (m trace1) with
      ((let* flow := try_candidates env rail_type (build_passengers info).1
                       options_ans trains selected in
        match flow with
        | Return => Eff.ret Return
        | Continue => let* _ := _sleep in Eff.ret Continue
        end) trace1) end.
  destruct ((let* flow := try_candidates _ _ _ _ _ _ in _) trace1)
    as [[ex|flow] trace2]; cbn in Htrace; subst trace2.
  - destruct (on_error_aside ex (trace1 ++ added)) as (added2 & -> & Hadded2).
    exists (([EvProgress i_try] ++ [EvSearch params (inr trains)] ++ added)
            ++ added2).
    split; [unfold trace1; by rewrite <- !app_assoc|].
    apply kept_app; [by apply Hkept|by apply kept_aside, aside_no_reserve].
  - exists ([EvProgress i_try] ++ [EvSearch params (inr trains)] ++ added).
    split; [unfold trace1; by rewrite <- !app_assoc|]. by apply Hkept.
Qed.

Lemma poll_kept fuel i_try :
  grows kept_to_selection
    (poll env rail_type debug (build_passengers info).1 params selected
       options_ans fuel i_try).
Proof.
  revert i_try. induction fuel as [|fuel IH]; intros i_try; cbn [poll].
  { apply grows_aside; [apply kept_aside|apply adds_ret]. }
  apply grows_bind; [apply kept_app|apply cycle_kept|].
  intros []; [apply IH|].
  apply grows_aside; [apply kept_aside|apply adds_ret].
Qed.
End Selected.

(** X15: the engine reserves only what was selected.  Every call of
    [rail.reserve] in a run is for a candidate that satisfied the seat
    predicate and that a search of the run returned at an index the user
    selected, and it passes the passenger objects built from the entered
    counts and the seat option the user chose. *)
Theorem reserves_only_what_was_selected (fuel : nat) :
  let '(_, trace) := reserve env rail_type debug fuel [] in
  ∀ train passengers option r,
    EvReserve train passengers option r ∈ trace →
    _is_seat_available train option rail_type = true
    ∧ (∃ info, prompt_info env = Some info
               ∧ passengers = (build_passengers info).1)
    ∧ (∃ options_ans, prompt_options env = Some options_ans
                      ∧ option = type options_ans)
    ∧ ∃ selected params trains i,
        prompt_trains env = Some selected
        ∧ i ∈ selected
        ∧ EvSearch params (inr trains) ∈ trace
        ∧ trains !! i = Some train.
Proof.
  assert (grows kept_to_selection (reserve env rail_type debug fuel)) as Hrun.
  { assert (∀ A (m : Eff.M _ Exn A), adds aside m → grows kept_to_selection m)
      as Haside by (intros A m; apply grows_aside, kept_aside).
    assert (∀ A B (m : Eff.M _ Exn A) (k : A → Eff.M _ Exn B),
              grows kept_to_selection m →
              (∀ a, grows kept_to_selection (k a)) →
              grows kept_to_selection (let* a := m in k a))
      as Hbind by (intros A B m k; apply grows_bind, kept_app).
    unfold reserve, print.
    apply Hbind; [apply Haside, login_aside|intros _].
    destruct (prompt_info env) as [info|] eqn:Hinfo;
      [|apply Haside; adds_by ltac:(by split)].
    destruct (String.eqb (departure info) (arrival info));
      [apply Haside; adds_by ltac:(by split)|].
    apply Hbind; [apply Haside; adds_by ltac:(by split)|intros _]. cbn zeta.
    destruct (build_passengers info) as [passengers total_count] eqn:Hbuild.
    destruct (total_count =? 0)%Z; [apply Haside; adds_by ltac:(by split)|].
    destruct (10 <=? total_count)%Z; [apply Haside; adds_by ltac:(by split)|].
    apply Hbind.
    { intros trace. rewrite search_train_run. eexists [_].
      split; [reflexivity|]. apply kept_aside. by repeat constructor. }
    intros [|train trains]; [apply Haside; adds_by ltac:(by split)|].
    destruct (prompt_trains env) as [[|i selected]|] eqn:Hselected;
      [apply Haside; adds_by ltac:(by split)|
      |apply Haside; adds_by ltac:(by split)].
    destruct (prompt_options env) as [options_ans|] eqn:Hoptions;
      [|apply Haside; adds_by ltac:(by split)].
    replace passengers with (build_passengers info).1 by (by rewrite Hbuild).
    by apply poll_kept. }
  destruct (Hrun []) as (added & Htrace & Hadded).
  destruct (reserve env rail_type debug fuel []) as [r trace].
  cbn in Htrace. subst trace. exact Hadded.
Qed.

Section Waiting.
Variable passengers : list Passenger.
Variable params : SearchParams.
Variable choice : list nat.
Variable options_ans : OptionsAns.

Lemma try_candidates_none trains selected :
  empty_handed rail_type (type options_ans) trains selected →
  try_candidates env rail_type passengers options_ans trains selected
  = Eff.ret Continue.
Proof.
  induction 1 as [|i rest (train & Htrain & Hseat) _ IH]; cbn [try_candidates].
  { done. }
  by rewrite Htrain, Hseat.
Qed.

(** A poll that finds no seat: progress, search, sleep. *)
Lemma cycle_empty_handed i_try trace trains :
  search_result env (calls is_search trace) = inr trains →
  empty_handed rail_type (type options_ans) trains choice →
  cycle env rail_type debug passengers params choice options_ans i_try trace
  = (inr Continue,
     trace ++ [EvProgress i_try; EvSearch params (inr trains); EvSleep]).
Proof.
  intros Hsearch Hempty. unfold cycle, Eff.try_except.
  rewrite bind_run. unfold emit at 1, Eff.modify at 1.
  rewrite bind_run, search_train_run, calls_snoc, Nat.add_0_r, Hsearch.
  lazy beta iota zeta. rewrite bind_run, try_candidates_none by done.
  unfold Eff.ret at 1. unfold _sleep, emit, Eff.bind, Eff.modify, Eff.ret.
  by rewrite <- !app_assoc.
Qed.

(** A poll whose search fails in passing: progress, search, sleep. *)
Lemma cycle_transient i_try trace ex :
  search_result env (calls is_search trace) = inl ex →
  transient ex = true →
  cycle env rail_type debug passengers params choice options_ans i_try trace
  = (inr Continue,
     trace ++ [EvProgress i_try; EvSearch params (inl ex); EvSleep]).
Proof.
  intros Hsearch Htransient. unfold cycle, Eff.try_except.
  rewrite bind_run. unfold emit at 1, Eff.modify at 1.
  rewrite bind_run, search_train_run, calls_snoc, Nat.add_0_r, Hsearch.
  lazy beta iota zeta. rewrite transient_on_error by done.
  by rewrite <- !app_assoc.
Qed.

(** X16: a failure of the search that the loop knows as passing (sold out,
    waiting list closed or full, backend busy) costs one poll and nothing
    else: nothing is printed, sent or asked, the loop sleeps once and polls
    again. *)
Theorem transient_failure_costs_one_poll (ex : Exn) (fuel i_try : nat)
    (trace : list (Event Train)) :
  transient ex = true →
  search_result env (calls is_search trace) = inl ex →
  poll env rail_type debug passengers params choice options_ans
    (S fuel) i_try trace
  = poll env rail_type debug passengers params choice options_ans
      fuel (S i_try)
      (trace ++ [EvProgress (S i_try); EvSearch params (inl ex); EvSleep]).
Proof.
  intros Htransient Hsearch. cbn [poll].
  by rewrite bind_run, (cycle_transient _ _ ex).
Qed.

(** [_reserve] when the backend accepts, no payment was asked for and the
    notification goes through. *)
Lemma reserve_plain train trace ret :
  reserve_result env (calls is_reserve trace) = inr ret →
  pay options_ans = false →
  send_result env (calls is_send trace) = None →
  _reserve env passengers options_ans train trace
  = (inr tt,
     trace ++ [EvReserve train passengers (type options_ans) (inr ret);
               EvPrint (nl +:+ nl +:+ "🎫 🎉 예매 성공!!! 🎉 🎫" +:+ nl
                        +:+ reservation_text ret +:+ nl);
               EvSend (reservation_text ret) None]).
Proof.
  intros Hreserve Hpay Hsend. unfold _reserve.
  rewrite bind_run, rail_reserve_run, Hreserve. lazy beta iota zeta.
  rewrite Hpay. cbn [andb].
  unfold print, tgprintf, emit, Eff.bind, Eff.modify, Eff.gets, Eff.ret.
  rewrite !calls_snoc. cbn [is_send]. rewrite !Nat.add_0_r, Hsend.
  by rewrite <- !app_assoc.
Qed.

(** A poll that finds a seat: progress, search, and [_reserve] for the
    first selected candidate that satisfies the seat predicate. *)
Lemma cycle_hit i_try trace trains before i after train ret :
  search_result env (calls is_search trace) = inr trains →
  choice = before ++ i :: after →
  empty_handed rail_type (type options_ans) trains before →
  trains !! i = Some train →
  _is_seat_available train (type options_ans) rail_type = true →
  reserve_result env (calls is_reserve trace) = inr ret →
  pay options_ans = false →
  send_result env (calls is_send trace) = None →
  cycle env rail_type debug passengers params choice options_ans i_try trace
  = (inr Return,
     trace ++ [EvProgress i_try; EvSearch params (inr trains);
               EvReserve train passengers (type options_ans) (inr ret);
               EvPrint (nl +:+ nl +:+ "🎫 🎉 예매 성공!!! 🎉 🎫" +:+ nl
                        +:+ reservation_text ret +:+ nl);
               EvSend (reservation_text ret) None]).
Proof.
  intros Hsearch -> Hbefore Htrain Hseat Hreserve Hpay Hsend.
  unfold cycle, Eff.try_except.
  rewrite bind_run. unfold emit at 1, Eff.modify at 1.
  rewrite bind_run, search_train_run, calls_snoc, Nat.add_0_r, Hsearch.
  lazy beta iota zeta.
  rewrite bind_run, (try_candidates_first _ _ _ _ _ before i after train)
    by done.
  rewrite bind_run, (reserve_plain train _ ret);
    [ | rewrite !calls_snoc; cbn; by rewrite !Nat.add_0_r | done
      | rewrite !calls_snoc; cbn; by rewrite !Nat.add_0_r ].
  unfold Eff.ret. by rewrite <- !app_assoc.
Qed.

(** X17: the loop waits for a seat and takes the first one.  If the next [k]
    polls find no selected candidate that satisfies the seat predicate and
    the poll after them does, then (the backend accepting the reservation,
    no payment asked for, the notification going through) the loop makes
    exactly those [k + 1] searches, sleeps once after each of the first
    [k], reserves the first selected candidate that satisfies the predicate
    and nothing else, and returns. *)
Theorem first_seat_is_reserved (k fuel i_try : nat)
    (trace : list (Event Train)) (trains : list Train)
    (before after : list nat) (i : nat) (train : Train) (ret : Reservation) :
  (∀ j, j < k →
     ∃ found, search_result env (calls is_search trace + j) = inr found
              ∧ empty_handed rail_type (type options_ans) found choice) →
  search_result env (calls is_search trace + k) = inr trains →
  choice = before ++ i :: after →
  empty_handed rail_type (type options_ans) trains before →
  trains !! i = Some train →
  _is_seat_available train (type options_ans) rail_type = true →
  reserve_result env (calls is_reserve trace) = inr ret →
  pay options_ans = false →
  send_result env (calls is_send trace) = None →
  k < fuel →
  ∃ added,
    poll env rail_type debug passengers params choice options_ans
      fuel i_try trace = (inr Returned, trace ++ added)
    ∧ calls is_search added = S k
    ∧ calls is_sleep added = k
    ∧ List.filter is_reserve added
      = [EvReserve train passengers (type options_ans) (inr ret)].
Proof.
  intros Hempty Hsearch Hchoice Hbefore Htrain Hseat Hreserve Hpay Hsend.
  revert fuel i_try trace Hempty Hsearch Hreserve Hsend.
  induction k as [|k IH]; intros fuel i_try trace Hempty Hsearch Hreserve
    Hsend Hfuel; (destruct fuel as [|fuel]; [lia|]); cbn [poll].
  - rewrite Nat.add_0_r in Hsearch.
    rewrite bind_run,
      (cycle_hit _ _ trains before i after train ret) by done.
    eexists. split; [reflexivity|]. by cbn.
  - destruct (Hempty 0) as (found & Hfound & Hnone); [lia|].
    rewrite Nat.add_0_r in Hfound.
    rewrite bind_run, (cycle_empty_handed _ _ found) by done.
    destruct (IH fuel (S i_try)
                (trace ++ [EvProgress (S i_try); EvSearch params (inr found);
                           EvSleep]))
      as (added & Hpoll & Hsearches & Hsleeps & Hreserves).
    + intros j Hj. rewrite calls_app. cbn.
      replace (calls is_search trace + 1 + j) with (calls is_search trace + S j)
        by lia.
      apply Hempty. lia.
    + rewrite calls_app. cbn.
      by replace (calls is_search trace + 1 + k)
        with (calls is_search trace + S k) by lia.
    + rewrite calls_app. cbn. by rewrite Nat.add_0_r.
    + rewrite calls_app. cbn. by rewrite Nat.add_0_r.
    + lia.
    + exists ([EvProgress (S i_try); EvSearch params (inr found); EvSleep]
              ++ added).
      split; [by rewrite Hpoll, <- app_assoc|].
      rewrite !calls_app, List.filter_app, Hsearches, Hsleeps, Hreserves.
      by cbn.
Qed.
End Waiting.

(** *** Pacing *)

Definition no_search (e : Event Train) : Prop := is_search e = false.

Lemma paced_quiet rested l more :
  Forall no_search l →
  paced rested (l ++ more) = paced (rested || existsb is_pause l) more.
Proof.
  intros Hl. revert rested. induction Hl as [|e l He _ IH]; intros rested.
  { cbn. by rewrite orb_false_r. }
  cbn [app paced existsb]. rewrite He, IH. by rewrite orb_assoc.
Qed.

Lemma adds_unique {A} (m : Eff.M (list (Event Train)) Exn A) trace l1 l2 :
  (m trace).2 = trace ++ l1 → (m trace).2 = trace ++ l2 → l1 = l2.
Proof. intros -> Heq. by apply app_inv_head in Heq. Qed.

(** Whenever [m] returns a value that satisfies [C], it has paused. *)
Definition rests {A} (C : A → Prop)
    (m : Eff.M (list (Event Train)) Exn A) : Prop :=
  ∀ trace a, (m trace).1 = inr a → C a →
    ∃ added, (m trace).2 = trace ++ added ∧ existsb is_pause added = true.

Definition anything (e : Event Train) : Prop := True.

Lemma rests_raise {A} (C : A → Prop) ex : rests C (Eff.raise ex).
Proof. by intros trace a. Qed.

Lemma rests_ret_not {A} (C : A → Prop) a : ¬ C a → rests C (Eff.ret a).
Proof. intros Hnot trace a' [= <-] Ha. by destruct Hnot. Qed.

Lemma rests_emit (C : unit → Prop) e :
  is_pause e = true → rests C (emit e).
Proof.
  intros He trace a _ _. exists [e]. split; [done|]. cbn. by rewrite He.
Qed.

Lemma rests_left {A B} (C : B → Prop) (m : Eff.M _ Exn A)
    (k : A → Eff.M _ Exn B) :
  rests (λ _, True) m → (∀ a, adds anything (k a)) →
  rests C (let* a := m in k a).
Proof.
  intros Hm Hk trace b. rewrite bind_run.
  specialize (Hm trace). destruct (m trace) as [[ex|a] trace1]; [done|].
  destruct (Hm a eq_refl I) as (added1 & Htrace1 & Hpause).
  cbn in Htrace1. subst trace1.
  destruct (Hk a (trace ++ added1)) as (added2 & Htrace2 & _).
  intros _ _. exists (added1 ++ added2).
  split; [by rewrite Htrace2, app_assoc|].
  by rewrite existsb_app, Hpause.
Qed.

Lemma rests_right {A B} (C : B → Prop) (m : Eff.M _ Exn A)
    (k : A → Eff.M _ Exn B) :
  adds anything m → (∀ a, rests C (k a)) →
  rests C (let* a := m in k a).
Proof.
  intros Hm Hk trace b. rewrite bind_run.
  destruct (Hm trace) as (added1 & Htrace1 & _).
  destruct (m trace) as [[ex|a] trace1]; [done|].
  cbn in Htrace1. subst trace1. intros Hb HC.
  destruct (Hk a (trace ++ added1) b Hb HC) as (added2 & Htrace2 & Hpause).
  exists (added1 ++ added2). split; [by rewrite Htrace2, app_assoc|].
  by rewrite existsb_app, Hpause, orb_true_r.
Qed.

Ltac appends := adds_by ltac:(exact I).

Ltac rests :=
  first
    [ apply rests_raise
    | apply rests_ret_not; discriminate
    | apply rests_emit; reflexivity
    | match goal with
      | |- rests _ (if ?b then _ else _) => destruct b; rests
      | |- rests _ (match ?x with Some _ => _ | None => _ end) =>
        destruct x; rests
      end
    | solve [apply rests_left; [rests | intros ?; appends]]
    | solve [apply rests_right; [appends | intros ?; rests]] ].

Lemma on_error_rests ex :
  rests (λ flow, flow = Continue) (on_error env debug ex).
Proof.
  destruct ex;
    unfold on_error, _handle_error, debug_print, print, tgprintf, confirm,
      login, _sleep;
    cbn zeta; rests.
Qed.

(** Both at once: [m] appends no search, and has paused whenever it
    returns a value that satisfies [C]. *)
Lemma calm_run {A} (C : A → Prop) (m : Eff.M (list (Event Train)) Exn A)
    trace :
  adds no_search m → rests C m →
  ∃ added,
    (m trace).2 = trace ++ added
    ∧ Forall no_search added
    ∧ (∀ a, (m trace).1 = inr a → C a → existsb is_pause added = true).
Proof.
  intros Hadds Hrests. destruct (Hadds trace) as (added & Htrace & Hquiet).
  exists added. split; [done|]. split; [done|]. intros a Ha HC.
  destruct (Hrests trace a Ha HC) as (added' & Htrace' & Hpause).
  by rewrite (adds_unique m trace added added').
Qed.

Section Paced.
Variable passengers : list Passenger.
Variable params : SearchParams.
Variable choice : list nat.
Variable options_ans : OptionsAns.

(** One turn of the loop searches once, at its start, and does not hand
    over to the next turn without a pause. *)
Lemma cycle_paced i_try trace :
  let '(res, trace') :=
    cycle env rail_type debug passengers params choice options_ans
      i_try trace in
  ∃ r rest,
    trace' = trace ++ EvProgress i_try :: EvSearch params r :: rest
    ∧ Forall no_search rest
    ∧ (res = inr Continue → existsb is_pause rest = true).
Proof.
  unfold cycle, Eff.try_except.
  rewrite bind_run. unfold emit at 1, Eff.modify at 1.
  rewrite bind_run, search_train_run. lazy beta iota zeta.
  set (r := search_result env _). set (trace1 := (trace ++ _) ++ _).
  assert (∀ ex, adds no_search (on_error env debug ex)) as Hquiet.
  { intros ex. eapply adds_impl; [|apply on_error_aside]. by intros e [? _]. }
  destruct r as [ex|trains] eqn:Hr; cbn [result Eff.raise Eff.ret].
  { destruct (calm_run (λ flow, flow = Continue) (on_error env debug ex)
                trace1 (Hquiet ex) (on_error_rests ex))
      as (added & Htrace & Hadded & Hpause).
    destruct (on_error env debug ex trace1) as [res trace2].
    cbn in Htrace, Hpause. subst trace2. exists (inl ex), added. unfold trace1.
    split; [by rewrite <- !app_assoc|]. split; [done|].
    intros ->. by apply (Hpause Continue). }
  match goal with |- context [match ?m trace1 with _ => _ end] =>
    destruct (calm_run (λ flow, flow = Continue) m trace1)
      as (added & Htrace & Hadded & Hpause);
    [ | | destruct (m trace1) as [[ex|flow] trace2]; cbn in Htrace, Hpause;
          subst trace2 ]
  end.
  - apply adds_bind.
    + apply try_candidates_adds; [done|]. by intros e [? _].
    + intros []; unfold _sleep; adds_by ltac:(reflexivity).
  - apply rests_right.
    + eapply adds_impl; [|apply (try_candidates_adds _ _ anything)]; done.
    + intros []; unfold _sleep; rests.
  - destruct (calm_run (λ flow, flow = Continue) (on_error env debug ex)
                (trace1 ++ added) (Hquiet ex) (on_error_rests ex))
      as (added2 & Htrace2 & Hadded2 & Hpause2).
    destruct (on_error env debug ex (trace1 ++ added)) as [res trace3].
    cbn in Htrace2, Hpause2. subst trace3.
    exists (inr trains), (added ++ added2). unfold trace1.
    split; [by rewrite <- !app_assoc|]. split; [by apply Forall_app|].
    intros ->. by rewrite existsb_app, (Hpause2 Continue), orb_true_r.
  - exists (inr trains), added. unfold trace1.
    split; [by rewrite <- !app_assoc|]. split; [done|].
    intros [= ->]. by apply (Hpause Continue).
Qed.

(** X18: the loop is paced.  Between one search of the polling loop and the
    next the engine always sleeps or waits for the user's confirmation:
    whatever the backend, the notification channel and the user do, no turn
    of the loop hands over to the next without a pause. *)
Theorem polls_are_paced (fuel i_try : nat) (trace : list (Event Train)) :
  ∃ added,
    (poll env rail_type debug passengers params choice options_ans
       fuel i_try trace).2 = trace ++ added
    ∧ paced true added = true.
Proof.
  revert i_try trace. induction fuel as [|fuel IH]; intros i_try trace.
  { exists []. by rewrite app_nil_r. }
  cbn [poll]. rewrite bind_run.
  pose proof (cycle_paced (S i_try) trace) as Hcycle.
  destruct (cycle _ _ _ _ _ _ _ _ trace) as [[ex|flow] trace1];
    destruct Hcycle as (r & rest & -> & Hquiet & Hpause).
  - eexists. split; [reflexivity|]. cbn.
    rewrite <- (app_nil_r rest), paced_quiet by done. done.
  - destruct flow.
    + destruct (IH (S i_try)
                  (trace ++ EvProgress (S i_try) :: EvSearch params r :: rest))
        as (added & Hpoll & Hpaced).
      exists (EvProgress (S i_try) :: EvSearch params r :: rest ++ added).
      split.
      { rewrite Hpoll, <- app_assoc. done. }
      cbn. rewrite paced_quiet, Hpause by done. done.
    + eexists. split; [reflexivity|]. cbn.
      rewrite <- (app_nil_r rest), paced_quiet by done. done.
Qed.
End Paced.
End Traces.

(** ** The stored options *)

Lemma str_in_comma (c : ascii) (rest : string) :
  str_in "," (String c rest) = Ascii.eqb c "," || str_in "," rest.
Proof.
  cbn [str_in String.prefix]. destruct (ascii_dec "," c) as [<-|Hne].
  - by destruct rest.
  - cbn. destruct (Ascii.eqb_spec c ","); [by subst|done].
Qed.

Lemma split_comma_cons (item : string) :
  str_in "," item = false → ∀ rest,
  split_comma (item +:+ "," +:+ rest) = item :: split_comma rest.
Proof.
  induction item as [|c item IH]; intros Hitem rest.
  { done. }
  rewrite str_in_comma in Hitem. apply orb_false_elim in Hitem as [Hc Hitem].
  change (String c item +:+ "," +:+ rest)
    with (String c (item +:+ "," +:+ rest)).
  cbn [split_comma]. rewrite Hc, IH by done. done.
Qed.

Lemma split_comma_one (item : string) :
  str_in "," item = false → split_comma item = [item].
Proof.
  induction item as [|c item IH]; intros Hitem; [done|].
  rewrite str_in_comma in Hitem. apply orb_false_elim in Hitem as [Hc Hitem].
  cbn [split_comma]. by rewrite Hc, IH.
Qed.

Lemma split_join_comma (items : list string) :
  Forall (λ item, str_in "," item = false) items →
  items ≠ [] →
  split_comma (join_comma items) = items.
Proof.
  induction 1 as [|item rest Hitem Hrest IH]; [done|]. intros _.
  destruct rest as [|next rest]; cbn [join_comma].
  - by apply split_comma_one.
  - rewrite split_comma_cons by done. f_equal. by apply IH.
Qed.

(** X19: what [set_options] stores, [get_options] reads back.  For any
    selection of options that are not empty and contain no comma (the five
    the prompt offers are such), the list that [get_options] makes of the
    text [set_options] stored is that selection; nothing stored and the
    empty text both read as no option. *)
Theorem stored_options_read_back (options : list string) :
  Forall (λ option, option ≠ "" ∧ str_in "," option = false) options →
  ∃ text,
    set_options (Some options) = Some ("SRT", "options", text)
    ∧ get_options (Some text) = options
    ∧ get_options None = [] ∧ get_options (Some "") = [].
Proof.
  intros Hoptions. exists (join_comma options). split; [done|].
  split; [|done]. unfold get_options. cbn [default].
  destruct options as [|option rest]; [done|].
  assert (split_comma (join_comma (option :: rest)) = option :: rest) as Hsplit.
  { apply split_join_comma; [|done].
    eapply Forall_impl; [done|]. by intros o [_ ?]. }
  apply Forall_cons in Hoptions as [[Hne _] _].
  destruct (join_comma (option :: rest)) as [|c text] eqn:Hjoin; [|done].
  destruct option; [done|]. by destruct rest.
Qed.

(** ** Looking at and cancelling what was booked *)

Section DeskSpec.
Variable desk : Desk.
Variable rail_type : string.

(** What a call leaves behind when it took something back: the prompt with
    what it offered, the confirmation, and the refund or the cancellation
    of the entry that was picked. *)
Definition taken_back (added : list DeskEvent) : Prop :=
  ∃ before turn reservations tickets i booking is_ticket,
    added = before ++
      [DeskPick (gather tickets reservations) (Some i); DeskConfirm true;
       if is_ticket : bool then DeskRefund booking (refund_result desk)
       else DeskCancel booking (cancel_result desk)]
    ∧ Forall (λ e, is_undo e = false) before
    ∧ fetch_reservations desk turn = inr reservations
    ∧ (if String.eqb rail_type "SRT" then tickets = []
       else fetch_tickets desk turn = inr tickets)
    ∧ py_index (gather tickets reservations) i = inr (booking, is_ticket).

Lemma taken_back_app (quiet added : list DeskEvent) :
  Forall (λ e, is_undo e = false) quiet → taken_back added →
  taken_back (quiet ++ added).
Proof.
  intros Hq (before & turn & rs & ts & i & b & t & -> & Hb & H).
  exists (quiet ++ before), turn, rs, ts, i, b, t.
  split; [by rewrite app_assoc|]. split; [by apply Forall_app|done].
Qed.

Lemma desk_turn_shape (turn : nat) (trace : list DeskEvent) :
  ∃ added, (desk_turn desk rail_type turn trace).2 = trace ++ added
    ∧ (Forall (λ e, is_undo e = false) added
       ∨ (taken_back added
          ∧ (desk_turn desk rail_type turn trace).1 ≠ inr Continue)).
Proof.
  unfold desk_turn, taken_back, outcome, replied, note, Eff.bind, Eff.modify,
    Eff.ret, Eff.raise.
  destruct (fetch_reservations desk turn) as [ex|reservations] eqn:Hr.
  { exists [DeskFetch (inl ex)]. split; [done|]. left. by repeat constructor. }
  destruct (String.eqb rail_type "SRT") eqn:Hrail.
  - set (tickets := @nil Booking).
    repeat (case_match; simplify_eq; cbn [fst snd]);
      rewrite <- ?app_assoc; cbn [app];
      (eexists; split; [reflexivity|]);
      try (left; by repeat constructor).
    all: right; (split; [|done]).
    all: exists [DeskFetch (inr reservations)], turn, reservations, tickets.
    all: match goal with H : py_index _ ?i = inr (?b, ?t) |- _ => exists i, b, t end.
    all: split; [reflexivity|].
    all: repeat split; try done; by repeat constructor.
  - destruct (fetch_tickets desk turn) as [ex|tickets] eqn:Ht.
    { eexists. rewrite <- app_assoc. split; [done|]. left. by repeat constructor. }
    repeat (case_match; simplify_eq; cbn [fst snd]);
      rewrite <- ?app_assoc; cbn [app];
      (eexists; split; [reflexivity|]);
      try (left; by repeat constructor).
    all: right; (split; [|done]).
    all: exists [DeskFetch (inr reservations); DeskFetchTickets (inr tickets)],
           turn, reservations, tickets.
    all: match goal with H : py_index _ ?i = inr (?b, ?t) |- _ => exists i, b, t end.
    all: split; [reflexivity|].
    all: repeat split; try done; by repeat constructor.
Qed.

Lemma desk_loop_shape (fuel turn : nat) (trace : list DeskEvent) :
  ∃ added, (desk_loop desk rail_type fuel turn trace).2 = trace ++ added
    ∧ (Forall (λ e, is_undo e = false) added ∨ taken_back added).
Proof.
  revert turn trace. induction fuel as [|fuel IH]; intros turn trace.
  { exists []. split; [by rewrite app_nil_r|]. by left. }
  cbn [desk_loop]. unfold Eff.bind at 1.
  destruct (desk_turn_shape turn trace) as (added & Hadded & Hshape).
  destruct (desk_turn desk rail_type turn trace) as [[ex|flow] trace'].
  all: cbn [fst snd] in Hadded, Hshape; subst trace'.
  - exists added. split; [done|]. destruct Hshape as [?|[? _]]; auto.
  - destruct flow.
    + destruct Hshape as [Hquiet|[_ ?]]; [|done].
      destruct (IH (S turn) (trace ++ added)) as (more & -> & Hmore).
      exists (added ++ more). split; [by rewrite app_assoc|].
      destruct Hmore as [Hmore|Hmore].
      * left. by apply Forall_app.
      * right. by apply taken_back_app.
    + exists added. split; [done|]. destruct Hshape as [?|[? _]]; auto.
Qed.

(** X20: a call of [check_reservation] refunds or cancels at most once, and
    only as the last thing it does: right after a prompt answered with an
    entry and a confirmation answered with yes, and for the entry of that
    answer in the list that was on offer, made of what the client returned
    in that turn. *)
Theorem takes_back_once_and_last (fuel : nat) (trace : list DeskEvent) :
  ∃ added, (check_reservation desk rail_type fuel trace).2 = trace ++ added
    ∧ (Forall (λ e, is_undo e = false) added ∨ taken_back added).
Proof.
  unfold check_reservation, note, outcome, Eff.bind at 1 2, Eff.modify.
  destruct (desk_login desk) as [ex|].
  { exists [DeskLogin]. split; [done|]. left. by repeat constructor. }
  cbn [Eff.ret].
  destruct (desk_loop_shape fuel 0 (trace ++ [DeskLogin])) as (added & -> & H).
  exists (DeskLogin :: added). split; [by rewrite <- app_assoc|].
  destruct H as [H|H].
  - left. by constructor.
  - right. by apply (taken_back_app [DeskLogin]); [repeat constructor|].
Qed.
Lemma py_index_elem {A} (l : list A) (i : Z) (a : A) :
  py_index l i = inr a → a ∈ l.
Proof.
  unfold py_index. repeat case_match; try done.
  all: intros [= <-]; by eapply list_elem_of_lookup_2.
Qed.

Lemma gather_elem (tickets reservations : list Booking) booking is_ticket :
  (booking, is_ticket) ∈ gather tickets reservations →
  (booking ∈ tickets ∧ is_ticket = true)
  ∨ (booking ∈ reservations ∧ is_ticket = bool_decide (paid booking = Some true)).
Proof.
  unfold gather. rewrite elem_of_app, !list_elem_of_fmap.
  intros [(t & [= -> ->] & ?)|(r & [= -> ->] & ?)]; auto.
Qed.

Lemma taken_back_undo (added : list DeskEvent) (e : DeskEvent) :
  taken_back added → e ∈ added → is_undo e = true →
  ∃ turn reservations tickets booking is_ticket,
    e = (if is_ticket : bool then DeskRefund booking (refund_result desk)
         else DeskCancel booking (cancel_result desk))
    ∧ fetch_reservations desk turn = inr reservations
    ∧ (if String.eqb rail_type "SRT" then tickets = []
       else fetch_tickets desk turn = inr tickets)
    ∧ (booking, is_ticket) ∈ gather tickets reservations.
Proof.
  intros (before & turn & rs & ts & i & b & t & -> & Hb & Hrs & Hts & Hi) He Hundo.
  exists turn, rs, ts, b, t. apply py_index_elem in Hi.
  split; [|done].
  apply elem_of_app in He as [He|He].
  { rewrite Forall_forall in Hb. apply Hb in He. congruence. }
  rewrite !elem_of_cons in He. destruct He as [->|[->|[->|He]]]; try done.
  by apply elem_of_nil in He.
Qed.

(** X21: [check_reservation] asks for a refund only of a ticket or of a
    reservation that is paid, and for a cancellation only of a reservation
    that is not paid; either way of a booking the client returned in a turn
    of this call, and tickets come up with KTX only. *)
Theorem refunds_paid_cancels_unpaid (fuel : nat) (e : DeskEvent) :
  e ∈ (check_reservation desk rail_type fuel []).2 →
  match e with
  | DeskRefund booking _ =>
    ∃ turn,
      (∃ tickets, String.eqb rail_type "SRT" = false
         ∧ fetch_tickets desk turn = inr tickets ∧ booking ∈ tickets)
      ∨ (∃ reservations, fetch_reservations desk turn = inr reservations
           ∧ booking ∈ reservations ∧ paid booking = Some true)
  | DeskCancel booking _ =>
    ∃ turn reservations, fetch_reservations desk turn = inr reservations
      ∧ booking ∈ reservations ∧ paid booking ≠ Some true
  | _ => True
  end.
Proof.
  unfold check_reservation, note, outcome, Eff.bind at 1 2, Eff.modify.
  cbn [app]. intros He.
  assert (is_undo e = true →
          ∃ added, e ∈ added ∧ taken_back added) as Hadded.
  { intros Hundo. destruct (desk_login desk) as [ex|].
    { cbn in He. apply list_elem_of_singleton in He. by subst e. }
    cbn [Eff.ret] in He.
    destruct (desk_loop_shape fuel 0 [DeskLogin]) as (added & Heq & Hshape).
    rewrite Heq in He. exists added.
    apply elem_of_cons in He as [->|He]; [done|]. split; [done|].
    destruct Hshape as [Hquiet|?]; [|done].
    rewrite Forall_forall in Hquiet. apply Hquiet in He. congruence. }
  destruct e as [| | | | | |booking r|booking r|]; try done.
  - destruct Hadded as (added & Hin & Htaken); [done|].
    destruct (taken_back_undo _ _ Htaken Hin eq_refl)
      as (turn & rs & ts & b & t & Heq & Hrs & Hts & Hel).
    destruct t; [|done]. injection Heq as -> _.
    exists turn. apply gather_elem in Hel as [[Hel _]|[Hel Hpaid]].
    + left. exists ts. destruct (String.eqb rail_type "SRT").
      * subst ts. by apply elem_of_nil in Hel.
      * done.
    + right. exists rs. symmetry in Hpaid. by apply bool_decide_eq_true in Hpaid.
  - destruct Hadded as (added & Hin & Htaken); [done|].
    destruct (taken_back_undo _ _ Htaken Hin eq_refl)
      as (turn & rs & ts & b & t & Heq & Hrs & Hts & Hel).
    destruct t; [done|]. injection Heq as -> _.
    exists turn, rs. apply gather_elem in Hel as [[_ ?]|[Hel Hpaid]]; [done|].
    symmetry in Hpaid. by apply bool_decide_eq_false in Hpaid.
Qed.

Definition declined (turn : nat) : Prop :=
  ∃ reservations tickets i,
    fetch_reservations desk turn = inr reservations
    ∧ (if String.eqb rail_type "SRT" then tickets = []
       else fetch_tickets desk turn = inr tickets)
    ∧ no_items reservations && no_items tickets = false
    ∧ picked desk turn = Some i ∧ i ≠ (-1)%Z ∧ i ≠ (-2)%Z
    ∧ sure desk turn = false.

Lemma filter_quiet (quiet : list DeskEvent) :
  Forall (λ e, is_undo e = false) quiet → List.filter is_undo quiet = [].
Proof.
  induction 1 as [|e quiet He _ IH]; [done|]. cbn. by rewrite He.
Qed.

Lemma desk_turn_declined (turn : nat) (trace : list DeskEvent) :
  declined turn →
  ∃ added, desk_turn desk rail_type turn trace = (inr Continue, trace ++ added)
    ∧ Forall (λ e, is_undo e = false) added
    ∧ length (List.filter is_pick added) = 1.
Proof.
  intros (rs & ts & i & Hrs & Hts & Hsome & Hpick & Hi1 & Hi2 & Hsure).
  unfold desk_turn, replied, note, Eff.bind, Eff.modify, Eff.ret.
  rewrite Hrs. destruct (String.eqb rail_type "SRT").
  - subst ts. rewrite Hsome, Hpick, Hsure.
    destruct (Z.eqb_spec i (-1)); [done|]. destruct (Z.eqb_spec i (-2)); [done|].
    rewrite <- !app_assoc. eexists. split; [reflexivity|].
    split; [by repeat constructor|done].
  - rewrite Hts, Hsome, Hpick, Hsure.
    destruct (Z.eqb_spec i (-1)); [done|]. destruct (Z.eqb_spec i (-2)); [done|].
    rewrite <- !app_assoc. eexists. split; [reflexivity|].
    split; [by repeat constructor|done].
Qed.

Lemma desk_turn_confirmed (turn : nat) (trace : list DeskEvent)
    reservations tickets i booking is_ticket :
  fetch_reservations desk turn = inr reservations →
  (if String.eqb rail_type "SRT" then tickets = []
   else fetch_tickets desk turn = inr tickets) →
  picked desk turn = Some i → (0 ≤ i)%Z →
  gather tickets reservations !! Z.to_nat i = Some (booking, is_ticket) →
  sure desk turn = true →
  (if is_ticket : bool then refund_result desk else cancel_result desk) = None →
  ∃ added, desk_turn desk rail_type turn trace = (inr Return, trace ++ added)
    ∧ List.filter is_undo added
      = [if is_ticket then DeskRefund booking None else DeskCancel booking None]
    ∧ length (List.filter is_pick added) = 1.
Proof.
  intros Hrs Hts Hpick Hi Hlook Hsure Hres.
  assert (py_index (gather tickets reservations) i = inr (booking, is_ticket))
    as Hindex.
  { unfold py_index. apply lookup_lt_Some in Hlook as Hlt.
    destruct (Z.ltb_spec i 0); [lia|].
    destruct (Z.leb_spec 0 i); [|lia].
    destruct (Z.ltb_spec i (Z.of_nat (length (gather tickets reservations))));
      [|lia].
    cbn [andb]. by rewrite Hlook. }
  assert (no_items reservations && no_items tickets = false) as Hsome.
  { by destruct reservations, tickets. }
  unfold desk_turn, replied, note, outcome, Eff.bind, Eff.modify, Eff.ret.
  rewrite Hrs. destruct (String.eqb rail_type "SRT").
  - subst tickets. rewrite Hsome, Hpick, Hsure, Hindex.
    destruct (Z.eqb_spec i (-1)); [lia|]. destruct (Z.eqb_spec i (-2)); [lia|].
    destruct is_ticket; rewrite Hres, <- !app_assoc.
    all: eexists; split; [reflexivity|done].
  - rewrite Hts, Hsome, Hpick, Hsure, Hindex.
    destruct (Z.eqb_spec i (-1)); [lia|]. destruct (Z.eqb_spec i (-2)); [lia|].
    destruct is_ticket; rewrite Hres, <- !app_assoc.
    all: eexists; split; [reflexivity|done].
Qed.

Lemma desk_loop_confirmed (k fuel turn : nat) (trace : list DeskEvent)
    reservations tickets i booking is_ticket :
  (∀ j, (j < k)%nat → declined (turn + j)) →
  fetch_reservations desk (turn + k) = inr reservations →
  (if String.eqb rail_type "SRT" then tickets = []
   else fetch_tickets desk (turn + k) = inr tickets) →
  picked desk (turn + k) = Some i → (0 ≤ i)%Z →
  gather tickets reservations !! Z.to_nat i = Some (booking, is_ticket) →
  sure desk (turn + k) = true →
  (if is_ticket : bool then refund_result desk else cancel_result desk) = None →
  (k < fuel)%nat →
  ∃ added, desk_loop desk rail_type fuel turn trace = (inr Returned, trace ++ added)
    ∧ List.filter is_undo added
      = [if is_ticket then DeskRefund booking None else DeskCancel booking None]
    ∧ length (List.filter is_pick added) = S k.
Proof.
  revert fuel turn trace.
  induction k as [|k IH]; intros fuel turn trace Hdecl Hrs Hts Hpick Hi Hlook
    Hsure Hres Hfuel.
  - destruct fuel as [|fuel]; [lia|]. rewrite Nat.add_0_r in *.
    destruct (desk_turn_confirmed turn trace _ _ _ _ _ Hrs Hts Hpick Hi Hlook
                Hsure Hres) as (added & Hturn & Hundo & Hpicks).
    exists added. cbn [desk_loop]. unfold Eff.bind. by rewrite Hturn.
  - destruct fuel as [|fuel]; [lia|].
    destruct (desk_turn_declined turn trace) as (quiet & Hturn & Hquiet & Hone).
    { rewrite <- (Nat.add_0_r turn). apply Hdecl. lia. }
    replace (turn + S k)%nat with (S turn + k)%nat in * by lia.
    destruct (IH fuel (S turn) (trace ++ quiet)) as (added & Hloop & Hundo & Hpicks);
      try done; [|lia|].
    { intros j Hj. replace (S turn + j)%nat with (turn + S j)%nat by lia.
      apply Hdecl. lia. }
    exists (quiet ++ added). cbn [desk_loop]. unfold Eff.bind at 1.
    rewrite Hturn, Hloop, app_assoc. split; [done|].
    rewrite !List.filter_app, length_app, Hundo, Hpicks, Hone. split; [|done].
    by rewrite (filter_quiet quiet).
Qed.
(** X22: when the prompt is answered with an entry and the confirmation
    with no for [k] turns, and then with an entry of the list on offer and
    yes, [check_reservation] returns having refunded that entry if it is a
    ticket or a paid reservation and cancelled it if not, once, after
    [k + 1] prompts. *)
Theorem confirmed_pick_is_taken_back (k fuel : nat)
    (reservations tickets : list Booking) (i : Z) (booking : Booking)
    (is_ticket : bool) :
  desk_login desk = None →
  (∀ j, (j < k)%nat → declined j) →
  fetch_reservations desk k = inr reservations →
  (if String.eqb rail_type "SRT" then tickets = []
   else fetch_tickets desk k = inr tickets) →
  picked desk k = Some i → (0 ≤ i)%Z →
  gather tickets reservations !! Z.to_nat i = Some (booking, is_ticket) →
  sure desk k = true →
  (if is_ticket then refund_result desk else cancel_result desk) = None →
  (k < fuel)%nat →
  ∃ added,
    check_reservation desk rail_type fuel [] = (inr Returned, added)
    ∧ List.filter is_undo added
      = [if is_ticket then DeskRefund booking None else DeskCancel booking None]
    ∧ length (List.filter is_pick added) = S k.
Proof.
  intros Hlogin Hdecl Hrs Hts Hpick Hi Hlook Hsure Hres Hfuel.
  destruct (desk_loop_confirmed k fuel 0 [DeskLogin] reservations tickets i
              booking is_ticket) as (added & Hloop & Hundo & Hpicks);
    try done.
  exists (DeskLogin :: added).
  unfold check_reservation, note, outcome, Eff.bind at 1 2, Eff.modify.
  rewrite Hlogin. cbn [app Eff.ret]. by rewrite Hloop.
Qed.
End DeskSpec.

(** ** The menu *)

(** What one turn of the menu adds: the answer at the menu and, if it
    dispatches, the rail prompt for the actions bound to a rail and the
    call of the action with that rail. *)
Definition menu_block (block : list FrontEvent) : Prop :=
  (∃ answer, block = [FrontMenu answer])
  ∨ (∃ answer rail, block = [FrontMenu answer; FrontRail rail]
       ∧ (rail = None ∨ rail = Some RailBack))
  ∨ (∃ choice rail r,
       block = [FrontMenu (Some choice); FrontRail (Some (Rail rail));
                FrontAction choice (Some rail) r]
       ∧ choice ∈ [1; 2; 3; 6; 7]%Z)
  ∨ (∃ choice r,
       block = [FrontMenu (Some choice); FrontAction choice None r]
       ∧ choice ∈ [4; 5; 8]%Z).

(** Every call of an action comes right after the prompts that chose it. *)
Definition dispatched (events : list FrontEvent) : Prop :=
  ∀ before choice rail_type r after,
    events = before ++ FrontAction choice rail_type r :: after →
    match rail_type with
    | Some rail =>
      choice ∈ [1; 2; 3; 6; 7]%Z
      ∧ ∃ earlier,
          before = earlier ++ [FrontMenu (Some choice);
                               FrontRail (Some (Rail rail))]
    | None =>
      choice ∈ [4; 5; 8]%Z
      ∧ ∃ earlier, before = earlier ++ [FrontMenu (Some choice)]
    end.

Lemma dispatched_nil : dispatched [].
Proof. intros [|? ?] ? ? ? ? [=]. Qed.

Lemma dispatched_app (events more : list FrontEvent) :
  dispatched events → dispatched more → dispatched (events ++ more).
Proof.
  intros Hevents Hmore before choice rail_type r after Heq.
  apply app_eq_inv in Heq as [(k & -> & Hk)|(k & -> & Hk)].
  - destruct k as [|e k].
    + cbn in Hk. subst more.
      specialize (Hmore [] choice rail_type r after eq_refl).
      by destruct rail_type, Hmore as [_ [[|? [|? [|? ?]]] ?]].
    + injection Hk as <- ->.
      by apply (Hevents before choice rail_type r k).
  - specialize (Hmore k choice rail_type r after Hk).
    destruct rail_type; destruct Hmore as [Hchoice [earlier ->]].
    all: split; [done|]; exists (events ++ earlier); by rewrite app_assoc.
Qed.

Lemma menu_block_dispatched (block : list FrontEvent) :
  menu_block block → dispatched block.
Proof.
  intros Hblock k choice rail_type r after Hk.
  destruct Hblock as [(answer & ->)|[(answer & rail & -> & _)
    |[(n & rail & r' & -> & Hn)|(n & r' & -> & Hn)]]].
  - destruct k as [|? [|? ?]]; discriminate Hk.
  - destruct k as [|? [|? [|? ?]]]; discriminate Hk.
  - destruct k as [|? [|? [|? [|? ?]]]]; try discriminate Hk.
    injection Hk as <- <- <- <-. split; [done|]. by exists [].
  - destruct k as [|? [|? [|? ?]]]; try discriminate Hk.
    injection Hk as <- <- <- <-. split; [done|]. by exists [].
Qed.

Section FrontSpec.
Variable front : Front.

Lemma menu_turn_shape (turn : nat) (trace : list FrontEvent) :
  ∃ added, (menu_turn front turn trace).2 = trace ++ added
    ∧ menu_block added
    ∧ ((menu_turn front turn trace).1 = inr MenuBreak →
       added = [FrontMenu (Some (-1)%Z)]).
Proof.
  unfold menu_turn, run_action, ACTIONS, rail_bound, front_note, Eff.bind,
    Eff.modify, Eff.ret, Eff.raise, menu_block.
  case_bool_decide as Hexit.
  { rewrite Hexit. exists [FrontMenu (Some (-1)%Z)]. split; [done|].
    split; [by eauto|done]. }
  destruct (menu_choice front turn) as [n|].
  2:{ exists [FrontMenu None]. split; [done|]. split; [by eauto|done]. }
  case_bool_decide as Hbound.
  - assert (n ∈ [1; 2; 3; 4; 5; 6; 7; 8]%Z) as Hin
      by (rewrite !elem_of_cons, elem_of_nil in *; tauto).
    rewrite (bool_decide_eq_true_2 _ Hin).
    destruct (rail_choice front turn) as [[rt|]|].
    + destruct (action_result front turn); rewrite <- !app_assoc.
      all: eexists; split; [reflexivity|]; split; [|done].
      all: right; right; left; by eauto.
    + rewrite <- !app_assoc. eexists. split; [reflexivity|].
      split; [right; left; by eauto|done].
    + rewrite <- !app_assoc. eexists. split; [reflexivity|].
      split; [right; left; by eauto|done].
  - case_bool_decide as Hin.
    + assert (n ∈ [4; 5; 8]%Z) as Hrest
        by (rewrite !elem_of_cons, elem_of_nil in *; tauto).
      destruct (action_result front turn); rewrite <- !app_assoc.
      all: eexists; split; [reflexivity|]; split; [|done].
      all: right; right; right; by eauto.
    + eexists. split; [reflexivity|]. split; [by eauto|done].
Qed.

(** X23: whatever is answered at its prompts, every call the menu makes of
    [reserve], [check_reservation], [set_login], [set_station] or
    [edit_station] comes right after the menu prompt that was answered with
    its number and the rail prompt, and passes the rail type answered
    there; every call of another action comes right after its menu prompt
    and passes no rail type.  The menu returns only on the answer -1 at the
    menu, which is then the last thing that happened. *)
Theorem menu_calls_with_the_rail_chosen (fuel : nat)
    (trace : list FrontEvent) :
  ∃ added, (srtgo front fuel trace).2 = trace ++ added
    ∧ (∀ before choice rail_type r after,
         added = before ++ FrontAction choice rail_type r :: after →
         match rail_type with
         | Some rail =>
           choice ∈ [1; 2; 3; 6; 7]%Z
           ∧ ∃ earlier,
               before = earlier ++ [FrontMenu (Some choice);
                                    FrontRail (Some (Rail rail))]
         | None =>
           choice ∈ [4; 5; 8]%Z
           ∧ ∃ earlier, before = earlier ++ [FrontMenu (Some choice)]
         end)
    ∧ ((srtgo front fuel trace).1 = inr Returned →
       ∃ before, added = before ++ [FrontMenu (Some (-1)%Z)]).
Proof.
  change (∃ added, (srtgo front fuel trace).2 = trace ++ added
            ∧ dispatched added
            ∧ ((srtgo front fuel trace).1 = inr Returned →
               ∃ before, added = before ++ [FrontMenu (Some (-1)%Z)])).
  unfold srtgo. generalize 0%nat as turn. revert trace.
  induction fuel as [|fuel IH]; intros trace turn.
  { exists []. cbn. rewrite app_nil_r. by split; [|split; [apply dispatched_nil|]]. }
  cbn [menu_loop]. unfold Eff.bind.
  destruct (menu_turn_shape turn trace) as (added & Hadded & Hblock & Hbreak).
  destruct (menu_turn front turn trace) as [[ex|flow] trace'].
  all: cbn [fst snd] in Hadded, Hbreak; subst trace'.
  all: pose proof (menu_block_dispatched added Hblock) as Hfirst.
  - by exists added.
  - destruct flow.
    + exists added. split; [done|]. split; [done|]. intros _. exists [].
      by rewrite Hbreak by done.
    + destruct (IH (trace ++ added) (S turn)) as (more & Hmore & Hwell & Hret).
      exists (added ++ more). rewrite Hmore, app_assoc. split; [done|].
      split.
      2:{ intros Hreturned. destruct (Hret Hreturned) as (before & ->).
          exists (added ++ before). by rewrite app_assoc. }
      by apply dispatched_app.
Qed.
End FrontSpec.

(** ** The engine, the desk and the options on concrete inputs *)

Section ConcreteEngine.
Import Scenario.

Example paced_wants_a_pause :
  paced true [EvSearch (Train := Candidate) one_adult_search (inr []);
              EvSearch one_adult_search (inr [])] = false
  ∧ paced true [EvSearch (Train := Candidate) one_adult_search (inr []);
                EvSleep; EvSearch one_adult_search (inr [])] = true.
Proof. by split. Qed.

Lemma undisturbed_run_commits_once_witness :
  (∀ n, send_result smooth n = None)
  ∧ (∀ n, ∃ paid, pay_result smooth n = inr paid)
  ∧ let '(r, trace) := reserve smooth "SRT" false 3 [] in
    (calls is_reserved trace ≤ 1)%nat
    ∧ (calls is_reserved trace = 1 →
       r = inr Returned ∧ calls is_search (since_reserved trace) = 0).
Proof.
  assert (∀ n, send_result smooth n = None) as Hsend by reflexivity.
  assert (∀ n, ∃ paid, pay_result smooth n = inr paid) as Hpay
    by (intros n; exists true; reflexivity).
  split; [exact Hsend|]. split; [exact Hpay|].
  exact (undisturbed_run_commits_once smooth false Hsend Hpay "SRT" 3).
Defined.

Lemma transient_failure_costs_one_poll_witness :
  transient (SRTError "잔여석없음") = true
  ∧ search_result always_sold_out 0 = inl (SRTError "잔여석없음")
  ∧ poll always_sold_out "SRT" false [(Adult, 1%Z)] one_adult_search [0]
      general_first 2 0 []
    = poll always_sold_out "SRT" false [(Adult, 1%Z)] one_adult_search [0]
        general_first 1 1
        [EvProgress 1; EvSearch one_adult_search (inl (SRTError "잔여석없음"));
         EvSleep].
Proof.
  split; [reflexivity|]. split; [reflexivity|].
  apply (transient_failure_costs_one_poll always_sold_out "SRT" false
           [(Adult, 1%Z)] one_adult_search [0] general_first
           (SRTError "잔여석없음") 1 0 []); reflexivity.
Defined.

Lemma first_seat_is_reserved_witness :
  (∀ j, (j < 2)%nat →
     ∃ found, search_result seat_at_third_poll (0 + j)
              = inr found
              ∧ empty_handed "SRT" GENERAL_FIRST found [0])
  ∧ ∃ added,
      poll seat_at_third_poll "SRT" false [(Adult, 1%Z)] one_adult_search [0]
        general_first 5 0 [] = (inr Returned, added)
      ∧ calls is_search added = 3
      ∧ calls is_sleep added = 2
      ∧ List.filter is_reserve added
        = [EvReserve general_seat [(Adult, 1%Z)] GENERAL_FIRST (inr ticket)].
Proof.
  assert (∀ j, (j < 2)%nat →
     ∃ found, search_result seat_at_third_poll (0 + j)
              = inr found
              ∧ empty_handed "SRT" GENERAL_FIRST found [0]) as Hwait.
  { intros j Hj. exists [sold_out]. split.
    - destruct j as [|[|j]]; [reflexivity..|lia].
    - apply Forall_cons. split; [by exists sold_out|by apply Forall_nil]. }
  split; [exact Hwait|].
  apply (first_seat_is_reserved seat_at_third_poll "SRT" false
           [(Adult, 1%Z)] one_adult_search [0] general_first 2 5 0 []
           [general_seat] [] [] 0 general_seat ticket Hwait);
    first [reflexivity | by apply Forall_nil | lia].
Defined.

Lemma searches_ask_what_was_entered_witness :
  let '(_, trace) := reserve smooth "SRT" false 2 [] in
  ∃ params r,
    EvSearch params r ∈ trace
    ∧ dep params = "수서" ∧ arr params = "부산"
    ∧ (1 ≤ head_count (search_passengers params) ≤ 9)%Z.
Proof.
  pose proof (searches_ask_what_was_entered smooth "SRT" false 2) as Hasked.
  destruct (reserve smooth "SRT" false 2 []) as [r trace] eqn:Hrun.
  vm_compute in Hrun. injection Hrun as <- <-.
  eexists _, _. split.
  { repeat first [apply list_elem_of_here | apply list_elem_of_further]. }
  edestruct Hasked as (info & Hinfo & Hdep & Harr & _ & _ & _ & _ & Hcount & _).
  { repeat first [apply list_elem_of_here | apply list_elem_of_further]. }
  injection Hinfo as <-. by rewrite Hdep, Harr.
Defined.

Lemma reserves_only_what_was_selected_witness :
  let '(_, trace) := reserve smooth "SRT" false 2 [] in
  ∃ train passengers option r,
    EvReserve train passengers option r ∈ trace
    ∧ _is_seat_available train option "SRT" = true
    ∧ ∃ selected params trains i,
        prompt_trains smooth = Some selected
        ∧ i ∈ selected
        ∧ EvSearch params (inr trains) ∈ trace
        ∧ trains !! i = Some train.
Proof.
  pose proof (reserves_only_what_was_selected smooth "SRT" false 2) as Honly.
  destruct (reserve smooth "SRT" false 2 []) as [r trace] eqn:Hrun.
  vm_compute in Hrun. injection Hrun as <- <-.
  eexists _, _, _, _. split.
  { repeat first [apply list_elem_of_here | apply list_elem_of_further]. }
  edestruct Honly as (Hseat & _ & _ & Hfrom).
  { repeat first [apply list_elem_of_here | apply list_elem_of_further]. }
  split; [exact Hseat|exact Hfrom].
Defined.

Lemma stored_options_read_back_witness :
  ∃ text, set_options (Some ["child"; "ktx"]) = Some ("SRT", "options", text)
          ∧ get_options (Some text) = ["child"; "ktx"]
          ∧ get_options None = []
          ∧ get_options (Some "") = [].
Proof.
  apply (stored_options_read_back ["child"; "ktx"]).
  apply Forall_cons. split; [by split|].
  apply Forall_cons. split; [by split|]. by apply Forall_nil.
Defined.

Lemma refunds_paid_cancels_unpaid_witness :
  ∃ turn,
    (∃ tickets, String.eqb "KTX" "SRT" = false
       ∧ fetch_tickets second_thoughts turn = inr tickets
       ∧ paid_to_daejeon ∈ tickets)
    ∨ (∃ reservations,
         fetch_reservations second_thoughts turn = inr reservations
         ∧ paid_to_daejeon ∈ reservations
         ∧ paid paid_to_daejeon = Some true).
Proof.
  apply (refunds_paid_cancels_unpaid second_thoughts "KTX" 2
           (DeskRefund paid_to_daejeon None)).
  vm_compute. repeat first [apply list_elem_of_here | apply list_elem_of_further].
Defined.

Lemma confirmed_pick_is_taken_back_witness :
  ∃ added,
    check_reservation second_thoughts "KTX" 2 [] = (inr Returned, added)
    ∧ List.filter is_undo added = [DeskRefund paid_to_daejeon None]
    ∧ length (List.filter is_pick added) = 2.
Proof.
  apply (confirmed_pick_is_taken_back second_thoughts "KTX" 1 2
           [unpaid_to_daegu; paid_to_daejeon] [ticket_to_busan] 2
           paid_to_daejeon true); try done; try lia.
  intros j Hj. assert (j = 0)%nat as -> by lia.
  exists [unpaid_to_daegu; paid_to_daejeon], [ticket_to_busan], 1%Z.
  by repeat split.
Defined.
End ConcreteEngine.

End SrtgoSpec.

Module StorageSpec.
Import Storage.

Lemma xorb_cancel (a b : bool) : xorb (xorb a b) b = a.
Proof. by destruct a, b. Qed.

Lemma byte_xor_cancel (a b : ascii) : byte_xor (byte_xor a b) b = a.
Proof.
  destruct a as [a0 a1 a2 a3 a4 a5 a6 a7], b as [b0 b1 b2 b3 b4 b5 b6 b7].
  cbn. by rewrite !xorb_cancel.
Qed.

Lemma byte_xor_swap (a b c : ascii) :
  byte_xor (byte_xor a b) c = byte_xor (byte_xor a c) b.
Proof.
  destruct a as [a0 a1 a2 a3 a4 a5 a6 a7], b as [b0 b1 b2 b3 b4 b5 b6 b7],
    c as [c0 c1 c2 c3 c4 c5 c6 c7].
  cbn. f_equal; rewrite !xorb_assoc; f_equal; apply xorb_comm.
Qed.

Ltac io :=
  unfold Storage.print, getpass, get_random_bytes, Eff.bind, Eff.ret,
    Eff.raise, Eff.modify, Eff.gets;
  cbn -[decrypt_config random_bytes gcm_crypt].

Section Store.
Context {crypto : Crypto} {json : Json}.

Lemma gcm_crypt_involutive key nonce data :
  gcm_crypt key nonce (gcm_crypt key nonce data) = data.
Proof.
  unfold gcm_crypt. apply list_eq. intros i.
  rewrite !list_lookup_imap. destruct (data !! i) as [b|]; simpl; [|done].
  by rewrite byte_xor_cancel.
Qed.

(** Changing a byte of the ciphertext changes the same bits of the same
    byte of what [decrypt] returns. *)
Lemma gcm_crypt_flip key nonce i mask data :
  gcm_crypt key nonce (flip_byte i mask data)
  = flip_byte i mask (gcm_crypt key nonce data).
Proof.
  unfold gcm_crypt, flip_byte. apply list_eq. intros j.
  repeat first [rewrite list_lookup_imap | rewrite list_lookup_alter].
  case_decide; [subst|done].
  destruct (data !! j) as [b|]; simpl; [|done].
  by rewrite byte_xor_swap.
Qed.

Lemma random_bytes_length (pos n : nat) : length (random_bytes pos n) = n.
Proof. unfold random_bytes. by rewrite length_fmap, length_seq. Qed.

Lemma decrypt_config_sealed key nonce data :
  length nonce = 16 →
  decrypt_config key (nonce ++ data) = json_loads (gcm_crypt key nonce data).
Proof.
  intros Hlen. unfold decrypt_config.
  rewrite take_app_length', drop_app_length' by done.
  by destruct nonce.
Qed.

Lemma flip_byte_past (nonce data : bytes) i mask :
  flip_byte (length nonce + i) mask (nonce ++ data)
  = nonce ++ flip_byte i mask data.
Proof. unfold flip_byte. by rewrite alter_app_r. Qed.

(** What [save] does with a key. *)
Lemma save_run self key w :
  encryption_key self = Some key →
  save self w =
  let nonce := random_bytes (tape w) 16 in
  (inr true,
   write_config_file (nonce ++ gcm_crypt key nonce (json_dumps (config self)))
     (with_tape (tape w + 16) w)).
Proof. intros Hkey. unfold save. rewrite Hkey. reflexivity. Qed.

(** What [load] does, by cases. *)
Lemma load_run self w :
  load self w =
  match encryption_key self, config_file w with
  | Some key, Some encrypted_data =>
    match decrypt_config key encrypted_data with
    | inr loaded => (inr (loaded, set_config loaded self), w)
    | inl e =>
      (inr (DEFAULT_CONFIG, self),
       with_stdout (stdout w ++ ["설정 로드 중 오류 발생: " +:+ e]) w)
    end
  | _, _ => (inr (DEFAULT_CONFIG, self), w)
  end.
Proof.
  unfold load, Eff.bind, Eff.gets.
  destruct (encryption_key self), (config_file w); try reflexivity.
  by destruct (decrypt_config _ _).
Qed.

(** C2 at the failing inputs: take any file that [save] wrote and flip the
    bits [mask] of the byte at offset [i] of its ciphertext.  [load] then
    passes to [json.loads] the serialized snapshot with the same bits
    flipped at the same offset, and takes what comes back as the
    configuration: nothing in between notices the change. *)
Theorem load_accepts_flipped_byte (self0 : SecureStorage) (key : Key)
    (w : World) (i : nat) (mask : ascii) :
  let self := set_encryption_key (Some key) self0 in
  let '(_, w1) := save self w in
  let w2 := tamper (16 + i) mask w1 in
  load self w2 =
  match json_loads (flip_byte i mask (json_dumps (config self))) with
  | inr loaded => (inr (loaded, set_config loaded self), w2)
  | inl e =>
    (inr (DEFAULT_CONFIG, self),
     with_stdout (stdout w2 ++ ["설정 로드 중 오류 발생: " +:+ e]) w2)
  end.
Proof.
  intros self. rewrite (save_run self key) by done. cbn beta iota zeta.
  set (nonce := random_bytes (tape w) 16).
  set (w2 := tamper _ _ _).
  assert (config_file w2
          = Some (nonce ++ flip_byte i mask
                    (gcm_crypt key nonce (json_dumps (config self))))) as Hfile.
  { unfold w2, tamper, write_config_file.
    cbn [config_file fmap option_fmap option_map]. by f_equal. }
  rewrite load_run, Hfile. cbn [encryption_key self set_encryption_key].
  rewrite decrypt_config_sealed by apply random_bytes_length.
  by rewrite <- gcm_crypt_flip, gcm_crypt_involutive.
Qed.

(** In particular, when the flipped plaintext is itself the serialization of
    another snapshot, that snapshot is what [load] returns and installs. *)
Lemma flipped_byte_installs_other_snapshot `{!JsonLaws}
    (self0 : SecureStorage) (key : Key) (w : World) (i : nat) (mask : ascii)
    (other : Config) :
  let self := set_encryption_key (Some key) self0 in
  flip_byte i mask (json_dumps (config self)) = json_dumps other →
  let '(_, w1) := save self w in
  let w2 := tamper (16 + i) mask w1 in
  load self w2 = (inr (other, set_config other self), w2).
Proof.
  intros self Hother. rewrite (save_run self key) by done. cbn beta iota zeta.
  set (nonce := random_bytes (tape w) 16).
  set (w2 := tamper _ _ _).
  assert (config_file w2
          = Some (nonce ++ flip_byte i mask
                    (gcm_crypt key nonce (json_dumps (config self))))) as Hfile.
  { unfold w2, tamper, write_config_file.
    cbn [config_file fmap option_fmap option_map]. by f_equal. }
  rewrite load_run, Hfile. cbn [encryption_key self set_encryption_key].
  rewrite decrypt_config_sealed by apply random_bytes_length.
  by rewrite <- gcm_crypt_flip, gcm_crypt_involutive, Hother, json_loads_dumps.
Qed.

Lemma derive_key_nonempty (c : ascii) (rest : string) :
  _derive_key (String c rest)
  = Some (pbkdf2_hmac "sha256" (str_encode (String c rest)) KDF_SALT
            KDF_ITERATIONS).
Proof. reflexivity. Qed.

Lemma is_initialized_run w :
  _is_initialized w =
  (inr (bool_decide (is_Some (config_file w) ∧ is_Some (key_file w))), w).
Proof.
  unfold _is_initialized, Eff.gets. f_equal. f_equal.
  destruct (config_file w), (key_file w); symmetry;
    first [ by apply bool_decide_eq_true
          | apply bool_decide_eq_false; intros [[? ?] [? ?]]; done ].
Qed.

(** C8, as the code has it: initializing a store with a non-empty secret
    reads one more answer, the confirmation.  If it is the secret again,
    the key is PBKDF2-HMAC-SHA256 of the bytes of the secret with the salt
    [b'srtgo-salt'] and 100000 iterations, and the only change to the files
    is the key file, which receives the SHA-256 hex digest of that key.  If
    it is anything else, the instance has no key and no file is written; if
    there is no answer, [EOFError] is raised and nothing has changed. *)
Theorem initial_setup_persists_fingerprint (c : ascii) (rest : string)
    (w : World) :
  let secret := String c rest in
  let key :=
    pbkdf2_hmac "sha256" (String.list_ascii_of_string secret)
      (String.list_ascii_of_string "srtgo-salt") 100000%N in
  ¬ (is_Some (config_file w) ∧ is_Some (key_file w)) →
  __init__ (Some secret) w =
  match stdin w with
  | [] => (inl EOFError, w)
  | confirm :: pending =>
    if String.eqb secret confirm then
      (inr {| master_password := Some secret;
              encryption_key := Some key;
              config := DEFAULT_CONFIG;
              _last_password := Some secret |},
       {| config_file := config_file w;
          key_file := Some (sha256_hexdigest key);
          stdin := pending;
          stdout := stdout w ++
            ["비밀번호가 설정되었습니다. 이 비밀번호는 설정을 암호화하는 데 사용됩니다."];
          tape := tape w |})
    else
      (inr {| master_password := Some secret;
              encryption_key := None;
              config := DEFAULT_CONFIG;
              _last_password := None |},
       {| config_file := config_file w;
          key_file := key_file w;
          stdin := pending;
          stdout := stdout w ++
            ["비밀번호가 일치하지 않습니다. 기본 설정으로 시작합니다."];
          tape := tape w |})
  end.
Proof.
  intros secret key Hfresh.
  unfold __init__, Eff.bind at 1. rewrite is_initialized_run.
  rewrite bool_decide_eq_false_2 by done.
  unfold _initial_setup, while_not_password, _save_key_hash,
    _setup_encryption_key.
  io. destruct (stdin w) as [|confirm pending] eqn:Hstdin; cbn.
  { rewrite Hstdin. reflexivity. }
  rewrite ?Hstdin. cbn.
  change (match confirm with
          | "" => false
          | String c2 s2' => if Ascii.eqb c c2 then String.eqb rest s2' else false
          end) with (String.eqb secret confirm).
  destruct (String.eqb secret confirm) eqn:Hconfirm; reflexivity.
Qed.

(** What [get] reads off a snapshot. *)
Lemma get_value (c : Config) (service key : string) (default : option string) :
  from_option Some default (from_option id ∅ (c !! service) !! key)
  = from_option Some default (stored c service key).
Proof.
  unfold stored. destruct (c !! service) as [inner|]; simpl; [done|].
  by rewrite lookup_empty.
Qed.

Lemma stored_nonempty (c : Config) service key value :
  stored c service key = Some value → c ≠ ∅.
Proof. intros Hs ->. unfold stored in Hs. by rewrite lookup_empty in Hs. Qed.

(** The lazy load leaves a snapshot that holds something alone, and
    touches neither file nor the tape. *)
Lemma load_if_empty_run self w :
  ∃ self' w',
    load_if_empty self w = (inr self', w')
    ∧ encryption_key self' = encryption_key self
    ∧ config self' = snapshot self w
    ∧ config_file w' = config_file w ∧ key_file w' = key_file w
    ∧ tape w' = tape w
    ∧ (config self ≠ ∅ → self' = self ∧ w' = w).
Proof.
  unfold snapshot, load_if_empty. case_bool_decide as Hempty.
  - unfold Eff.bind. rewrite load_run.
    destruct (encryption_key self) as [key|] eqn:Hkey,
      (config_file w) as [data|] eqn:Hfile;
      try destruct (decrypt_config _ _);
      eexists _, _; (split; [reflexivity|]); by repeat split.
  - eexists _, _. split; [reflexivity|]. by repeat split.
Qed.

Lemma snapshot_nonempty self w : config self ≠ ∅ → snapshot self w = config self.
Proof.
  intros Hne. destruct (load_if_empty_run self w)
    as (self' & w' & _ & _ & <- & _ & _ & _ & Hsame).
  by destruct (Hsame Hne) as [-> _].
Qed.

Lemma save_seals self key w :
  encryption_key self = Some key →
  ∃ w', save self w = (inr true, w') ∧ sealed key self w'
        ∧ key_file w' = key_file w ∧ tape w' = tape w + 16.
Proof.
  intros Hkey. rewrite (save_run self key) by done. cbn zeta.
  eexists. split; [reflexivity|]. split; [|done].
  split; [done|]. eexists. split; [|reflexivity]. apply random_bytes_length.
Qed.

Lemma save_without_key self w :
  encryption_key self = None →
  ∃ w', save self w = (inr false, w')
        ∧ config_file w' = config_file w ∧ key_file w' = key_file w
        ∧ tape w' = tape w.
Proof. intros Hkey. unfold save. rewrite Hkey. by eexists. Qed.

(** [save] always returns; what it leaves depends on the key alone. *)
Lemma save_total self w :
  ∃ saved w',
    save self w = (inr saved, w')
    ∧ key_file w' = key_file w
    ∧ match encryption_key self with
      | Some key => saved = true ∧ sealed key self w' ∧ tape w' = tape w + 16
      | None => saved = false ∧ config_file w' = config_file w
                ∧ tape w' = tape w
      end.
Proof.
  destruct (encryption_key self) as [key|] eqn:Hkey.
  - destruct (save_seals self key w Hkey) as (w' & -> & ? & ? & ?).
    eexists _, _. split; [reflexivity|]. by repeat (split; [done|]).
  - destruct (save_without_key self w Hkey) as (w' & -> & ? & ? & ?).
    eexists _, _. split; [reflexivity|]. by repeat (split; [done|]).
Qed.

Lemma stored_insert (c : Config) service key value :
  stored (<[service := <[key := value]> (from_option id ∅ (c !! service))]> c)
    service key = Some value.
Proof. unfold stored. rewrite lookup_insert_eq. simpl. apply lookup_insert_eq. Qed.

Lemma stored_insert_other (c : Config) s k v service key :
  ¬ (s = service ∧ k = key) →
  stored (<[s := <[k := v]> (from_option id ∅ (c !! s))]> c) service key
  = stored c service key.
Proof.
  intros Hother. unfold stored.
  destruct (decide (s = service)) as [->|Hs].
  - rewrite lookup_insert_eq. simpl.
    rewrite lookup_insert_ne by naive_solver.
    destruct (c !! service); simpl; [done | by rewrite lookup_empty].
  - by rewrite lookup_insert_ne.
Qed.

Lemma stored_delete (c : Config) service key inner :
  stored (<[service := base.delete key inner]> c) service key = None.
Proof. unfold stored. rewrite lookup_insert_eq. simpl. apply lookup_delete_eq. Qed.

Lemma stored_delete_other (c : Config) s k inner service key :
  c !! s = Some inner →
  ¬ (s = service ∧ k = key) →
  stored (<[s := base.delete k inner]> c) service key = stored c service key.
Proof.
  intros Hinner Hother. unfold stored.
  destruct (decide (s = service)) as [->|Hs].
  - rewrite lookup_insert_eq, Hinner. simpl.
    by rewrite lookup_delete_ne by naive_solver.
  - by rewrite lookup_insert_ne.
Qed.

(** [get] on a snapshot that holds the pair. *)
Lemma get_stored self w service key value default :
  stored (config self) service key = Some value →
  get self service key default w = (inr (Some value, self), w).
Proof.
  intros Hs. unfold get, Eff.bind.
  destruct (load_if_empty_run self w) as (self' & w' & -> & _ & _ & _ & _ & _ & Hsame).
  destruct (Hsame (stored_nonempty _ _ _ _ Hs)) as [-> ->].
  unfold Eff.ret. by rewrite get_value, Hs.
Qed.

(** [set] always returns, with the pair in the snapshot; with a key the file
    is sealed anew. *)
Lemma set_run self w service key value :
  ∃ saved self' w',
    set self service key value w = (inr (saved, self'), w')
    ∧ stored (config self') service key = Some value
    ∧ (∀ s k, ¬ (s = service ∧ k = key) →
         stored (config self') s k = stored (snapshot self w) s k)
    ∧ encryption_key self' = encryption_key self
    ∧ key_file w' = key_file w
    ∧ (∀ k, encryption_key self = Some k → saved = true ∧ sealed k self' w').
Proof.
  unfold set, Eff.bind.
  destruct (load_if_empty_run self w)
    as (self0 & w0 & -> & Hkey0 & Hsnap & _ & Hkf & _ & _).
  match goal with |- context [save ?s w0] =>
    destruct (save_total s w0) as (saved & w' & -> & Hkf' & Hsave) end.
  eexists _, _, _. split; [reflexivity|]. cbn [config set_config].
  split; [apply stored_insert|].
  split. { intros s k Hother. rewrite <- Hsnap. apply stored_insert_other.
    intros [-> ->]. by apply Hother. }
  split; [done|]. split; [congruence|].
  intros k Hk. cbn [encryption_key set_config] in Hsave.
  rewrite Hkey0, Hk in Hsave. by destruct Hsave as (? & ? & _).
Qed.

(** C10, as the code has it, on a store that reads no file but its own:
    [delete] works on the snapshot that its lazy load leaves, which is the
    one in memory unless that one was empty.  If
    the pair is not in it, [delete] returns [False], both files and the
    random tape are as before, and the snapshot in memory is that snapshot.
    If the pair is in it, it is removed, and the file is rewritten, sealed
    anew, exactly when there is a key. *)
Theorem delete_absent_pair (self : SecureStorage) (w : World)
    (service key : string) :
  (config self = ∅ → own_file self w) →
  ∃ removed self' w',
    delete self service key w = (inr (removed, self'), w')
    ∧ key_file w' = key_file w
    ∧ (config self ≠ ∅ → snapshot self w = config self)
    ∧ match stored (snapshot self w) service key with
      | None =>
        removed = false
        ∧ config self' = snapshot self w
        ∧ config_file w' = config_file w
        ∧ tape w' = tape w
      | Some _ =>
        stored (config self') service key = None
        ∧ match encryption_key self with
          | Some k => removed = true ∧ sealed k self' w' ∧ tape w' = tape w + 16
          | None => removed = false ∧ config_file w' = config_file w
                    ∧ tape w' = tape w
          end
      end.
Proof.
  intros _. unfold delete, Eff.bind.
  pose proof (snapshot_nonempty self w) as Hsame.
  destruct (load_if_empty_run self w)
    as (self0 & w0 & -> & Hkey0 & Hsnap & Hcf & Hkf & Htape & _).
  rewrite <- Hsnap in *. unfold stored.
  destruct (config self0 !! service) as [inner|] eqn:Hinner; simpl.
  - case_bool_decide as Hpresent.
    + destruct Hpresent as [value Hvalue]. rewrite Hvalue.
      match goal with |- context [save ?s w0] =>
        destruct (save_total s w0) as (saved & w' & -> & Hkf' & Hsave) end.
      eexists _, _, _. split; [reflexivity|].
      split; [congruence|]. split; [done|].
      cbn [config set_config]. split; [apply stored_delete|].
      cbn [encryption_key set_config] in Hsave. rewrite Hkey0 in Hsave.
      destruct (encryption_key self); [|by rewrite <- Hcf, <- Htape].
      by rewrite <- Htape.
    + assert (inner !! key = None) as ->.
      { destruct (inner !! key) eqn:E; [|done]. by destruct Hpresent. }
      by eexists _, _, _.
  - by eexists _, _, _.
Qed.

(** [get] reads the snapshot. *)
Lemma get_snapshot self w service key default :
  ∃ self' w',
    get self service key default w
    = (inr (from_option Some default (stored (snapshot self w) service key),
            self'), w')
    ∧ (config self ≠ ∅ → self' = self ∧ w' = w).
Proof.
  unfold get, Eff.bind.
  destruct (load_if_empty_run self w)
    as (self0 & w0 & -> & _ & <- & _ & _ & _ & Hsame).
  eexists _, _. split; [|done]. unfold Eff.ret. by rewrite get_value.
Qed.

(** [delete] of another pair, on a snapshot that holds something. *)
Lemma delete_frame self w s k :
  config self ≠ ∅ →
  ∃ removed self' w',
    delete self s k w = (inr (removed, self'), w')
    ∧ (∀ service key, ¬ (s = service ∧ k = key) →
         stored (config self') service key = stored (config self) service key)
    ∧ encryption_key self' = encryption_key self
    ∧ key_file w' = key_file w
    ∧ (∀ k0, sealed k0 self w → sealed k0 self' w').
Proof.
  intros Hne. unfold delete, Eff.bind.
  destruct (load_if_empty_run self w) as (self0 & w0 & -> & _ & _ & _ & _ & _ & Hsame).
  destruct (Hsame Hne) as [-> ->]. clear Hsame.
  destruct (config self !! s) as [inner|] eqn:Hinner; [|by eexists _, _, _].
  case_bool_decide as Hpresent; [|by eexists _, _, _].
  match goal with |- context [save ?s0 w] =>
    destruct (save_total s0 w) as (saved & w' & -> & Hkf' & Hsave) end.
  eexists _, _, _. split; [reflexivity|]. cbn [config set_config].
  split. { intros service key Hother. by apply stored_delete_other. }
  repeat (split; [done|]).
  intros k0 [Hk0 _]. cbn [encryption_key set_config] in Hsave.
  rewrite Hk0 in Hsave. by destruct Hsave as (_ & ? & _).
Qed.

(** An operation on another pair leaves the pair, the key and the key file
    alone, and keeps the file sealed. *)
Lemma run_op_frame op self w service key value :
  stored (config self) service key = Some value →
  ¬ targets service key op →
  ∃ self' w',
    run_op op self w = (inr self', w')
    ∧ stored (config self') service key = Some value
    ∧ encryption_key self' = encryption_key self
    ∧ key_file w' = key_file w
    ∧ (∀ k, sealed k self w → sealed k self' w').
Proof.
  intros Hstored Hother.
  pose proof (stored_nonempty _ _ _ _ Hstored) as Hne.
  destruct op as [s k v|s k|s k]; cbn [run_op targets] in *; unfold Eff.bind.
  - destruct (set_run self w s k v)
      as (saved & self' & w' & -> & _ & Hframe & Hkey & Hkf & Hseal).
    eexists _, _. split; [reflexivity|]. cbn [snd].
    split.
    { rewrite Hframe, snapshot_nonempty; [done..|].
      intros [-> ->]. by apply Hother. }
    repeat (split; [done|]). intros k0 [Hk0 _]. by apply Hseal.
  - destruct (delete_frame self w s k Hne)
      as (removed & self' & w' & -> & Hframe & Hkey & Hkf & Hseal).
    eexists _, _. split; [reflexivity|]. cbn [snd].
    split; [by rewrite Hframe|]. by repeat (split; [done|]).
  - destruct (get_snapshot self w s k None) as (self' & w' & -> & Hsame).
    destruct (Hsame Hne) as [-> ->]. by eexists _, _.
Qed.

Lemma run_ops_frame ops self w service key value :
  stored (config self) service key = Some value →
  Forall (λ op, ¬ targets service key op) ops →
  ∃ self' w',
    run_ops ops self w = (inr self', w')
    ∧ stored (config self') service key = Some value
    ∧ encryption_key self' = encryption_key self
    ∧ key_file w' = key_file w
    ∧ (∀ k, sealed k self w → sealed k self' w').
Proof.
  intros Hstored Hops. revert self w Hstored.
  induction Hops as [|op ops Hop Hops IH]; intros self w Hstored.
  { by eexists _, _. }
  cbn [run_ops]. unfold Eff.bind.
  destruct (run_op_frame op self w service key value Hstored Hop)
    as (self1 & w1 & -> & Hstored1 & Hkey1 & Hkf1 & Hseal1).
  destruct (IH self1 w1 Hstored1)
    as (self2 & w2 & -> & Hstored2 & Hkey2 & Hkf2 & Hseal2).
  eexists _, _. split; [reflexivity|]. split; [done|].
  split; [congruence|]. split; [congruence|]. auto.
Qed.

(** A new instance, given the secret the key was derived from, reads the
    sealed snapshot back. *)
Lemma reopen `{!JsonLaws} key self w secret :
  _derive_key secret = Some key →
  sealed key self w →
  is_Some (key_file w) →
  ∃ fresh,
    __init__ (Some secret) w = (inr fresh, w)
    ∧ snapshot fresh w = config self.
Proof.
  intros Hderive [_ (nonce & Hlen & Hfile)] Hkf.
  assert (truthy secret = true) as Htruthy.
  { unfold _derive_key in Hderive. by destruct (truthy secret). }
  destruct secret as [|c rest]; [done|].
  unfold __init__, Eff.bind at 1. rewrite is_initialized_run.
  rewrite bool_decide_eq_true_2 by (by rewrite Hfile).
  eexists. split; [reflexivity|].
  unfold snapshot, load_if_empty, _setup_encryption_key.
  cbn [config set_encryption_key]. rewrite bool_decide_eq_true_2 by done.
  unfold Eff.bind. rewrite load_run. cbn [encryption_key set_encryption_key].
  rewrite Hderive, Hfile, decrypt_config_sealed, gcm_crypt_involutive by done.
  by rewrite json_loads_dumps.
Qed.

(** C4: in any state of a store that reads no file but its own,
    [set(ns, k, v)] followed by any operations on other pairs and then
    [get(ns, k)] returns [v]; and if the store holds the key of a secret and
    the key file exists, a new instance opened with that secret on the
    files left behind returns [v] as well. *)
Theorem set_get_roundtrip `{!JsonLaws} (self : SecureStorage) (w : World)
    (service key value : string) (others : list Op) :
  (config self = ∅ → own_file self w) →
  Forall (λ op, ¬ targets service key op) others →
  ∃ saved self1 w1 self2 w2,
    set self service key value w = (inr (saved, self1), w1)
    ∧ run_ops others self1 w1 = (inr self2, w2)
    ∧ get self2 service key None w2 = (inr (Some value, self2), w2)
    ∧ ∀ secret,
        is_Some (_derive_key secret) →
        encryption_key self = _derive_key secret →
        is_Some (key_file w) →
        ∃ fresh self' w',
          __init__ (Some secret) w2 = (inr fresh, w2)
          ∧ get fresh service key None w2 = (inr (Some value, self'), w').
Proof.
  intros _ Hothers.
  destruct (set_run self w service key value)
    as (saved & self1 & w1 & Hset & Hstored1 & _ & Hkey1 & Hkf1 & Hseal1).
  destruct (run_ops_frame others self1 w1 service key value Hstored1 Hothers)
    as (self2 & w2 & Hops & Hstored2 & Hkey2 & Hkf2 & Hseal2).
  exists saved, self1, w1, self2, w2.
  split; [done|]. split; [done|].
  split; [by apply get_stored|].
  intros secret [k Hderive] Hkey Hkf.
  destruct (reopen k self2 w2 secret Hderive) as (fresh & Hinit & Hsnap).
  { apply Hseal2, Hseal1. congruence. }
  { congruence. }
  destruct (get_snapshot fresh w2 service key None) as (self' & w' & Hget & _).
  exists fresh, self', w'. split; [done|].
  by rewrite Hget, Hsnap, Hstored2.
Qed.
(** C3 at the failing inputs: on an initialized store, whatever the key file
    holds, [__init__] with a non-empty secret returns an instance that carries
    the key derived from that secret.  The comparison [_verify_key] would
    make is not made, and the first access decrypts the file with that key. *)
Theorem unverified_secret_opens_store (c : ascii) (rest : string)
    (data : bytes) (stored_hash : string) (pending printed : list string)
    (position : nat) :
  let secret := String c rest in
  let key :=
    pbkdf2_hmac "sha256" (str_encode secret) KDF_SALT KDF_ITERATIONS in
  let w := {| config_file := Some data; key_file := Some stored_hash;
              stdin := pending; stdout := printed; tape := position |} in
  let self := {| master_password := Some secret;
                 encryption_key := Some key;
                 config := DEFAULT_CONFIG;
                 _last_password := None |} in
  __init__ (Some secret) w = (inr self, w)
  ∧ _verify_key self w
    = (inr (String.eqb (strip stored_hash) (sha256_hexdigest key)), w)
  ∧ snapshot self w
    = match decrypt_config key data with
      | inr loaded => loaded
      | inl _ => DEFAULT_CONFIG
      end.
Proof.
  intros secret key w self. split; [|split].
  - unfold __init__, Eff.bind at 1. rewrite is_initialized_run.
    by rewrite bool_decide_eq_true_2 by (split; eexists; reflexivity).
  - reflexivity.
  - unfold snapshot, load_if_empty. cbn [config self].
    rewrite bool_decide_eq_true_2 by done.
    unfold Eff.bind. rewrite load_run. cbn [encryption_key config_file self w].
    by destruct (decrypt_config key data).
Qed.
Lemma verify_key_run self w :
  _verify_key self w =
  (inr match encryption_key self, key_file w with
       | Some key, Some text => String.eqb (strip text) (sha256_hexdigest key)
       | _, _ => false
       end, w).
Proof.
  unfold _verify_key. destruct (encryption_key self); [|done].
  unfold Eff.bind, Eff.gets. by destruct (key_file w).
Qed.

(** X1: a fingerprint that [_save_key_hash] wrote is the one [_verify_key]
    compares with. *)
Theorem saved_key_hash_verifies (self : SecureStorage) (key : Key) (w : World) :
  encryption_key self = Some key →
  strip (sha256_hexdigest key) = sha256_hexdigest key →
  ∃ w1,
    _save_key_hash self w = (inr true, w1)
    ∧ key_file w1 = Some (sha256_hexdigest key)
    ∧ config_file w1 = config_file w
    ∧ _verify_key self w1 = (inr true, w1)
    ∧ ∀ other key',
        encryption_key other = Some key' →
        _verify_key other w1
        = (inr (String.eqb (sha256_hexdigest key) (sha256_hexdigest key')), w1).
Proof.
  intros Hkey Hstrip. unfold _save_key_hash. rewrite Hkey.
  eexists. split; [reflexivity|]. split; [done|]. split; [done|].
  split.
  - rewrite verify_key_run, Hkey. cbn. by rewrite Hstrip, String.eqb_refl.
  - intros other key' Hother. rewrite verify_key_run, Hother. cbn.
    by rewrite Hstrip.
Qed.

(** What a run of the three prompts can end in. *)
Lemma ask_password_run attempts self w :
  let '(r, w') := ask_password attempts self w in
  config_file w' = config_file w ∧ key_file w' = key_file w
  ∧ tape w' = tape w
  ∧ (length (stdin w) ≤ length (stdin w') + attempts)%nat
  ∧ match r with
    | inr (true, self') =>
      ∃ password key text,
        _derive_key password = Some key
        ∧ encryption_key self' = Some key
        ∧ _last_password self' = Some password
        ∧ config self' = config self
        ∧ key_file w = Some text
        ∧ strip text = sha256_hexdigest key
    | inr (false, self') => config self' = DEFAULT_CONFIG
    | inl EOFError => stdin w' = []
    end.
Proof.
  revert self w. induction attempts as [|attempts IH]; intros self w.
  { cbn. repeat split; try done. lia. }
  cbn [ask_password]. unfold Eff.bind at 1. unfold getpass at 1.
  destruct (stdin w) as [|password pending] eqn:Hstdin.
  { cbn. rewrite Hstdin. repeat split; try done. lia. }
  set (w0 := with_stdin pending w).
  destruct (truthy password) eqn:Htruthy; cbn [negb].
  2:{ specialize (IH self w0). destruct (ask_password attempts self w0) as [r w'].
      destruct IH as (Hcf & Hkf' & Htape & Hlen & Hr); subst w0; cbn in Hcf, Hkf', Htape, Hlen, Hr.
      repeat (split; [by first [done|congruence]|]).
      split; [rewrite ?Hstdin; cbn; lia|]. done. }
  unfold Eff.bind at 1. rewrite verify_key_run.
  cbn [encryption_key _setup_encryption_key set_encryption_key].
  destruct (_derive_key password) as [key|] eqn:Hderive.
  2:{ unfold _derive_key in Hderive. by rewrite Htruthy in Hderive. }
  change (key_file w0) with (key_file w).
  destruct (key_file w) as [text|] eqn:Hkf.
  2:{ unfold Eff.bind at 1. unfold Storage.print at 1, Eff.modify.
      match goal with |- context [ask_password attempts ?s ?w1] =>
        specialize (IH s w1); destruct (ask_password attempts s w1) as [r w'] end.
      destruct IH as (Hcf & Hkf' & Htape & Hlen & Hr); subst w0; cbn in Hcf, Hkf', Htape, Hlen, Hr.
      repeat (split; [by first [done|congruence]|]).
      split; [rewrite ?Hstdin; cbn; lia|]. destruct r as [[]|[[] self']]; try done.
      destruct Hr as (? & ? & ? & _ & _ & _ & _ & ? & _). congruence. }
  destruct (String.eqb (strip text) (sha256_hexdigest key)) eqn:Hmatch.
  - cbn. repeat (split; [done|]). split; [rewrite ?Hstdin; cbn; lia|].
    exists password, key, text. apply String.eqb_eq in Hmatch. done.
  - unfold Eff.bind at 1. unfold Storage.print at 1, Eff.modify.
    match goal with |- context [ask_password attempts ?s ?w1] =>
      specialize (IH s w1); destruct (ask_password attempts s w1) as [r w'] end.
    destruct IH as (Hcf & Hkf' & Htape & Hlen & Hr); subst w0; cbn in Hcf, Hkf', Htape, Hlen, Hr.
      repeat (split; [by first [done|congruence]|]).
    split; [rewrite ?Hstdin; cbn; lia|]. destruct r as [[]|[[] self']]; try done.
    destruct Hr as (p & k & t & ? & ? & ? & ? & Ht & ?).
    exists p, k, t. repeat split; first [done|congruence].
Qed.

(** X2: the prompted way in verifies.  [_try_load_key] answers [True] only
    with a key whose fingerprint is the one in the key file; it reads at most
    three answers and writes no file. *)
Theorem try_load_key_verifies (self : SecureStorage) (w : World) :
  let '(r, w') := _try_load_key self w in
  config_file w' = config_file w ∧ key_file w' = key_file w
  ∧ tape w' = tape w
  ∧ (length (stdin w) ≤ length (stdin w') + 3)%nat
  ∧ match r with
    | inr (true, self') =>
      ∃ key text,
        encryption_key self' = Some key
        ∧ key_file w = Some text
        ∧ strip text = sha256_hexdigest key
        ∧ config self' = config self
    | inr (false, self') =>
      (key_file w = None ∧ self' = self) ∨ config self' = DEFAULT_CONFIG
    | inl EOFError => stdin w' = []
    end.
Proof.
  unfold _try_load_key. unfold Eff.bind at 1. unfold Eff.gets at 1.
  destruct (key_file w) as [text|] eqn:Hkf.
  2:{ rewrite bool_decide_eq_false_2 by (by intros [? ?]). cbn.
      repeat (split; [done|]). split; [lia|]. by left. }
  rewrite bool_decide_eq_true_2 by done. cbn [negb].
  unfold Eff.bind at 1.
  assert (∀ s, let '(r, w') := ask_password 3 s w in
    config_file w' = config_file w ∧ key_file w' = Some text
    ∧ tape w' = tape w
    ∧ (length (stdin w) ≤ length (stdin w') + 3)%nat
    ∧ match r with
      | inr (true, self') =>
        ∃ key text0,
          encryption_key self' = Some key
          ∧ Some text = Some text0
          ∧ strip text0 = sha256_hexdigest key
          ∧ config self' = config s
      | inr (false, self') =>
        (Some text = None ∧ self' = self) ∨ config self' = DEFAULT_CONFIG
      | inl EOFError => stdin w' = []
      end) as Hask.
  { intros s. pose proof (ask_password_run 3 s w) as Hrun.
    destruct (ask_password 3 s w) as [r w'].
    destruct Hrun as (? & ? & ? & ? & Hr).
    repeat (split; [by first [done|congruence]|]).
    destruct r as [[]|[[] self']]; [done| |by right].
    destruct Hr as (p & k & t & ? & ? & ? & ? & ? & ?).
    exists k, t. repeat split; first [done|congruence]. }
  destruct (_last_password self) as [[|c rest]|] eqn:Hlast.
  - cbn. apply (Hask self).
  - unfold Eff.bind at 1. rewrite verify_key_run, Hkf.
    cbn [encryption_key _setup_encryption_key set_encryption_key].
    rewrite derive_key_nonempty.
    destruct (String.eqb _ _) eqn:Hmatch; cbn [Eff.ret fst snd].
    + repeat (split; [done|]). split; [lia|].
      eexists _, _. apply String.eqb_eq in Hmatch. by repeat split.
    + match goal with |- context [ask_password 3 ?s w] => apply (Hask s) end.
  - cbn. apply (Hask self).
Qed.

Lemma set_seals self w service key value k :
  encryption_key self = Some k →
  ∃ self' w', set self service key value w = (inr (true, self'), w')
              ∧ sealed k self' w'
              ∧ stored (config self') service key = Some value.
Proof.
  intros Hk.
  destruct (set_run self w service key value)
    as (saved & self' & w' & Hset & Hstored & _ & _ & _ & Hseal).
  destruct (Hseal k Hk) as [-> ?]. by eexists _, _.
Qed.

(** One answer that does not verify. *)
Lemma ask_password_wrong attempts self w password pending text :
  stdin w = password :: pending →
  truthy password = true →
  key_file w = Some text →
  (∀ k, _derive_key password = Some k →
        strip text ≠ sha256_hexdigest k) →
  ask_password (S attempts) self w
  = ask_password attempts (_setup_encryption_key self password)
      (with_stdout (stdout w ++ ["비밀번호가 맞지 않습니다. 다시 시도하세요."])
         (with_stdin pending w)).
Proof.
  intros Hstdin Htruthy Hkf Hwrong.
  cbn [ask_password]. unfold Eff.bind at 1. unfold getpass at 1.
  rewrite Hstdin, Htruthy. cbn [negb]. unfold Eff.bind at 1.
  rewrite verify_key_run.
  cbn [encryption_key _setup_encryption_key set_encryption_key].
  change (key_file (with_stdin pending w)) with (key_file w). rewrite Hkf.
  destruct (_derive_key password) as [k|] eqn:Hderive; [|done].
  specialize (Hwrong k eq_refl). apply String.eqb_neq in Hwrong.
  rewrite Hwrong. reflexivity.
Qed.

(** X3: three answers that do not verify.  [SecureStorage()] still returns
    an instance, and that instance carries the key derived from the last
    answer: a [save] replaces the configuration file by the empty snapshot
    sealed under the key that was turned down. *)
Theorem rejected_password_stays_as_key (c1 c2 c3 : ascii)
    (r1 r2 r3 : string) (data : bytes) (stored_hash : string)
    (pending printed : list string) (position : nat) :
  let key p :=
    pbkdf2_hmac "sha256" (str_encode p) KDF_SALT KDF_ITERATIONS in
  let p1 := String c1 r1 in
  let p2 := String c2 r2 in
  let p3 := String c3 r3 in
  let w := {| config_file := Some data; key_file := Some stored_hash;
              stdin := p1 :: p2 :: p3 :: pending; stdout := printed;
              tape := position |} in
  let self' := {| master_password := None; encryption_key := Some (key p3);
                  config := DEFAULT_CONFIG; _last_password := None |} in
  let w' := {| config_file := Some data; key_file := Some stored_hash;
               stdin := pending;
               stdout := printed ++
                 ["비밀번호가 맞지 않습니다. 다시 시도하세요.";
                  "비밀번호가 맞지 않습니다. 다시 시도하세요.";
                  "비밀번호가 맞지 않습니다. 다시 시도하세요.";
                  "비밀번호 시도 횟수 초과. 기본 설정으로 시작합니다."];
               tape := position |} in
  Forall (λ p, strip stored_hash ≠ sha256_hexdigest (key p)) [p1; p2; p3] →
  __init__ None w = (inr self', w')
  ∧ ∃ w1,
      save self' w' = (inr true, w1)
      ∧ sealed (key p3) self' w1
      ∧ config self' = DEFAULT_CONFIG.
Proof.
  intros key p1 p2 p3 w self' w' Hwrong.
  apply Forall_cons in Hwrong as [H1 Hwrong].
  apply Forall_cons in Hwrong as [H2 Hwrong].
  apply Forall_cons in Hwrong as [H3 _].
  split.
  - unfold __init__, Eff.bind at 1. rewrite is_initialized_run.
    rewrite bool_decide_eq_true_2 by (split; eexists; reflexivity).
    unfold Eff.bind at 1. unfold _try_load_key. unfold Eff.bind at 1.
    unfold Eff.gets at 1. rewrite bool_decide_eq_true_2 by (by eexists).
    cbn [negb _last_password]. unfold Eff.bind at 1. cbn [Eff.ret fst snd].
    rewrite (ask_password_wrong 2 _ _ p1 (p2 :: p3 :: pending) stored_hash);
      [|done..|by intros k [= <-]].
    rewrite (ask_password_wrong 1 _ _ p2 (p3 :: pending) stored_hash);
      [|done..|by intros k [= <-]].
    rewrite (ask_password_wrong 0 _ _ p3 pending stored_hash);
      [|done..|by intros k [= <-]].
    cbn. unfold w'. by rewrite <- !app_assoc.
  - destruct (save_seals self' (key p3) w' eq_refl) as (w1 & ? & ? & _).
    by exists w1.
Qed.

(** X4: a confirmation that differs from the secret.  The first start ends
    with no key and no key file; the store runs on, in memory only. *)
Theorem mismatched_confirmation_leaves_no_key (c : ascii)
    (rest confirm : string) (w : World) (pending : list string) :
  let secret := String c rest in
  ¬ (is_Some (config_file w) ∧ is_Some (key_file w)) →
  stdin w = confirm :: pending →
  confirm ≠ secret →
  __init__ (Some secret) w =
    (inr {| master_password := Some secret; encryption_key := None;
            config := DEFAULT_CONFIG; _last_password := None |},
     {| config_file := config_file w; key_file := key_file w;
        stdin := pending;
        stdout := stdout w ++
          ["비밀번호가 일치하지 않습니다. 기본 설정으로 시작합니다."];
        tape := tape w |}).
Proof.
  intros secret Hfresh Hstdin Hdiffer.
  unfold __init__, Eff.bind at 1. rewrite is_initialized_run.
  rewrite bool_decide_eq_false_2 by done.
  unfold _initial_setup, while_not_password. io. rewrite ?Hstdin. cbn.
  rewrite ?Hstdin. cbn.
  assert (String.eqb secret confirm = false) as Hneq.
  { apply String.eqb_neq. congruence. }
  unfold secret in Hneq. cbn in Hneq. rewrite Hneq. reflexivity.
Qed.

Lemma load_without_key self w :
  encryption_key self = None → load self w = (inr (DEFAULT_CONFIG, self), w).
Proof. intros Hkey. rewrite load_run, Hkey. done. Qed.

(** X5: a store without a key.  [set] answers [False] and writes nothing
    but the message; the value is held by the instance, where [get] finds
    it. *)
Theorem keyless_set_stays_in_memory (self : SecureStorage) (w : World)
    (service key value : string) :
  encryption_key self = None →
  ∃ self',
    let w' := with_stdout (stdout w ++
      ["암호화 키가 설정되지 않았습니다. 설정을 저장할 수 없습니다."]) w in
    set self service key value w = (inr (false, self'), w')
    ∧ encryption_key self' = None
    ∧ get self' service key None w' = (inr (Some value, self'), w').
Proof.
  intros Hkey. unfold set, Eff.bind at 1.
  assert (∃ self0, load_if_empty self w = (inr self0, w)
                   ∧ encryption_key self0 = None) as (self0 & -> & Hkey0).
  { unfold load_if_empty. case_bool_decide; [|by eexists].
    unfold Eff.bind. rewrite load_without_key by done. by eexists. }
  unfold Eff.bind at 1. unfold save at 1.
  cbn [encryption_key set_config]. rewrite Hkey0.
  eexists. split; [reflexivity|]. split; [done|].
  apply get_stored. apply stored_insert.
Qed.

(** [while not password], over empty answers. *)
Lemma while_not_empty n password pending w :
  while_not "" (replicate n "" ++ password :: pending) w
  = while_not password pending
      (with_stdin pending
         (with_stdout (stdout w ++
            replicate (S n) "비밀번호는 비워둘 수 없습니다.") w)).
Proof.
  revert w. induction n as [|n IH]; intros w.
  { reflexivity. }
  cbn [replicate app while_not truthy]. rewrite IH. cbn.
  by rewrite <- !app_assoc.
Qed.

Lemma io_bind_run {A B} (m : IO A) (k : A → IO B) w :
  (let* a := m in k a) w
  = match m w with
    | (inr a, w') => k a w'
    | (inl ex, w') => (inl ex, w')
    end.
Proof. reflexivity. Qed.

(** [_initial_setup] with a secret in hand and its confirmation typed. *)
Lemma initial_setup_given self (c : ascii) (rest : string) w pending :
  let secret := String c rest in
  let key :=
    pbkdf2_hmac "sha256" (str_encode secret) KDF_SALT KDF_ITERATIONS in
  stdin w = secret :: pending →
  _initial_setup self (Some secret) w =
    (inr (set_last_password (Some secret)
            (set_encryption_key (Some key) self)),
     {| config_file := config_file w;
        key_file := Some (sha256_hexdigest key);
        stdin := pending;
        stdout := stdout w ++
          ["비밀번호가 설정되었습니다. 이 비밀번호는 설정을 암호화하는 데 사용됩니다."];
        tape := tape w |}).
Proof.
  intros secret key Hstdin.
  unfold _initial_setup, while_not_password, _save_key_hash,
    _setup_encryption_key.
  io. rewrite ?Hstdin. cbn. rewrite ?Hstdin. cbn.
  rewrite Ascii.eqb_refl, String.eqb_refl. reflexivity.
Qed.

(** Reading answers until one is not empty comes to the same as having
    been given that one. *)
Lemma prompted_secret {A} (K : string → IO A) prompt n (c : ascii)
    (rest : string) w pending :
  stdin w = replicate n "" ++ String c rest :: pending →
  (let* password := getpass prompt in
   let* password := while_not_password password in
   K password) w
  = (let* password := Eff.ret (String c rest) in
     let* password := while_not_password password in
     K password)
      (with_stdin pending
         (with_stdout (stdout w ++ replicate n "비밀번호는 비워둘 수 없습니다.") w)).
Proof.
  intros Hstdin. unfold Eff.bind, getpass, Eff.ret, while_not_password.
  rewrite Hstdin.
  destruct n as [|n]; cbn [replicate app stdin with_stdin].
  - cbn [while_not truthy]. by rewrite app_nil_r.
  - by rewrite while_not_empty.
Qed.

(** Without a secret in hand, [_initial_setup] goes on with the first
    answer that is not empty. *)
Lemma initial_setup_prompted self n (c : ascii) (rest : string) w pending :
  let secret := String c rest in
  stdin w = replicate n "" ++ secret :: pending →
  _initial_setup self None w
  = _initial_setup self (Some secret)
      (with_stdin pending
         (with_stdout (stdout w ++ replicate n "비밀번호는 비워둘 수 없습니다.") w)).
Proof.
  intros secret Hstdin. unfold _initial_setup. subst secret.
  lazy beta iota. by apply prompted_secret.
Qed.

(** X6: the first start without a given secret asks until the answer is
    not empty, once more for the confirmation, and then sets the store up
    with that answer. *)
Theorem initial_setup_insists_on_secret (n : nat) (c : ascii) (rest : string)
    (w : World) (pending : list string) :
  let secret := String c rest in
  let key :=
    pbkdf2_hmac "sha256" (str_encode secret) KDF_SALT KDF_ITERATIONS in
  ¬ (is_Some (config_file w) ∧ is_Some (key_file w)) →
  stdin w = replicate n "" ++ secret :: secret :: pending →
  __init__ None w =
    (inr {| master_password := None; encryption_key := Some key;
            config := DEFAULT_CONFIG; _last_password := Some secret |},
     {| config_file := config_file w;
        key_file := Some (sha256_hexdigest key);
        stdin := pending;
        stdout := stdout w ++ replicate n "비밀번호는 비워둘 수 없습니다." ++
          ["비밀번호가 설정되었습니다. 이 비밀번호는 설정을 암호화하는 데 사용됩니다."];
        tape := tape w |}).
Proof.
  intros secret key Hfresh Hstdin.
  unfold __init__. rewrite io_bind_run, is_initialized_run.
  rewrite bool_decide_eq_false_2 by done.
  rewrite (initial_setup_prompted _ n c rest w (secret :: pending)) by done.
  rewrite (initial_setup_given _ c rest _ pending) by done.
  cbn. by rewrite <- !app_assoc.
Qed.

Lemma gcm_crypt_length key nonce data :
  length (gcm_crypt key nonce data) = length data.
Proof. unfold gcm_crypt. apply length_imap. Qed.

(** X7: what [save] writes, [load] reads back.  The file is the 16 bytes of
    the nonce followed by as many bytes as the serialized snapshot has, and
    any instance that holds the same key loads that snapshot from it. *)
Theorem save_load_roundtrip `{!JsonLaws} (self other : SecureStorage)
    (key : Key) (w : World) :
  encryption_key self = Some key →
  encryption_key other = Some key →
  ∃ file w1,
    save self w = (inr true, w1)
    ∧ config_file w1 = Some file
    ∧ take 16 file = random_bytes (tape w) 16
    ∧ length file = 16 + length (json_dumps (config self))
    ∧ key_file w1 = key_file w
    ∧ stdout w1 = stdout w
    ∧ load other w1 = (inr (config self, set_config (config self) other), w1).
Proof.
  intros Hself Hother. rewrite (save_run self key) by done. cbn zeta.
  set (nonce := random_bytes (tape w) 16).
  assert (length nonce = 16) as Hlen by apply random_bytes_length.
  eexists _, _. split; [reflexivity|]. split; [reflexivity|].
  split; [by rewrite take_app_length'|].
  split; [by rewrite length_app, gcm_crypt_length, Hlen|].
  split; [done|]. split; [done|].
  rewrite load_run, Hother. cbn [config_file write_config_file].
  by rewrite decrypt_config_sealed, gcm_crypt_involutive, json_loads_dumps.
Qed.

(** What the lazy load keeps. *)
Lemma load_if_empty_keeps self w :
  ∃ self' w',
    load_if_empty self w = (inr self', w')
    ∧ encryption_key self' = encryption_key self
    ∧ master_password self' = master_password self
    ∧ _last_password self' = _last_password self
    ∧ config_file w' = config_file w ∧ key_file w' = key_file w
    ∧ stdin w' = stdin w ∧ tape w' = tape w.
Proof.
  unfold load_if_empty. case_bool_decide; [|by eexists _, _].
  unfold Eff.bind. rewrite load_run.
  destruct (encryption_key self) as [key|] eqn:Hkey,
    (config_file w) as [data|] eqn:Hfile;
    try destruct (decrypt_config _ _);
    eexists _, _; (split; [reflexivity|]); by repeat split.
Qed.

Lemma save_keeps self w :
  ∃ saved w',
    save self w = (inr saved, w')
    ∧ key_file w' = key_file w ∧ stdin w' = stdin w
    ∧ (encryption_key self = None →
       config_file w' = config_file w ∧ tape w' = tape w).
Proof.
  unfold save. destruct (encryption_key self); by eexists _, _.
Qed.

Lemma run_op_keeps op self w :
  ∃ self' w',
    run_op op self w = (inr self', w')
    ∧ encryption_key self' = encryption_key self
    ∧ master_password self' = master_password self
    ∧ _last_password self' = _last_password self
    ∧ key_file w' = key_file w ∧ stdin w' = stdin w
    ∧ (encryption_key self = None →
       config_file w' = config_file w ∧ tape w' = tape w).
Proof.
  destruct op as [s k v|s k|s k]; cbn [run_op];
    unfold set, delete, get; rewrite !io_bind_run;
    destruct (load_if_empty_keeps self w)
      as (self0 & w0 & -> & Hkey & Hmp & Hlp & Hcf & Hkf & Hin & Htape).
  - rewrite !io_bind_run.
    match goal with |- context [save ?s0 w0] =>
      destruct (save_keeps s0 w0) as (saved & w' & -> & Hkf' & Hin' & Hnone)
    end.
    eexists _, _. split; [reflexivity|]. cbn.
    do 5 (split; [congruence|]). intros Hk.
    destruct Hnone as [? ?]; [cbn; congruence|]. split; congruence.
  - destruct (config self0 !! s) as [inner|].
    2:{ eexists _, _. split; [reflexivity|]. cbn.
        do 5 (split; [congruence|]). intros _. split; congruence. }
    case_bool_decide.
    2:{ eexists _, _. split; [reflexivity|]. cbn.
        do 5 (split; [congruence|]). intros _. split; congruence. }
    rewrite !io_bind_run.
    match goal with |- context [save ?s0 w0] =>
      destruct (save_keeps s0 w0) as (saved & w' & -> & Hkf' & Hin' & Hnone)
    end.
    eexists _, _. split; [reflexivity|]. cbn.
    do 5 (split; [congruence|]). intros Hk.
    destruct Hnone as [? ?]; [cbn; congruence|]. split; congruence.
  - eexists _, _. split; [reflexivity|]. cbn.
    do 5 (split; [congruence|]). intros _. split; congruence.
Qed.

Lemma own_file_same self w self' w' :
  encryption_key self' = encryption_key self →
  config_file w' = config_file w →
  own_file self w → own_file self' w'.
Proof. unfold own_file. intros -> ->. done. Qed.

(** The operations read a file of the store, if they read one, and leave
    one. *)
Lemma run_op_own op self w self' w' :
  (config self = ∅ → own_file self w) →
  run_op op self w = (inr self', w') →
  config self' = ∅ → own_file self' w'.
Proof.
  intros Hown Hrun Hempty.
  assert (∀ self0 w0, load_if_empty self w = (inr self0, w0) →
            config self0 = ∅ → own_file self0 w0) as Hload.
  { intros self0 w0 Hl Hempty0.
    destruct (load_if_empty_keeps self w)
      as (self1 & w1 & Hl1 & Hkey & _ & _ & Hcf & _).
    rewrite Hl in Hl1. inversion Hl1; subst self1 w1; clear Hl1.
    apply (own_file_same self w); [done..|]. apply Hown.
    revert Hl. unfold load_if_empty. case_bool_decide as Hc; [done|].
    intros Hl. inversion Hl; subst. done. }
  destruct op as [s k v|s k|s k]; cbn [run_op] in Hrun;
    unfold set, delete, get in Hrun; rewrite !io_bind_run in Hrun;
    destruct (load_if_empty self w) as [[?|self0] w0] eqn:Hl; try done.
  - rewrite !io_bind_run in Hrun.
    match type of Hrun with context [save ?s0 w0] =>
      destruct (save s0 w0) as [[?|saved] w1]; [done|]
    end.
    inversion Hrun; subst; clear Hrun. cbn in Hempty.
    by apply insert_non_empty in Hempty.
  - destruct (config self0 !! s) as [inner|].
    2:{ inversion Hrun; subst. by apply Hload. }
    case_bool_decide.
    2:{ inversion Hrun; subst. by apply Hload. }
    rewrite !io_bind_run in Hrun.
    match type of Hrun with context [save ?s0 w0] =>
      destruct (save s0 w0) as [[?|saved] w1]; [done|]
    end.
    inversion Hrun; subst; clear Hrun. cbn in Hempty.
    by apply insert_non_empty in Hempty.
  - inversion Hrun; subst. by apply Hload.
Qed.

(** X8: on a store that reads no file but its own, a sequence of [get],
    [set] and [delete] returns having changed neither the key of the
    instance nor its passwords, neither rewritten the key file nor read from
    the terminal, and it leaves a store that reads no file but its own; an
    instance without a key never writes the configuration file. *)
Theorem operations_keep_key (ops : list Op) (self : SecureStorage)
    (w : World) :
  (config self = ∅ → own_file self w) →
  ∃ self' w',
    run_ops ops self w = (inr self', w')
    ∧ encryption_key self' = encryption_key self
    ∧ master_password self' = master_password self
    ∧ _last_password self' = _last_password self
    ∧ key_file w' = key_file w ∧ stdin w' = stdin w
    ∧ (config self' = ∅ → own_file self' w')
    ∧ (encryption_key self = None →
       config_file w' = config_file w ∧ tape w' = tape w).
Proof.
  revert self w. induction ops as [|op ops IH]; intros self w Hown.
  { by eexists _, _. }
  cbn [run_ops]. rewrite io_bind_run.
  destruct (run_op_keeps op self w)
    as (self1 & w1 & Hrun & Hkey & Hmp & Hlp & Hkf & Hin & Hnone).
  pose proof (run_op_own op self w self1 w1 Hown Hrun) as Hown1.
  rewrite Hrun.
  destruct (IH self1 w1 Hown1)
    as (self2 & w2 & -> & Hkey2 & Hmp2 & Hlp2 & Hkf2 & Hin2 & Hown2 & Hnone2).
  eexists _, _. split; [reflexivity|].
  do 5 (split; [congruence|]). split; [done|]. intros Hk.
  destruct (Hnone Hk) as [? ?]. destruct Hnone2 as [? ?]; [congruence|].
  split; congruence.
Qed.

(** [delete] of a pair that the snapshot holds. *)
Lemma delete_present self w service key value :
  stored (snapshot self w) service key = Some value →
  ∃ removed self' w',
    delete self service key w = (inr (removed, self'), w')
    ∧ stored (config self') service key = None
    ∧ config self' ≠ ∅
    ∧ (∀ s k, ¬ (service = s ∧ key = k) →
         stored (config self') s k = stored (snapshot self w) s k)
    ∧ key_file w' = key_file w
    ∧ match encryption_key self with
      | Some k => removed = true ∧ sealed k self' w'
      | None => removed = false
      end.
Proof.
  intros Hstored. unfold delete. rewrite io_bind_run.
  destruct (load_if_empty_run self w)
    as (self0 & w0 & -> & Hkey0 & Hsnap & _ & Hkf & _ & _).
  rewrite <- Hsnap in *. unfold stored in Hstored.
  destruct (config self0 !! service) as [inner|] eqn:Hinner; [|done].
  cbn in Hstored. rewrite bool_decide_eq_true_2 by (by eexists).
  rewrite io_bind_run.
  match goal with |- context [save ?s0 w0] =>
    destruct (save_total s0 w0) as (saved & w' & -> & Hkf' & Hsave) end.
  eexists _, _, _. split; [reflexivity|]. cbn [config set_config].
  split; [apply stored_delete|].
  split. { intros Hempty. apply (f_equal (λ c, c !! service)) in Hempty.
           by rewrite lookup_insert_eq, lookup_empty in Hempty. }
  split. { intros s k Hother. by apply stored_delete_other. }
  split; [congruence|].
  cbn [encryption_key set_config] in Hsave. rewrite Hkey0 in Hsave.
  destruct (encryption_key self); by destruct Hsave as (? & ? & _).
Qed.

(** X9: a pair that was deleted is gone: [get] on the instance answers the
    default and, when the store has a key, so does a new instance opened
    with the secret on the files left behind.  [delete] answers what [save]
    answered. *)
Theorem deleted_pair_is_gone `{!JsonLaws} (self : SecureStorage) (w : World)
    (service key value : string) :
  stored (snapshot self w) service key = Some value →
  ∃ removed self' w',
    delete self service key w = (inr (removed, self'), w')
    ∧ removed = bool_decide (is_Some (encryption_key self))
    ∧ (∀ default,
         get self' service key default w' = (inr (default, self'), w'))
    ∧ ∀ secret default,
        is_Some (_derive_key secret) →
        encryption_key self = _derive_key secret →
        is_Some (key_file w) →
        ∃ fresh self2 w2,
          __init__ (Some secret) w' = (inr fresh, w')
          ∧ get fresh service key default w' = (inr (default, self2), w2).
Proof.
  intros Hstored.
  destruct (delete_present self w service key value Hstored)
    as (removed & self' & w' & Hdelete & Hgone & Hne & _ & Hkf & Hsave).
  exists removed, self', w'. split; [done|].
  split.
  { destruct (encryption_key self); [destruct Hsave as [-> _]|subst].
    - symmetry. by apply bool_decide_eq_true_2.
    - symmetry. apply bool_decide_eq_false_2. by intros [? ?]. }
  split.
  { intros default.
    destruct (get_snapshot self' w' service key default)
      as (s1 & w1 & Hget & Hsame).
    destruct (Hsame Hne) as [-> ->].
    by rewrite Hget, snapshot_nonempty, Hgone. }
  intros secret default [k Hderive] Hkey Hkeyfile.
  rewrite Hkey, Hderive in Hsave. destruct Hsave as [_ Hsealed].
  destruct (reopen k self' w' secret Hderive Hsealed) as (fresh & Hinit & Hsnap).
  { congruence. }
  destruct (get_snapshot fresh w' service key default)
    as (self2 & w2 & Hget & _).
  exists fresh, self2, w2. split; [done|].
  by rewrite Hget, Hsnap, Hgone.
Qed.

(** Loading lazily a second time changes nothing. *)
Lemma snapshot_loaded self w self' w' :
  load_if_empty self w = (inr self', w') →
  snapshot self' w' = snapshot self w.
Proof.
  intros Hload. unfold snapshot at 2. rewrite Hload.
  revert Hload. unfold load_if_empty. case_bool_decide as Hempty.
  2:{ intros [= <- <-]. by apply snapshot_nonempty. }
  unfold Eff.bind. rewrite load_run.
  destruct (encryption_key self) as [k|] eqn:Hk;
    [destruct (config_file w) as [data|] eqn:Hf|].
  - destruct (decrypt_config k data) as [e|loaded] eqn:Hd.
    + intros [= <- <-]. unfold snapshot, load_if_empty.
      rewrite bool_decide_eq_true_2 by done. unfold Eff.bind.
      rewrite load_run, Hk. cbn [config_file with_stdout]. by rewrite Hf, Hd.
    + intros [= <- <-]. unfold snapshot, load_if_empty. cbn [config set_config].
      case_bool_decide; [|done]. unfold Eff.bind. rewrite load_run.
      cbn [encryption_key set_config]. by rewrite Hk, Hf, Hd.
  - intros [= <- <-]. unfold snapshot, load_if_empty.
    rewrite bool_decide_eq_true_2 by done. unfold Eff.bind.
    by rewrite load_run, Hk, Hf.
  - intros [= <- <-]. unfold snapshot, load_if_empty.
    rewrite bool_decide_eq_true_2 by done. unfold Eff.bind.
    by rewrite load_run, Hk.
Qed.

Lemma run_op_other op self w service key :
  ¬ targets service key op →
  ∃ self' w',
    run_op op self w = (inr self', w')
    ∧ stored (snapshot self' w') service key
      = stored (snapshot self w) service key.
Proof.
  intros Hother.
  destruct op as [s k v|s k|s k]; cbn [run_op targets] in *.
  - rewrite io_bind_run.
    destruct (set_run self w s k v)
      as (saved & self' & w' & -> & Hnew & Hframe & _).
    eexists _, _. split; [reflexivity|]. cbn [snd].
    rewrite snapshot_nonempty by (by eapply stored_nonempty).
    apply Hframe. intros [-> ->]. by apply Hother.
  - rewrite io_bind_run.
    destruct (stored (snapshot self w) s k) as [value|] eqn:Hpresent.
    + destruct (delete_present self w s k value Hpresent)
        as (removed & self' & w' & -> & _ & Hne & Hframe & _).
      eexists _, _. split; [reflexivity|]. cbn [snd].
      rewrite snapshot_nonempty by done. by apply Hframe.
    + unfold delete. rewrite io_bind_run.
      destruct (load_if_empty self w) as [[ex|self0] w0] eqn:Hload.
      { destruct (load_if_empty_run self w) as (? & ? & Hrun & _). congruence. }
      pose proof (snapshot_loaded _ _ _ _ Hload) as Hsame.
      assert (config self0 = snapshot self w) as Hconfig.
      { unfold snapshot. by rewrite Hload. }
      unfold stored in Hpresent. rewrite <- Hconfig in Hpresent.
      destruct (config self0 !! s) as [inner|]; cbn in Hpresent.
      * rewrite Hpresent, bool_decide_eq_false_2 by (by intros [? ?]).
        eexists _, _. split; [reflexivity|]. cbn [snd]. by rewrite Hsame.
      * eexists _, _. split; [reflexivity|]. cbn [snd]. by rewrite Hsame.
  - rewrite io_bind_run. unfold get. rewrite io_bind_run.
    destruct (load_if_empty self w) as [[ex|self0] w0] eqn:Hload.
    { destruct (load_if_empty_run self w) as (? & ? & Hrun & _). congruence. }
    eexists _, _. split; [reflexivity|]. cbn [snd].
    by rewrite (snapshot_loaded _ _ _ _ Hload).
Qed.

(** X10: an operation changes no pair but its own.  On a store that reads
    no file but its own, after any operations that do not target a pair
    [get] answers for that pair what it would have answered before. *)
Theorem operations_spare_other_pairs (ops : list Op) (self : SecureStorage)
    (w : World) (service key : string) (default : option string) :
  (config self = ∅ → own_file self w) →
  Forall (λ op, ¬ targets service key op) ops →
  ∃ self' w' value self1 w1 self2 w2,
    run_ops ops self w = (inr self', w')
    ∧ get self service key default w = (inr (value, self1), w1)
    ∧ get self' service key default w' = (inr (value, self2), w2).
Proof.
  intros _ Hops.
  assert (∃ self' w', run_ops ops self w = (inr self', w')
            ∧ stored (snapshot self' w') service key
              = stored (snapshot self w) service key)
    as (self' & w' & Hrun & Hsame).
  { revert self w. induction Hops as [|op ops Hop _ IH]; intros self w.
    { by eexists _, _. }
    cbn [run_ops]. rewrite io_bind_run.
    destruct (run_op_other op self w service key Hop)
      as (self1 & w1 & -> & Hsame1).
    destruct (IH self1 w1) as (self2 & w2 & -> & Hsame2).
    eexists _, _. split; [reflexivity|]. congruence. }
  destruct (get_snapshot self w service key default)
    as (s1 & w1 & Hget1 & _).
  destruct (get_snapshot self' w' service key default)
    as (s2 & w2 & Hget2 & _).
  exists self', w', (from_option Some default
                       (stored (snapshot self w) service key)),
    s1, w1, s2, w2.
  split; [done|]. split; [done|]. by rewrite Hget2, Hsame.
Qed.

(** The only way a computation ends in [EOFError]: the terminal has
    nothing left to read. *)
Definition eof_only {A} (m : IO A) : Prop :=
  ∀ w ex w', m w = (inl ex, w') → stdin w' = [].

Lemma eof_only_bind {A B} (m : IO A) (k : A → IO B) :
  eof_only m → (∀ a, eof_only (k a)) → eof_only (let* a := m in k a).
Proof.
  intros Hm Hk w ex w'. rewrite io_bind_run.
  destruct (m w) as [[e|a] w1] eqn:Hmw.
  - intros Heq. inversion Heq; subst. by eapply Hm.
  - apply Hk.
Qed.

Lemma eof_only_ret {A} (a : A) : eof_only (Eff.ret a).
Proof. by intros w ex w'. Qed.

Lemma eof_only_print text : eof_only (Storage.print text).
Proof. by intros w ex w'. Qed.

Lemma eof_only_getpass prompt : eof_only (getpass prompt).
Proof.
  intros w ex w'. unfold getpass.
  destruct (stdin w) eqn:Hstdin; [|done]. intros Heq. by inversion Heq; subst.
Qed.

Lemma eof_only_while_not password : eof_only (while_not_password password).
Proof.
  intros w ex w'. unfold while_not_password.
  remember (stdin w) as pending eqn:Hpending.
  revert password w Hpending.
  induction pending as [|answer pending IH]; intros password w Hpending.
  - cbn. destruct (truthy password); [done|]. intros Heq. by inversion Heq; subst.
  - cbn. destruct (truthy password); [done|]. by apply IH.
Qed.

Lemma eof_only_save_key_hash self : eof_only (_save_key_hash self).
Proof.
  intros w ex w'. unfold _save_key_hash. by destruct (encryption_key self).
Qed.

Lemma eof_only_ask_password attempts self :
  eof_only (ask_password attempts self).
Proof.
  intros w ex w' Hraise. pose proof (ask_password_run attempts self w) as Hrun.
  rewrite Hraise in Hrun. destruct ex. by destruct Hrun as (_ & _ & _ & _ & ?).
Qed.

Lemma eof_only_verify_key self : eof_only (_verify_key self).
Proof. intros w ex w'. by rewrite verify_key_run. Qed.

Lemma eof_only_try_load_key self : eof_only (_try_load_key self).
Proof.
  unfold _try_load_key.
  repeat first
    [ apply eof_only_ret | apply eof_only_ask_password
    | apply eof_only_verify_key
    | by intros w ex w'
    | apply eof_only_bind; [|intros ?]
    | match goal with
      | |- eof_only (if ?b then _ else _) => destruct b
      | |- eof_only (match ?x with _ => _ end) => destruct x
      end ].
Qed.

Lemma eof_only_initial_setup self provided_password :
  eof_only (_initial_setup self provided_password).
Proof.
  unfold _initial_setup.
  repeat first
    [ apply eof_only_ret | apply eof_only_print | apply eof_only_getpass
    | apply eof_only_while_not | apply eof_only_save_key_hash
    | apply eof_only_bind; [|intros ?]
    | match goal with
      | |- eof_only (if ?b then _ else _) => destruct b
      | |- eof_only (match ?x with _ => _ end) => destruct x
      end ].
Qed.

Lemma eof_only_init master_password : eof_only (__init__ master_password).
Proof.
  unfold __init__. apply eof_only_bind; [by intros w ex w'|].
  intros []; [|apply eof_only_initial_setup].
  destruct master_password as [[|c rest]|];
    first [ apply eof_only_ret
          | apply eof_only_bind;
            [apply eof_only_try_load_key|intros; apply eof_only_ret] ].
Qed.


(** X11: the module-level functions share one instance.  On a store that
    reads no file but its own (for the instance there is or, if there is
    none yet, for the one that [SecureStorage()] makes): once [set_password]
    has returned, the instance exists, [get_storage] hands it out without
    asking or reading anything, and [get_password] answers the value that
    was set; and if [set_password] ends in [EOFError], no instance existed
    and the terminal has nothing left to read. *)
Theorem set_password_then_get_password (_storage : option SecureStorage)
    (w : World) (service key value : string) :
  match _storage with
  | Some self => config self = ∅ → own_file self w
  | None => ∀ self w', __init__ None w = (inr self, w') → own_file self w'
  end →
  match set_password _storage service key value w with
  | (inr (saved, _storage'), w') =>
    ∃ self,
      _storage' = Some self
      ∧ get_storage _storage' w' = (inr (self, _storage'), w')
      ∧ get_password _storage' service key w'
        = (inr (Some value, _storage'), w')
  | (inl EOFError, w') => _storage = None ∧ stdin w' = []
  end.
Proof.
  intros _. unfold set_password. rewrite io_bind_run.
  destruct (get_storage _storage w) as [[[]|[self0 g0]] w0] eqn:Hstorage.
  { destruct _storage as [self|]; [done|]. split; [done|].
    revert Hstorage. unfold get_storage. rewrite io_bind_run.
    destruct (__init__ None w) as [[ex|self] w1] eqn:Hinit.
    - intros Heq. inversion Heq; subst. by eapply eof_only_init.
    - rewrite io_bind_run, load_run. by repeat case_match. }
  assert (g0 = Some self0) as ->.
  { revert Hstorage. destruct _storage as [self|]; [by intros [= <- <- <-]|].
    unfold get_storage. rewrite io_bind_run.
    destruct (__init__ None w) as [[ex|self] w1]; [done|].
    rewrite io_bind_run, load_run.
    repeat case_match; by intros [= <- <- <-]. }
  cbn [fst]. rewrite io_bind_run.
  destruct (set_run self0 w0 service key value)
    as (saved & self' & w' & -> & Hstored & _).
  cbn [Eff.ret fst snd]. exists self'. split; [done|]. split; [done|].
  unfold get_password. rewrite io_bind_run. cbn [get_storage Eff.ret fst].
  rewrite io_bind_run. by rewrite (get_stored self' w' service key value).
Qed.

End Store.

(** ** The concrete store *)

Section ConcreteStore.
Import Scenario.
#[local] Existing Instance toy_crypto.
#[local] Existing Instance toy_json.

Lemma undigits_digits (p : positive) : undigits (digits p) = Some p.
Proof. induction p as [p IH|p IH|]; cbn; rewrite ?IH; done. Qed.

#[local] Instance toy_json_laws : JsonLaws.
Proof.
  split. intros c. unfold json_loads, json_dumps, toy_json.
  rewrite undigits_digits. cbn [mbind option_bind].
  by rewrite (decode_encode c).
Qed.

Lemma initial_setup_persists_fingerprint_witness :
  ¬ (is_Some (config_file no_files) ∧ is_Some (key_file no_files))
  ∧ __init__ (Some "abc123") no_files =
    (inr opened,
     {| config_file := None;
        key_file := key_file opened_world;
        stdin := [];
        stdout :=
          ["비밀번호가 설정되었습니다. 이 비밀번호는 설정을 암호화하는 데 사용됩니다."];
        tape := 0 |}).
Proof.
  assert (¬ (is_Some (config_file no_files) ∧ is_Some (key_file no_files)))
    as Hfresh by (by intros [[? ?] _]).
  split; [exact Hfresh|].
  exact (initial_setup_persists_fingerprint "a" "bc123" no_files Hfresh).
Defined.

(** The claim of C8 fails for a secret that is not typed again at the
    confirmation: the store is started with the secret ["abc123"], the
    answer is ["abc124"], and the instance that comes back has no key, with
    no key file written. *)
Lemma unconfirmed_secret_derives_no_key :
  let w := with_stdin ["abc124"] no_files in
  ∃ self' w',
    __init__ (Some "abc123") w = (inr self', w')
    ∧ encryption_key self' = None
    ∧ key_file w' = None ∧ config_file w' = None
    ∧ stdout w' = ["비밀번호가 일치하지 않습니다. 기본 설정으로 시작합니다."].
Proof. eexists _, _. split; [vm_compute; reflexivity|]. by repeat split. Qed.

(** The file that [set] left is a file of the store. *)
Lemma written_world_own : own_file (reopened "abc123") written_world.
Proof.
  intros key data Hkey Hfile.
  exists {[ "rail" := {[ "id" := "user1" ]} ]}, (random_bytes 0 16).
  split; [reflexivity|].
  injection Hkey as <-. vm_compute in Hfile. injection Hfile as <-.
  by vm_compute.
Qed.

Lemma other_pairs_spare_rail_id :
  Forall (λ op, ¬ targets "rail" "id" op) other_pairs.
Proof.
  unfold other_pairs.
  repeat (apply Forall_cons; split;
          [cbn; first [by intros [] | by intros [? ?]] |]).
  by apply Forall_nil.
Qed.

Lemma set_get_roundtrip_witness :
  own_file (reopened "abc123") written_world
  ∧ Forall (λ op, ¬ targets "rail" "id" op) other_pairs
  ∧ ∃ saved self1 w1 self2 w2,
      set (reopened "abc123") "rail" "id" "user2" written_world
      = (inr (saved, self1), w1)
      ∧ run_ops other_pairs self1 w1 = (inr self2, w2)
      ∧ get self2 "rail" "id" None w2 = (inr (Some "user2", self2), w2)
      ∧ ∃ fresh self' w',
          __init__ (Some "abc123") w2 = (inr fresh, w2)
          ∧ get fresh "rail" "id" None w2 = (inr (Some "user2", self'), w').
Proof.
  split; [exact written_world_own|].
  split; [exact other_pairs_spare_rail_id|].
  destruct (set_get_roundtrip (reopened "abc123") written_world
              "rail" "id" "user2" other_pairs (λ _, written_world_own)
              other_pairs_spare_rail_id)
    as (saved & self1 & w1 & self2 & w2 & Hset & Hops & Hget & Hrestart).
  exists saved, self1, w1, self2, w2. repeat (split; [assumption|]).
  apply Hrestart; [by eexists | reflexivity | by eexists].
Defined.

Lemma delete_absent_pair_witness :
  own_file (reopened "abc123") written_world
  ∧ ∃ removed self' w',
      delete (reopened "abc123") "card" "number" written_world
      = (inr (removed, self'), w')
      ∧ key_file w' = key_file written_world
      ∧ (stored (snapshot (reopened "abc123") written_world) "card" "number"
         = None →
         removed = false
         ∧ config self' = snapshot (reopened "abc123") written_world
         ∧ config_file w' = config_file written_world).
Proof.
  split; [exact written_world_own|].
  destruct (delete_absent_pair (reopened "abc123") written_world
              "card" "number" (λ _, written_world_own))
    as (removed & self' & w' & Hdelete & Hkey & _ & Hcases).
  exists removed, self', w'. split; [exact Hdelete|]. split; [exact Hkey|].
  intros Habsent. rewrite Habsent in Hcases.
  destruct Hcases as (Hremoved & Hconfig & Hfile & _).
  split; [exact Hremoved|]. split; [exact Hconfig|exact Hfile].
Defined.

(** The claim of C10 fails on a new instance: its snapshot is empty until
    the first access, and [delete] of a pair that the store does not hold
    replaces it by what the file holds. *)
Lemma delete_absent_replaces_snapshot :
  stored (snapshot (reopened "abc123") written_world) "card" "number" = None
  ∧ ∃ self' w',
      delete (reopened "abc123") "card" "number" written_world
      = (inr (false, self'), w')
      ∧ config (reopened "abc123") = ∅
      ∧ stored (config self') "rail" "id" = Some "user1"
      ∧ config self' ≠ config (reopened "abc123").
Proof.
  split; [by vm_compute|].
  eexists _, _. split; [vm_compute; reflexivity|].
  split; [reflexivity|]. split; [by vm_compute|].
  intros Hsame. apply (f_equal (λ c, stored c "rail" "id")) in Hsame.
  vm_compute in Hsame. discriminate Hsame.
Qed.

(** The scenario of section 8 with the secret ["wrong"]: the instance is
    built, its key does not match the key file, and [get] decrypts with it,
    reports that what came out is no JSON, and answers [None]. *)
Example wrong_secret_scenario :
  __init__ (Some "wrong") written_world = (inr (reopened "wrong"), written_world)
  ∧ (_verify_key (reopened "wrong") written_world).1 = inr false
  ∧ ∃ self' w',
      get (reopened "wrong") "rail" "id" None written_world
      = (inr (None, self'), w')
      ∧ stdout w' = stdout written_world
                    ++ ["설정 로드 중 오류 발생: Expecting value"].
Proof.
  split; [by vm_compute|]. split; [by vm_compute|].
  eexists _, _. split; [vm_compute; reflexivity|]. by vm_compute.
Qed.

(** The same scenario with the secret ["abc123"]. *)
Example right_secret_scenario :
  __init__ (Some "abc123") written_world
  = (inr (reopened "abc123"), written_world)
  ∧ ∃ self',
      get (reopened "abc123") "rail" "id" None written_world
      = (inr (Some "user1", self'), written_world).
Proof.
  split; [by vm_compute|]. eexists. vm_compute. reflexivity.
Qed.
Lemma saved_key_hash_verifies_witness :
  encryption_key opened = _derive_key "abc123"
  ∧ ∃ w1,
      _save_key_hash opened no_files = (inr true, w1)
      ∧ key_file w1 = key_file opened_world
      ∧ _verify_key opened w1 = (inr true, w1).
Proof.
  split; [reflexivity|].
  destruct (saved_key_hash_verifies opened
              (pbkdf2_hmac "sha256" (str_encode "abc123") KDF_SALT
                 KDF_ITERATIONS)
              no_files eq_refl)
    as (w1 & Hsave & Hfile & _ & Hverify & _).
  { vm_compute. reflexivity. }
  exists w1. split; [exact Hsave|]. split; [exact Hfile|]. exact Hverify.
Defined.

Lemma rejected_password_stays_as_key_witness :
  Forall
    (λ p, strip (default "" (key_file opened_world))
          ≠ sha256_hexdigest (pbkdf2_hmac "sha256" (str_encode p) KDF_SALT
                                KDF_ITERATIONS))
    ["letmein"; "password"; "abc124"]
  ∧ ∃ self' w',
      __init__ None three_wrong_answers = (inr self', w')
      ∧ encryption_key self' = _derive_key "abc124"
      ∧ stdin w' = []
      ∧ ∃ w1,
          save self' w' = (inr true, w1)
          ∧ sealed (pbkdf2_hmac "sha256" (str_encode "abc124") KDF_SALT
                      KDF_ITERATIONS) self' w1
          ∧ config self' = DEFAULT_CONFIG.
Proof.
  assert (Forall
    (λ p, strip (default "" (key_file opened_world))
          ≠ sha256_hexdigest (pbkdf2_hmac "sha256" (str_encode p) KDF_SALT
                                KDF_ITERATIONS))
    ["letmein"; "password"; "abc124"]) as Hwrong.
  { repeat (apply Forall_cons; split; [by vm_compute|]). by apply Forall_nil. }
  split; [exact Hwrong|].
  destruct (rejected_password_stays_as_key
              "l" "p" "a" "etmein" "assword" "bc124"
              [] (default "" (key_file opened_world)) [] [] 0
              Hwrong) as [Hinit Hset].
  eexists _, _. split; [exact Hinit|]. split; [reflexivity|].
  split; [reflexivity|]. exact Hset.
Defined.

Lemma mismatched_confirmation_leaves_no_key_witness :
  ¬ (is_Some (config_file no_files) ∧ is_Some (key_file no_files))
  ∧ stdin no_files = ["abc123"]
  ∧ "abc123" ≠ "abc124"
  ∧ ∃ self' w',
      __init__ (Some "abc124") no_files = (inr self', w')
      ∧ encryption_key self' = None
      ∧ key_file w' = None.
Proof.
  assert (¬ (is_Some (config_file no_files) ∧ is_Some (key_file no_files)))
    as Hfresh by (by intros [[? ?] _]).
  assert ("abc123" ≠ "abc124") as Hdiffer by (by vm_compute).
  split; [exact Hfresh|]. split; [reflexivity|]. split; [exact Hdiffer|].
  eexists _, _.
  split; [exact (mismatched_confirmation_leaves_no_key "a" "bc124" "abc123"
                   no_files [] Hfresh eq_refl Hdiffer)|].
  split; reflexivity.
Defined.

Lemma keyless_set_stays_in_memory_witness :
  encryption_key keyless = None
  ∧ ∃ self' w',
      set keyless "rail" "id" "user1" no_files = (inr (false, self'), w')
      ∧ config_file w' = None
      ∧ get self' "rail" "id" None w' = (inr (Some "user1", self'), w').
Proof.
  split; [reflexivity|].
  destruct (keyless_set_stays_in_memory keyless no_files "rail" "id" "user1"
              eq_refl) as (self' & Hset & _ & Hget).
  eexists self', _. split; [exact Hset|]. split; [reflexivity|]. exact Hget.
Defined.

Lemma initial_setup_insists_on_secret_witness :
  ¬ (is_Some (config_file hesitant_start) ∧ is_Some (key_file hesitant_start))
  ∧ stdin hesitant_start = replicate 2 "" ++ ["abc123"; "abc123"]
  ∧ ∃ self' w',
      __init__ None hesitant_start = (inr self', w')
      ∧ encryption_key self' = _derive_key "abc123"
      ∧ key_file w' = key_file opened_world
      ∧ stdout w' = ["비밀번호는 비워둘 수 없습니다."; "비밀번호는 비워둘 수 없습니다.";
                     "비밀번호가 설정되었습니다. 이 비밀번호는 설정을 암호화하는 데 사용됩니다."].
Proof.
  assert (¬ (is_Some (config_file hesitant_start)
             ∧ is_Some (key_file hesitant_start)))
    as Hfresh by (by intros [[? ?] _]).
  split; [exact Hfresh|]. split; [reflexivity|].
  eexists _, _.
  split; [exact (initial_setup_insists_on_secret 2 "a" "bc123" hesitant_start
                   [] Hfresh eq_refl)|].
  repeat split; reflexivity.
Defined.

Lemma save_load_roundtrip_witness :
  encryption_key opened = _derive_key "abc123"
  ∧ encryption_key (reopened "abc123") = _derive_key "abc123"
  ∧ ∃ file w1,
      save opened opened_world = (inr true, w1)
      ∧ config_file w1 = Some file
      ∧ length file = 16 + length (json_dumps (config opened))
      ∧ load (reopened "abc123") w1
        = (inr (config opened, set_config (config opened) (reopened "abc123")),
           w1).
Proof.
  split; [reflexivity|]. split; [reflexivity|].
  destruct (save_load_roundtrip opened (reopened "abc123")
              (pbkdf2_hmac "sha256" (str_encode "abc123") KDF_SALT
                 KDF_ITERATIONS)
              opened_world eq_refl eq_refl)
    as (file & w1 & Hsave & Hfile & _ & Hlen & _ & _ & Hload).
  exists file, w1. split; [exact Hsave|]. split; [exact Hfile|].
  split; [exact Hlen|]. exact Hload.
Defined.

Lemma deleted_pair_is_gone_witness :
  stored (snapshot (reopened "abc123") written_world) "rail" "id"
  = Some "user1"
  ∧ ∃ self' w',
      delete (reopened "abc123") "rail" "id" written_world
      = (inr (true, self'), w')
      ∧ get self' "rail" "id" None w' = (inr (None, self'), w')
      ∧ ∃ fresh self2 w2,
          __init__ (Some "abc123") w' = (inr fresh, w')
          ∧ get fresh "rail" "id" None w' = (inr (None, self2), w2).
Proof.
  assert (stored (snapshot (reopened "abc123") written_world) "rail" "id"
          = Some "user1") as Hstored by (by vm_compute).
  split; [exact Hstored|].
  destruct (deleted_pair_is_gone (reopened "abc123") written_world
              "rail" "id" "user1" Hstored)
    as (removed & self' & w' & Hdelete & Hremoved & Hget & Hrestart).
  exists self', w'. split.
  { rewrite Hdelete, Hremoved. reflexivity. }
  split; [apply Hget|].
  apply (Hrestart "abc123" None); [by eexists | reflexivity | by eexists].
Defined.

Lemma operations_keep_key_witness :
  own_file (reopened "abc123") written_world
  ∧ ∃ self' w',
      run_ops other_pairs (reopened "abc123") written_world = (inr self', w')
      ∧ encryption_key self' = encryption_key (reopened "abc123")
      ∧ key_file w' = key_file written_world
      ∧ stdin w' = stdin written_world
      ∧ (config self' = ∅ → own_file self' w').
Proof.
  split; [exact written_world_own|].
  destruct (operations_keep_key other_pairs (reopened "abc123") written_world
              (λ _, written_world_own))
    as (self' & w' & Hrun & Hkey & _ & _ & Hfile & Hin & Hown & _).
  exists self', w'. split; [exact Hrun|]. split; [exact Hkey|].
  split; [exact Hfile|]. split; [exact Hin|exact Hown].
Defined.

Lemma operations_spare_other_pairs_witness :
  own_file (reopened "abc123") written_world
  ∧ Forall (λ op, ¬ targets "rail" "id" op) other_pairs
  ∧ ∃ self' w' value self1 w1 self2 w2,
      run_ops other_pairs (reopened "abc123") written_world = (inr self', w')
      ∧ get (reopened "abc123") "rail" "id" None written_world
        = (inr (value, self1), w1)
      ∧ get self' "rail" "id" None w' = (inr (value, self2), w2).
Proof.
  split; [exact written_world_own|].
  split; [exact other_pairs_spare_rail_id|].
  exact (operations_spare_other_pairs other_pairs (reopened "abc123")
           written_world "rail" "id" None (λ _, written_world_own)
           other_pairs_spare_rail_id).
Defined.

Lemma set_password_then_get_password_witness :
  own_file (reopened "abc123") written_world
  ∧ match set_password (Some (reopened "abc123")) "card" "number" "1234"
            written_world with
    | (inr (saved, _storage'), w') =>
      ∃ self,
        _storage' = Some self
        ∧ get_storage _storage' w' = (inr (self, _storage'), w')
        ∧ get_password _storage' "card" "number" w'
          = (inr (Some "1234", _storage'), w')
    | (inl EOFError, w') => False
    end.
Proof.
  split; [exact written_world_own|].
  pose proof (set_password_then_get_password (Some (reopened "abc123"))
                written_world "card" "number" "1234"
                (λ _, written_world_own)) as Hshared.
  destruct (set_password _ _ _ _ _) as [[[]|[saved _storage']] w'].
  - by destruct Hshared.
  - exact Hshared.
Defined.

End ConcreteStore.

End StorageSpec.
